(** * Gopack: build-time resolution of import/export paths

    Shallow embedding of [cmd/build/gopack.go].  Module text and paths are
    byte strings ([string]); the file system the Go code talks to through
    [os], [io/ioutil] and [path/filepath] is an explicit finite map that is
    threaded through every operation; standard output is a list of
    structured messages; a Go panic is an outcome of its own. *)

From Stdlib Require Import Ascii String.
From stdpp Require Import gmap strings list sorting.

Open Scope string_scope.

(** ** Byte strings: the parts of [strings] and [bytes] that gopack uses *)

Module Str.

Definition dquote : ascii := "034"%char.
Definition squote : ascii := "039"%char.
Definition newline : ascii := "010"%char.
Definition slash : ascii := "/"%char.
Definition dot : ascii := "."%char.

Fixpoint drop (n : nat) (s : string) : string :=
  match n, s with
  | S k, String _ s' => drop k s'
  | _, _ => s
  end.

Fixpoint take (n : nat) (s : string) : string :=
  match n, s with
  | S k, String c s' => String c (take k s')
  | _, _ => ""
  end.

(** [strings.HasPrefix s p]. *)
Definition hasPrefix (s p : string) : bool := String.prefix p s.

(** [strings.Replace s old new 1] (and [bytes.Replace] with [n = 1]):
    the first occurrence of [old] is replaced; an empty [old] matches at
    the start of [s]. *)
Fixpoint replace1 (s old new : string) : string :=
  if hasPrefix s old then new ++ drop (String.length old) s
  else match s with
       | "" => ""
       | String c s' => String c (replace1 s' old new)
       end.

(** [bytes.ReplaceAll s old new]: every non-overlapping occurrence of
    [old], left to right.  [skip] counts the bytes of an occurrence that
    are still to be dropped.  An empty [old] matches before every byte
    and at the end. *)
Fixpoint replaceAll_go (old new : string) (skip : nat) (s : string) : string :=
  match s with
  | "" => ""
  | String c s' =>
      match skip with
      | S k => replaceAll_go old new k s'
      | O => if hasPrefix s old
             then new ++ replaceAll_go old new (Nat.pred (String.length old)) s'
             else String c (replaceAll_go old new 0 s')
      end
  end.

Fixpoint intersperse_all (new s : string) : string :=
  match s with
  | "" => new
  | String c s' => new ++ String c (intersperse_all new s')
  end.

Definition replaceAll (s old new : string) : string :=
  match old with
  | "" => intersperse_all new s
  | _ => replaceAll_go old new 0 s
  end.

Definition is_quote (c : ascii) : bool :=
  bool_decide (c = squote) || bool_decide (c = dquote).

Fixpoint trimLeft (f : ascii -> bool) (s : string) : string :=
  match s with
  | String c s' => if f c then trimLeft f s' else s
  | "" => ""
  end.

Fixpoint trimRight (f : ascii -> bool) (s : string) : string :=
  match s with
  | "" => ""
  | String c s' =>
      match trimRight f s' with
      | "" => if f c then "" else String c ""
      | r => String c r
      end
  end.

(** [strings.Trim s cutset] for the cutset given as a predicate. *)
Definition trim (f : ascii -> bool) (s : string) : string :=
  trimRight f (trimLeft f s).

(** Split at every [sep] byte ([strings.Split s "/"]). *)
Fixpoint split (sep : ascii) (s : string) : list string :=
  match s with
  | "" => [""]
  | String c s' =>
      if bool_decide (c = sep) then "" :: split sep s'
      else match split sep s' with
           | w :: ws => String c w :: ws
           | [] => [String c ""]
           end
  end.

Definition join (sep : string) (l : list string) : string := String.concat sep l.

End Str.

(** ** [path] and [path/filepath] on a Unix system *)

Module Path.
Import Str.

Inductive ext_scan := ExtFound (e : string) | ExtSlash | ExtNone.

(** Scan for the final dot of the final element: the loop of
    [filepath.Ext] runs from the end of the path and stops at a slash. *)
Fixpoint ext_scan_of (p : string) : ext_scan :=
  match p with
  | "" => ExtNone
  | String c p' =>
      match ext_scan_of p' with
      | ExtFound e => ExtFound e
      | ExtSlash => ExtSlash
      | ExtNone =>
          if bool_decide (c = dot) then ExtFound p
          else if bool_decide (c = slash) then ExtSlash
          else ExtNone
      end
  end.

(** [filepath.Ext]. *)
Definition Ext (p : string) : string :=
  match ext_scan_of p with
  | ExtFound e => e
  | _ => ""
  end.

(** One element of a path being cleaned; [acc] is the stack of kept
    elements, innermost first. *)
Definition clean_step (rooted : bool) (acc : list string) (e : string) : list string :=
  if bool_decide (e = "") || bool_decide (e = ".") then acc
  else if bool_decide (e = "..") then
    match acc with
    | top :: rest => if bool_decide (top = "..") then e :: acc else rest
    | [] => if rooted then [] else [e]
    end
  else e :: acc.

Definition isRooted (p : string) : bool :=
  match p with
  | String c _ => bool_decide (c = slash)
  | "" => false
  end.

(** The elements a path is made of once it is cleaned, and whether it is
    rooted. *)
Definition norm (p : string) : bool * list string :=
  (isRooted p, rev (fold_left (clean_step (isRooted p)) (split slash p) [])).

Definition render (k : bool * list string) : string :=
  match k.2, k.1 with
  | [], true => "/"
  | [], false => "."
  | elems, true => "/" ++ join "/" elems
  | elems, false => join "/" elems
  end.

(** [path.Clean] (the same function as [filepath.Clean] on Unix). *)
Definition Clean (p : string) : string := render (norm p).

(** The text up to and including the last slash ([path.Split], first
    component). *)
Fixpoint dirPart (p : string) : string :=
  match p with
  | "" => ""
  | String c p' =>
      match dirPart p' with
      | "" => if bool_decide (c = slash) then String c "" else ""
      | d => String c d
      end
  end.

(** The text after the last slash ([path.Split], second component). *)
Definition Base (p : string) : string := drop (String.length (dirPart p)) p.

(** [path.Dir] and [filepath.Dir]. *)
Definition Dir (p : string) : string := Clean (dirPart p).

(** [filepath.Join] of a directory and a name. *)
Definition Join (d name : string) : string :=
  match d, name with
  | "", "" => ""
  | "", _ => Clean name
  | _, "" => Clean d
  | _, _ => Clean (d ++ "/" ++ name)
  end.

(** The elements of a cleaned path with its leading slash removed, as
    [filepath.Rel] walks them. *)
Definition relElems (p : string) : list string :=
  match (if isRooted p then drop 1 p else p) with
  | "" => []
  | q => split slash q
  end.

Fixpoint dropCommon (b t : list string) : list string * list string :=
  match b, t with
  | x :: b', y :: t' => if bool_decide (x = y) then dropCommon b' t' else (b, t)
  | _, _ => (b, t)
  end.

(** [filepath.Rel basepath targpath]; [None] is the error
    "Rel: can't make ... relative to ...".  The loop of the Go function
    skips the elements the two cleaned paths share; it fails when one
    path is rooted and the other is not, or when it stops at a base
    element [..] that differs from the target's. *)
Definition Rel (basepath targpath : string) : option string :=
  let base := Clean basepath in
  let targ := Clean targpath in
  if bool_decide (targ = base) then Some "."
  else
    let base := if bool_decide (base = ".") then "" else base in
    if negb (Bool.eqb (isRooted base) (isRooted targ)) then None
    else
      let '(b, t) := dropCommon (relElems base) (relElems targ) in
      match b with
      | [] => Some (join "/" t)
      | b0 :: _ =>
          if bool_decide (b0 = "..") && negb (bool_decide (t = [])) then None
          else
            let ups := join "/" (replicate (List.length b) "..") in
            match t with
            | [] => Some ups
            | _ => Some (ups ++ "/" ++ join "/" t)
            end
      end.

End Path.

(** ** [regexp]: the expressions of gopack and leftmost-first matching

    Go's [regexp] returns, among the matches that start leftmost, the one
    a backtracking search finds first (alternatives left to right, greedy
    repetition).  [exec] is that search in continuation-passing style.
    Expressions are matched on bytes: the only byte classes used are
    quotes, white space, newline and "any byte but newline", so the span of
    a match is the same on bytes as on UTF-8 runes. *)

Module Regexp.
Import Str.

Inductive re :=
| Eps
| Chr (c : ascii)
| AnyNoNL                (* [.] *)
| Space                  (* [\s] *)
| Bol                    (* [^] under [(?m)] *)
| Seq (r1 r2 : re)
| Alt (r1 r2 : re)
| Star (r : re).         (* [r*], [r{0,}] *)

Fixpoint lit (s : string) : re :=
  match s with
  | "" => Eps
  | String c s' => Seq (Chr c) (lit s')
  end.

(** [\s] is [[\t\n\f\r ]]. *)
Definition is_space (c : ascii) : bool :=
  let n := nat_of_ascii c in
  ((n =? 9) || (n =? 10) || (n =? 12) || (n =? 13) || (n =? 32))%nat.

(** The state of a match: the byte before the position and the rest. *)
Definition cont : Type := option ascii -> string -> option (option ascii * string).

Definition step_if (f : ascii -> bool) (s : string) (k : cont) :=
  match s with
  | String d s' => if f d then k (Some d) s' else None
  | "" => None
  end.

Fixpoint exec (r : re) (prev : option ascii) (s : string) (k : cont)
  : option (option ascii * string) :=
  match r with
  | Eps => k prev s
  | Chr c => step_if (fun d => bool_decide (d = c)) s k
  | AnyNoNL => step_if (fun d => negb (bool_decide (d = newline))) s k
  | Space => step_if is_space s k
  | Bol =>
      match prev with
      | None => k prev s
      | Some p => if bool_decide (p = newline) then k prev s else None
      end
  | Seq r1 r2 => exec r1 prev s (fun p' s' => exec r2 p' s' k)
  | Alt r1 r2 =>
      match exec r1 prev s k with
      | Some x => Some x
      | None => exec r2 prev s k
      end
  | Star r' =>
      (fix iter (n : nat) (prev : option ascii) (s : string) :=
         match n with
         | O => k prev s
         | S n' =>
             match exec r' prev s
                     (fun p' s' =>
                        if (String.length s' <? String.length s)%nat
                        then iter n' p' s' else None) with
             | Some x => Some x
             | None => k prev s
             end
         end) (S (String.length s)) prev s
  end.

Record found := Found {
  before : string;           (* the text skipped before the match *)
  matched : string;
  after_prev : option ascii; (* the last byte before [rest] *)
  rest : string
}.

(** The leftmost match at or after the current position. *)
Fixpoint search (r : re) (prev : option ascii) (s : string) : option found :=
  match exec r prev s (fun p' s' => Some (p', s')) with
  | Some (p', s') =>
      Some (Found "" (take (String.length s - String.length s') s) p' s')
  | None =>
      match s with
      | "" => None
      | String c s' =>
          match search r (Some c) s' with
          | Some f => Some (Found (String c (before f)) (matched f) (after_prev f) (rest f))
          | None => None
          end
      end
  end.

(** [re.Find b]; Go returns nil when there is no match, which is the
    empty byte string once converted. *)
Definition Find (r : re) (s : string) : string :=
  match search r None s with
  | Some f => matched f
  | None => ""
  end.

(** [re.FindAll b (-1)]: successive non-overlapping matches.  None of
    gopack's expressions matches the empty string; an empty match is
    recorded and the search moves on by one byte. *)
Fixpoint findAll_go (n : nat) (r : re) (prev : option ascii) (s : string) : list string :=
  match n with
  | O => []
  | S n' =>
      match search r prev s with
      | None => []
      | Some f =>
          match matched f, rest f with
          | "", "" => [""]
          | "", String c s' => "" :: findAll_go n' r (Some c) s'
          | m, s' => m :: findAll_go n' r (after_prev f) s'
          end
      end
  end.

Definition FindAll (r : re) (s : string) : list string :=
  findAll_go (S (String.length s)) r None s.

(** *** Replacement templates ([Regexp.expand])

    In a replacement, [$$] is a dollar sign and [$name] or [${name}]
    stands for a submatch.  The expression this is used with has no
    capturing group, so only [$0] (the whole match) is non-empty.  Names
    are read over ASCII letters, digits and underscore. *)

Definition is_name_char (c : ascii) : bool :=
  let n := nat_of_ascii c in
  (((48 <=? n) && (n <=? 57)) || ((65 <=? n) && (n <=? 90))
   || ((97 <=? n) && (n <=? 122)) || (n =? 95))%nat.

Fixpoint span (f : ascii -> bool) (s : string) : string * string :=
  match s with
  | String c s' =>
      if f c then let '(a, b) := span f s' in (String c a, b) else ("", s)
  | "" => ("", "")
  end.

(** [extract]: the name after a dollar sign and the text after it. *)
Definition extract (t : string) : option (string * string) :=
  match t with
  | "" => None
  | String c t' =>
      if bool_decide (c = "{"%char) then
        match span is_name_char t' with
        | ("", _) => None
        | (name, String d r) => if bool_decide (d = "}"%char) then Some (name, r) else None
        | (_, "") => None
        end
      else
        match span is_name_char t with
        | ("", _) => None
        | (name, r) => Some (name, r)
        end
  end.

Fixpoint expand_go (n : nat) (whole : string) (t : string) : string :=
  match n with
  | O => t
  | S n' =>
      match t with
      | "" => ""
      | String c t' =>
          if bool_decide (c = "$"%char) then
            match t' with
            | String d t'' =>
                if bool_decide (d = "$"%char) then String d (expand_go n' whole t'')
                else match extract t' with
                     | None => String c (expand_go n' whole t')
                     | Some (name, r) =>
                         (if bool_decide (name = "0") then whole else "")
                           ++ expand_go n' whole r
                     end
            | "" => String c ""
            end
          else String c (expand_go n' whole t')
      end
  end.

Definition expand (whole template : string) : string :=
  expand_go (S (String.length template)) whole template.

(** [re.ReplaceAll src repl]. *)
Fixpoint replaceAll_go (n : nat) (r : re) (repl : string) (prev : option ascii) (s : string) : string :=
  match n with
  | O => s
  | S n' =>
      match search r prev s with
      | None => s
      | Some f =>
          match matched f, rest f with
          | "", "" => before f ++ expand "" repl
          | "", String c s' =>
              before f ++ expand "" repl ++ String c (replaceAll_go n' r repl (Some c) s')
          | m, s' => before f ++ expand m repl ++ replaceAll_go n' r repl (after_prev f) s'
          end
      end
  end.

Definition ReplaceAll (r : re) (src repl : string) : string :=
  replaceAll_go (S (String.length src)) r repl None src.

End Regexp.

(** ** The four expressions

    [quote] is the non-capturing group of the two quote characters. *)

Import Regexp.

Definition quote : re := Alt (Chr Str.squote) (Chr Str.dquote).

(** The expression for dynamic imports: the text [import(], a single or
    double quote, [.*], a quote, a closing parenthesis. *)
Definition reDynamicImport : re :=
  Seq (lit "import(") (Seq quote (Seq (Star AnyNoNL) (Seq quote (Chr ")"%char)))).

(** The source text of the two static expressions, kept for reference. *)
Definition reStaticImportGoPk_text : string :=
  "(?m)^import(\s)(.*from(.*);|((.*\n){0,})\}(\s)from(.*);)".
Definition reStaticExportGoPk_text : string :=
  "export(\s)(.*from(.*);|((.*\n){0,})\}(\s)from(.*);)".

(** The alternation both static expressions end with: a one-line
    statement up to its last [from] and last semicolon, or any number of
    whole lines, a closing brace, one white-space byte and [from]. *)
Definition reFromTail : re :=
  Alt (Seq (Star AnyNoNL) (Seq (lit "from") (Seq (Star AnyNoNL) (Chr ";"%char))))
      (Seq (Star (Seq (Star AnyNoNL) (Chr Str.newline)))
           (Seq (Chr "}"%char)
                (Seq Space (Seq (lit "from") (Seq (Star AnyNoNL) (Chr ";"%char)))))).

(** [reStaticImportGoPk_text]: anchored at the start of a line. *)
Definition reStaticImportGoPk : re :=
  Seq Bol (Seq (lit "import") (Seq Space reFromTail)).

(** [reStaticExportGoPk_text]: not anchored. *)
Definition reStaticExportGoPk : re :=
  Seq (lit "export") (Seq Space reFromTail).

(** The expression for a quoted path: a single or double quote, [.*],
    a single or double quote. *)
Definition rePath : re := Seq quote (Seq (Star AnyNoNL) quote).

(** ** The file system

    A file system is a finite map from cleaned paths, kept as their
    elements, to nodes.  A directory is open or locked; nothing below a
    locked directory can be reached ([EACCES]), and nothing can be reached
    through a regular file ([ENOTDIR]).  The directories [.] and [/]
    always exist.  Paths are resolved after cleaning, so that an element
    followed by [..] is not looked up; symbolic links, the permissions of
    regular files and the limits a system sets to the length of a path
    are not modelled. *)

Module FS.

Inductive node :=
| File (data : string)
| Dir (open : bool).

Inductive errno := ENOENT | ENOTDIR | EACCES | EISDIR | EEXIST.

Global Instance node_eq_dec : EqDecision node.
Proof. solve_decision. Defined.
Global Instance errno_eq_dec : EqDecision errno.
Proof. solve_decision. Defined.

Abbreviation key := (bool * list string)%type.
Abbreviation fsys := (gmap (bool * list string) node).

(** The result of resolving a path: a node, an error, or nothing at the
    last element while all elements before it lead through open
    directories. *)
Inductive res :=
| Found (nd : node)
| Fail (e : errno)
| NoLeaf.

(** Go down from the node [nd] at the elements [pre] along [es]. *)
Fixpoint descend (f : fsys) (r : bool) (pre : list string) (nd : node) (es : list string)
  : res :=
  match es with
  | [] => Found nd
  | e :: es' =>
      match nd with
      | File _ => Fail ENOTDIR
      | Dir false => Fail EACCES
      | Dir true =>
          match f !! (r, (pre ++ [e])%list) with
          | Some nd' => descend f r (pre ++ [e])%list nd' es'
          | None => match es' with
                    | [] => NoLeaf
                    | _ => Fail ENOENT
                    end
          end
      end
  end.

Definition top (f : fsys) (r : bool) : node := default (Dir true) (f !! (r, [])).

Definition resolve (f : fsys) (k : key) : res := descend f k.1 [] (top f k.1) k.2.

Definition to_stat (x : res) : errno + node :=
  match x with
  | Found nd => inr nd
  | Fail e => inl e
  | NoLeaf => inl ENOENT
  end.

(** [os.Stat] and [os.Lstat].  The empty path names nothing. *)
Definition stat (f : fsys) (p : string) : errno + node :=
  match p with
  | "" => inl ENOENT
  | _ => to_stat (resolve f (Path.norm p))
  end.

(** [ioutil.ReadFile], and [os.Open] followed by reading to the end. *)
Definition ReadFile (f : fsys) (p : string) : errno + string :=
  match stat f p with
  | inr (File d) => inr d
  | inr (Dir _) => inl EISDIR
  | inl e => inl e
  end.

(** Put a node at a path that resolves to nothing in an open directory. *)
Definition create (f : fsys) (p : string) (nd : node) (busy : node -> errno + fsys)
  : errno + fsys :=
  match p with
  | "" => inl ENOENT
  | _ =>
      match resolve f (Path.norm p) with
      | Found old => busy old
      | NoLeaf => inr (<[Path.norm p := nd]> f)
      | Fail e => inl e
      end
  end.

(** [ioutil.WriteFile], and [os.Create] followed by [io.Copy]: the file
    is created in an open directory or truncated and rewritten. *)
Definition WriteFile (f : fsys) (p : string) (data : string) : errno + fsys :=
  create f p (File data)
    (fun old => match old with
                | File _ => inr (<[Path.norm p := File data]> f)
                | Dir _ => inl EISDIR
                end).

(** [os.Mkdir]. *)
Definition Mkdir (f : fsys) (p : string) : errno + fsys :=
  create f p (Dir true) (fun _ => inl EEXIST).

(** [os.MkdirAll]: succeed on an existing directory, fail on a file,
    otherwise make the parent and then the directory itself. *)
Fixpoint MkdirAll_go (n : nat) (f : fsys) (p : string) : errno + fsys :=
  match stat f p with
  | inr (Dir _) => inr f
  | inr (File _) => inl ENOTDIR
  | inl _ =>
      match n with
      | O => Mkdir f p
      | S n' =>
          match MkdirAll_go n' f (Path.Dir p) with
          | inl e => inl e
          | inr f' => Mkdir f' p
          end
      end
  end.

Definition MkdirAll (f : fsys) (p : string) : errno + fsys :=
  MkdirAll_go (String.length p) f p.

(** A directory entry as [os.ReadDir] returns it: a name and whether it
    is a directory. *)
Record dirent := Dirent { d_name : string; d_isDir : bool }.

Definition node_isDir (nd : node) : bool :=
  match nd with
  | Dir _ => true
  | File _ => false
  end.

(** The name under which the path [k] is an entry of the directory [d]. *)
Definition child_name (d k : key) : option string :=
  if bool_decide (k.1 = d.1) then
    match reverse k.2 with
    | name :: pre => if bool_decide (reverse pre = d.2) then Some name else None
    | [] => None
    end
  else None.

Definition name_le (a b : dirent) : Prop := String.le (d_name a) (d_name b).

Global Instance name_le_dec : RelDecision name_le.
Proof. intros a b. unfold name_le. apply _. Defined.

(** The entries of the directory [d], sorted by file name. *)
Definition entries (f : fsys) (d : key) : list dirent :=
  merge_sort name_le
    (omap (fun kv => (fun name => Dirent name (node_isDir kv.2)) <$> child_name d kv.1)
          (map_to_list f)).

(** [os.ReadDir]. *)
Definition ReadDir (f : fsys) (p : string) : errno + list dirent :=
  match stat f p with
  | inr (Dir true) => inr (entries f (Path.norm p))
  | inr (Dir false) => inl EACCES
  | inr (File _) => inl ENOTDIR
  | inl e => inl e
  end.

(** A file system given by the paths of its nodes. *)
Definition of_list (l : list (string * node)) : fsys :=
  list_to_map (map (fun pn => (Path.norm pn.1, pn.2)) l).

(** The node stored at a path. *)
Definition at_path (f : fsys) (p : string) : option node := f !! Path.norm p.

(** All nodes with their paths. *)
Definition listing (f : fsys) : list (string * node) :=
  map (fun kv => (Path.render kv.1, kv.2)) (map_to_list f).

End FS.

(** ** [filepath.WalkDir]

    The walk calls its function on the root, then on every entry below it
    in lexical pre-order.  A root that cannot be stat-ed is reported with a
    nil entry; a directory that cannot be listed is reported a second time
    with the error.  The list of calls is taken from the file system as it
    is when the walk starts: the functions gopack passes create nothing
    inside a directory they have yet to list unless the mirror lies inside
    the package that is being copied. *)

Module Walk.
Import FS.

Record call := Call {
  c_path : string;
  c_entry : option bool;     (* [None]: nil entry; [Some b]: [IsDir () = b] *)
  c_err : option errno
}.

Global Instance call_eq_dec : EqDecision call.
Proof. solve_decision. Defined.

Fixpoint walkDir (n : nat) (fs : fsys) (p : string) (isDir : bool) : list call :=
  Call p (Some isDir) None ::
    (if isDir then
       match n with
       | O => []
       | S n' =>
           match ReadDir fs p with
           | inl e => [Call p (Some isDir) (Some e)]
           | inr ds =>
               flat_map (fun d => walkDir n' fs (Path.Join p (d_name d)) (d_isDir d)) ds
           end
       end
     else []).

Definition WalkDir (fs : fsys) (root : string) : list call :=
  match stat fs root with
  | inl e => [Call root None (Some e)]
  | inr nd => walkDir (S (size fs)) fs root (node_isDir nd)
  end.

(** What the walk function returns: [Next] for nil, [Halt] for an error
    (which ends the walk) or for a panic. *)
Inductive flow (E : Type) :=
| Next
| Halt (e : E).
Arguments Next {E}.
Arguments Halt {E} e.

Fixpoint run {St E : Type} (fn : St -> call -> St * flow E) (st : St) (cs : list call)
  : St * flow E :=
  match cs with
  | [] => (st, Next)
  | c :: cs' =>
      match fn st c with
      | (st', Next) => run fn st' cs'
      | r => r
      end
  end.

End Walk.

(** ** gopack *)

Import FS Walk.

(** Errors of the walk function of [copyNpmModule], one per [fmt.Errorf]. *)
Inductive copy_error :=
| CantStat (p : string) (e : errno)        (* can't stat %s: %w *)
| CantOpen (p : string) (e : errno)        (* Could not open source .mjs %s file for copying *)
| CantMkdir (p : string) (e : errno)       (* Could not create subdirectories %s *)
| CantCreate (p : string) (e : errno)      (* Could not create destination %s file for copying *)
| CantCopy (e : errno).                    (* Could not copy .mjs from source to destination *)

(** Lines written to standard output, one constructor per format string. *)
Inductive msg :=
| MLog (line : string)
| MFullpath (fullPathStr : string)         (* fullpath: ... *)
| MConvertpath (convertPath : string)      (* convertpath: ... *)
| MRelErr                                  (* Could not make path to NPM dependency relative: %s *)
| MUnresolved (pathStr convertPath : string) (* Import path '%s' not resolvable from file '%s' *)
| MCantWalk (subPath : string) (e : errno) (* Can't walk path %s: %s *)
| MCantReadDir (p : string) (e : errno)    (* Could not read files in dir '%s': %s *)
| MNodeModule (e : copy_error).            (* Could not get node module: %s *)

(** Errors [runPack] returns. *)
Inductive run_error :=
| ErrRead (convertPath : string) (e : errno)   (* Could not read file %s to convert to esm: %w *)
| ErrWrite (convertPath : string) (e : errno). (* Could not overwite %s with new import: %w *)

Inductive panic :=
| SliceBounds        (* slice bounds out of range [:1] with length 0 *)
| NilDeref.          (* method call on the nil [fs.DirEntry] *)

Inductive outcome :=
| Ok                           (* return nil *)
| Err (e : run_error)
| Panic (pk : panic)
| OutOfFuel.                   (* the recursion bound of the model is used up *)

Global Instance copy_error_eq_dec : EqDecision copy_error.
Proof. solve_decision. Defined.
Global Instance msg_eq_dec : EqDecision msg.
Proof. solve_decision. Defined.
Global Instance run_error_eq_dec : EqDecision run_error.
Proof. solve_decision. Defined.
Global Instance panic_eq_dec : EqDecision panic.
Proof. solve_decision. Defined.
Global Instance outcome_eq_dec : EqDecision outcome.
Proof. solve_decision. Defined.

(** The world a run acts on.  [visits] is not program state: it records,
    in order, every module whose text [runPack] has read, so that
    statements about the traversal can be made. *)
Record world := World {
  fs : fsys;
  out : list msg;
  visits : list string
}.

Definition set_fs (w : world) (f : fsys) : world := World f (out w) (visits w).
Definition say (w : world) (m : msg) : world := World (fs w) (out w ++ [m]) (visits w).
Definition visit (w : world) (p : string) : world := World (fs w) (out w) (visits w ++ [p]).

Definition loadable (name : string) : bool :=
  bool_decide (Path.Ext name = ".js") || bool_decide (Path.Ext name = ".mjs").

(** The loop of [findJSFile]: every loadable name overwrites [foundPath]. *)
Definition pickJS (path : string) (files : list dirent) : string :=
  fold_left (fun foundPath f =>
               if loadable (d_name f) then path ++ "/" ++ d_name f else foundPath)
            files "".

Definition findJSFile (w : world) (path : string) : world * string :=
  match ReadDir (fs w) path with
  | inl e => (say w (MCantReadDir path e), pickJS path [])
  | inr files => (w, pickJS path files)
  end.

Definition fileExists (f : fsys) (path : string) : bool :=
  match stat f path with
  | inl ENOENT => false
  | _ => true
  end.

(** The walk function of [copyNpmModule]. *)
Definition copyEntry (gopackDir : string) (w : world) (c : call) : world * flow copy_error :=
  match c_err c with
  | Some e => (w, Halt (CantStat (c_path c) e))
  | None =>
      let modulePath := c_path c in
      if negb (default false (c_entry c)) && bool_decide (Path.Ext modulePath = ".mjs") then
        match stat (fs w) modulePath with
        | inl e => (w, Halt (CantOpen modulePath e))
        | inr from =>
            let outPathFile := gopackDir ++ Str.replace1 modulePath "node_modules" "" in
            match MkdirAll (fs w) (Path.Dir outPathFile) with
            | inl e => (w, Halt (CantMkdir (Path.Dir modulePath) e))
            | inr f1 =>
                match from with
                | File data =>
                    match WriteFile f1 outPathFile data with
                    | inl e => (set_fs w f1, Halt (CantCreate modulePath e))
                    | inr f2 => (set_fs w f2, Next)
                    end
                | Dir _ =>
                    match WriteFile f1 outPathFile "" with
                    | inl e => (set_fs w f1, Halt (CantCreate modulePath e))
                    | inr f2 => (set_fs w f2, Halt (CantCopy EISDIR))
                    end
                end
            end
        end
      else (w, Next)
  end.

Definition copyNpmModule (w : world) (module gopackDir : string) : world :=
  match run (copyEntry gopackDir) w (WalkDir (fs w) ("node_modules/" ++ module)) with
  | (w', Halt e) => say w' (MNodeModule e)
  | (w', Next) => w'
  end.

(** What ends the walk of [checkNpmPath] early. *)
Inductive check_stop :=
| StopEOF             (* the known error [io.EOF] *)
| StopPanic.          (* [subPathFileInfo.IsDir ()] on a nil entry *)

(** The walk function of [checkNpmPath]; the state is the world and
    [foundPath]. *)
Definition checkEntry (st : world * string) (c : call) : (world * string) * flow check_stop :=
  let w := match c_err c with
           | Some e => say st.1 (MCantWalk (c_path c) e)
           | None => st.1
           end in
  match c_entry c with
  | None => ((w, st.2), Halt StopPanic)
  | Some true =>
      let '(w', foundPath) := findJSFile w (c_path c) in
      if bool_decide (foundPath ≠ "") then ((w', foundPath), Halt StopEOF)
      else ((w', foundPath), Next)
  | Some false => ((w, st.2), Next)
  end.

(** [checkNpmPath]; [inl] is a panic. *)
Definition checkNpmPath (w : world) (buildPath pathStr : string) : world * (panic + string) :=
  let namedPath := buildPath ++ "/spa/web_modules/" ++ pathStr in
  let '(w1, foundPath) := findJSFile w namedPath in
  if bool_decide (foundPath = "") then
    match run checkEntry (w1, foundPath) (WalkDir (fs w1) namedPath) with
    | (st, Halt StopPanic) => (st.1, inl NilDeref)
    | (st, _) => (st.1, inr st.2)
    end
  else (w1, inr foundPath).

(** *** [runPack] *)

(** The state of the loop over the static statements of one module:
    the world, [contentBytes] and [alreadyConvertedFiles]. *)
Record loop := Loop {
  l_world : world;
  l_content : string;
  l_converted : list string
}.

(** A recursive call of [runPack]. *)
Definition rec_call : Type := world -> string -> string -> list string -> world * outcome.

(** Only a panic (or the end of the model's fuel) in a callee ends the
    caller: the error a callee returns is dropped. *)
Definition aborts (o : outcome) : bool :=
  match o with
  | Panic _ | OutOfFuel => true
  | Ok | Err _ => false
  end.

(** The dynamic imports: in each match the first [.svelte] becomes [.js],
    and the first occurrence of the match in the text is replaced. *)
Definition fixDynamicImports (contentBytes : string) : string :=
  fold_left (fun content dynamicImportPath =>
               let fixedImportPath := Str.replace1 dynamicImportPath ".svelte" ".js" in
               Str.replace1 content dynamicImportPath fixedImportPath)
            (FindAll reDynamicImport contentBytes) contentBytes.

Definition allStaticStatements (contentBytes : string) : list string :=
  FindAll reStaticImportGoPk contentBytes ++ FindAll reStaticExportGoPk contentBytes.

(** The quoted path of a statement, unquoted, with a [.svelte] extension
    turned into [.js]. *)
Definition pathOf (staticStatement : string) : string :=
  let pathStr := Str.trim Str.is_quote (Find rePath staticStatement) in
  if bool_decide (Path.Ext pathStr = ".svelte")
  then Str.replace1 pathStr ".svelte" ".js" else pathStr.

Definition fullPathOf (convertPath pathStr : string) : string :=
  Path.Clean (Path.Dir convertPath ++ "/" ++ pathStr).

(** The test [pathStr[:1] != "." && filepath.Ext(pathStr) == ""];
    [None] is the panic of slicing an empty string. *)
Definition isBare (pathStr : string) : option bool :=
  match pathStr with
  | "" => None
  | String c _ => Some (negb (bool_decide (c = Str.dot)) && bool_decide (Path.Ext pathStr = ""))
  end.

(** The new text of a statement whose path was found. *)
Definition rewriteStatement (buildPath staticStatement foundPath : string) : string :=
  let replacePath := "'" ++ Str.replace1 foundPath buildPath "" ++ "'" in
  ReplaceAll rePath staticStatement
    (ReplaceAll rePath (Find rePath staticStatement) replacePath).

(** First part of the loop body: the relative location, and the
    recursion into it when it exists. *)
Definition resolveLocal (rec : rec_call) (buildPath convertPath : string) (st : loop)
    (pathStr : string) : loop * string * outcome :=
  let fullPathStr := fullPathOf convertPath pathStr in
  if fileExists (fs (l_world st)) fullPathStr then
    let w1 := say (say (l_world st) (MFullpath fullPathStr)) (MConvertpath convertPath) in
    let converted := (l_converted st ++ [convertPath])%list in
    let '(w2, o) := rec w1 buildPath fullPathStr converted in
    (Loop w2 (l_content st) converted, pathStr, o)
  else (st, "", Ok).

(** Second part: the package copied to the mirror and looked up there. *)
Definition resolveBare (buildPath convertPath : string) (w : world) (pathStr : string)
    : world * (panic + string) :=
  let w1 := copyNpmModule w pathStr (buildPath ++ "/spa/web_modules") in
  match checkNpmPath w1 buildPath pathStr with
  | (w2, inl pk) => (w2, inl pk)
  | (w2, inr foundPath) =>
      match Path.Rel (Path.Dir convertPath) foundPath with
      | Some rel => (w2, inr rel)
      | None => (say w2 MRelErr, inr "")
      end
  end.

(** Third part: the statement rewritten in the text, or the warning. *)
Definition applyFound (buildPath convertPath : string) (st : loop)
    (staticStatement pathStr foundPath : string) : loop :=
  if bool_decide (foundPath ≠ "") then
    Loop (l_world st)
         (Str.replaceAll (l_content st) staticStatement
            (rewriteStatement buildPath staticStatement foundPath))
         (l_converted st)
  else Loop (say (l_world st) (MUnresolved pathStr convertPath))
            (l_content st) (l_converted st).

(** The body of the loop for one statement; [inr] ends the run. *)
Definition resolveStatement (rec : rec_call) (buildPath convertPath : string) (st : loop)
    (staticStatement : string) : loop + world * outcome :=
  let pathStr := pathOf staticStatement in
  let '(st1, foundPath, o) := resolveLocal rec buildPath convertPath st pathStr in
  if aborts o then inr (l_world st1, o)
  else
    match isBare pathStr with
    | None => inr (l_world st1, Panic SliceBounds)
    | Some true =>
        match resolveBare buildPath convertPath (l_world st1) pathStr with
        | (w2, inl pk) => inr (w2, Panic pk)
        | (w2, inr foundPath') =>
            inl (applyFound buildPath convertPath
                   (Loop w2 (l_content st1) (l_converted st1))
                   staticStatement pathStr foundPath')
        end
    | Some false =>
        inl (applyFound buildPath convertPath st1 staticStatement pathStr foundPath)
    end.

Fixpoint resolveAll (rec : rec_call) (buildPath convertPath : string) (st : loop)
    (statements : list string) : loop + world * outcome :=
  match statements with
  | [] => inl st
  | s :: rest =>
      match resolveStatement rec buildPath convertPath st s with
      | inl st' => resolveAll rec buildPath convertPath st' rest
      | inr r => inr r
      end
  end.

(** One activation of [runPack], its recursive calls made through [rec]. *)
Definition runPackF (rec : rec_call) (w : world) (buildPath convertPath : string)
    (alreadyConvertedFiles : list string) : world * outcome :=
  if bool_decide (convertPath ∈ alreadyConvertedFiles) then (w, Ok)
  else
    match ReadFile (fs w) convertPath with
    | inl e => (w, Err (ErrRead convertPath e))
    | inr contentBytes =>
        let contentBytes := fixDynamicImports contentBytes in
        match resolveAll rec buildPath convertPath
                (Loop (visit w convertPath) contentBytes alreadyConvertedFiles)
                (allStaticStatements contentBytes) with
        | inr r => r
        | inl st =>
            match WriteFile (fs (l_world st)) convertPath (l_content st) with
            | inl e => (l_world st, Err (ErrWrite convertPath e))
            | inr f => (set_fs (l_world st) f, Ok)
            end
        end
    end.

(** [runPack] with a bound on the depth of the recursion. *)
Fixpoint runPack (n : nat) (w : world) (buildPath convertPath : string)
    (alreadyConvertedFiles : list string) : world * outcome :=
  match n with
  | O => (w, OutOfFuel)
  | S n' => runPackF (runPack n') w buildPath convertPath alreadyConvertedFiles
  end.

(** [Gopack]: the result of [runPack] is dropped.  (The timing line that
    [Benchmark] prints when the function returns is left out.) *)
Definition Gopack (n : nat) (w : world) (buildPath : string) : world * outcome :=
  let w := say w (MLog "Running gopack to build esm support for npm dependencies") in
  let '(w', o) := runPack n w buildPath (buildPath ++ "/spa/ejected/main.js") [] in
  (w', if aborts o then o else Ok).

(** The callee whose returned error has been forgotten. *)
Definition drop_err (rec : rec_call) : rec_call :=
  fun w buildPath convertPath converted =>
    let '(w', o) := rec w buildPath convertPath converted in
    (w', match o with Err _ => Ok | _ => o end).

(** A callee that does nothing and returns nil. *)
Definition rec_nop : rec_call := fun w _ _ _ => (w, Ok).

(** * Notions used in the properties *)

(** The shape of a node: what it is, without the bytes of a file. *)
Definition shape (nd : node) : node :=
  match nd with
  | File _ => File ""
  | Dir o => Dir o
  end.

Definition res_shape (x : res) : res :=
  match x with
  | Found nd => Found (shape nd)
  | other => other
  end.

(** Two file systems with the same paths, directories and locks; only
    the bytes of regular files may differ. *)
Definition same_shape (f g : fsys) : Prop :=
  forall k, shape <$> (f !! k) = shape <$> (g !! k).

(** Path elements.  A proper element is a name: not empty, not [.], not
    [..], without a slash. *)
Fixpoint has_slash (s : string) : bool :=
  match s with
  | "" => false
  | String c s' => bool_decide (c = Str.slash) || has_slash s'
  end.

Definition proper (e : string) : Prop :=
  e <> "" /\ e <> "." /\ e <> ".." /\ has_slash e = false.

(** The elements of a cleaned path: some [..] (none when the path is
    rooted), then names. *)
Definition normal (r : bool) (es : list string) : Prop :=
  exists dots names,
    es = (dots ++ names)%list
    /\ Forall (fun e => e = "..") dots
    /\ Forall proper names
    /\ (r = true -> dots = []).

(** A file system without any entry whose path has the extension
    [.mjs]: the mirror builder finds nothing to copy in it. *)
Definition no_mjs (f : fsys) : Prop :=
  map_Forall (fun k _ => Path.Ext (Path.render k) <> ".mjs") f.

(** The paths of the regular files, and how many of them are not among
    the converted files. *)
Definition file_keys (f : fsys) : gset (bool * list string) :=
  dom (filter (fun kv => node_isDir kv.2 = false) f).

Definition pending (f : fsys) (converted : list string) : nat :=
  size (filter (fun k => Path.render k ∉ converted) (file_keys f)).

(** A path that is its own cleaned form. *)
Definition canonical (p : string) : Prop := Path.Clean p = p.

(** What a run on the file system [f0] promises: it comes back before
    the fuel is used up, and it only rewrites regular files.  A callee is
    good when it promises this for the cleaned paths it is called on with
    at least the converted files [base]. *)
Definition good (f0 : fsys) (r : world * outcome) : Prop :=
  r.2 <> OutOfFuel /\ same_shape f0 (fs r.1).

Definition good_rec (f0 : fsys) (rec : rec_call) (base : list string) : Prop :=
  forall w buildPath fullPathStr converted,
    same_shape f0 (fs w) -> canonical fullPathStr ->
    (forall x, x ∈ base -> x ∈ converted) ->
    good f0 (rec w buildPath fullPathStr converted).

(** The invariant of the loop over the statements of [convertPath]: the
    file system has kept its shape, and the converted files with the
    current module cover [base]. *)
Definition loop_ok (f0 : fsys) (base : list string) (convertPath : string) (st : loop)
  : Prop :=
  same_shape f0 (fs (l_world st))
  /\ (forall x, x ∈ base -> x ∈ (l_converted st ++ [convertPath])%list).

Definition step_ok (f0 : fsys) (base : list string) (convertPath : string)
    (r : loop + world * outcome) : Prop :=
  match r with
  | inl st' => loop_ok f0 base convertPath st'
  | inr wo => good f0 wo
  end.

(** Where the mirror builder writes the copy of [modulePath]. *)
Definition destOf (gopackDir modulePath : string) : string :=
  gopackDir ++ Str.replace1 modulePath "node_modules" "".

(** The calls of the walk that the mirror builder copies: entries that
    are not directories and whose path has the extension [.mjs]. *)
Definition is_source (c : call) : bool :=
  negb (default false (c_entry c)) && bool_decide (Path.Ext (c_path c) = ".mjs").

(** [f'] is [f] with some directories made. *)
Definition adds_dirs (f f' : fsys) : Prop :=
  forall k, f' !! k = f !! k
            \/ (f !! k = None /\ f' !! k = Some (Dir true) /\ k.2 <> []).

(** [f'] is [f] with some nodes put at paths that held nothing. *)
Definition extends (f f' : fsys) : Prop :=
  forall k, f' !! k = f !! k \/ (f !! k = None /\ k.2 <> []).

(** The sources among the calls of a walk, and the path under which the
    copy of a source is stored. *)
Definition sources (cs : list call) : list call :=
  filter (fun c => is_source c = true) cs.

Definition destKey (gopackDir : string) (c : call) : bool * list string :=
  Path.norm (destOf gopackDir (c_path c)).

(** No two sources are copied to the same place, and no copy is stored
    where a source is. *)
Definition separate (gopackDir : string) (cs : list call) : Prop :=
  NoDup (map (destKey gopackDir) (sources cs))
  /\ Forall (fun c =>
               Forall (fun c' => destKey gopackDir c <> Path.norm (c_path c'))
                      (sources cs))
            (sources cs).

(** A callee is quiet about the module [p] when, called with [p] among
    the converted files, it reads only modules other than [p]. *)
Definition quiet (p : string) (r : world -> world * outcome) : Prop :=
  forall w, exists vs, visits (r w).1 = (visits w ++ vs)%list /\ p ∉ vs.

Definition quiet_rec (p : string) (rec : rec_call) : Prop :=
  forall buildPath convertPath converted,
    p ∈ converted -> quiet p (fun w => rec w buildPath convertPath converted).

(** What the loop over the statements of [convertPath] keeps: [p] is
    the current module or among the converted files, and the modules read
    since the world [w0] are other than [p]. *)
Definition world_quiet (p : string) (w0 w : world) : Prop :=
  exists vs, visits w = (visits w0 ++ vs)%list /\ p ∉ vs.

Definition loop_quiet (p convertPath : string) (w0 : world) (st : loop) : Prop :=
  p ∈ (l_converted st ++ [convertPath])%list /\ world_quiet p w0 (l_world st).

(** What [findJSFile] finds in a directory, as a function of the file
    system alone. *)
Definition jsIn (f : fsys) (path : string) : string :=
  match ReadDir f path with
  | inl _ => ""
  | inr files => pickJS path files
  end.

(** The first directory among the calls of a walk, in the order of the
    walk, in which [findJSFile] finds a file; empty when there is none. *)
Fixpoint firstDirWithJS (f : fsys) (cs : list call) : string :=
  match cs with
  | [] => ""
  | c :: cs' =>
      match c_entry c with
      | Some true =>
          if bool_decide (jsIn f (c_path c) <> "") then jsIn f (c_path c)
          else firstDirWithJS f cs'
      | _ => firstDirWithJS f cs'
      end
  end.

(** ** Notions of the further properties *)

(** Nothing is removed: every path that holds a node still holds one of
    the same kind, a directory with the same lock; only the bytes of a
    regular file may differ. *)
Definition keeps (f f' : fsys) : Prop :=
  forall k nd, f !! k = Some nd -> exists nd', f' !! k = Some nd' /\ shape nd' = shape nd.

(** A callee that removes nothing. *)
Definition keeps_rec (rec : rec_call) : Prop :=
  forall w buildPath convertPath converted,
    keeps (fs w) (fs (rec w buildPath convertPath converted).1).

(** What one statement, or the loop, leaves of the file system [f]. *)
Definition keeps_step (f : fsys) (r : loop + world * outcome) : Prop :=
  match r with
  | inl st' => keeps f (fs (l_world st'))
  | inr wo => keeps f (fs wo.1)
  end.

(** A statement whose path is no package name and names nothing on disk. *)
Definition dangling (f : fsys) (convertPath s : string) : Prop :=
  fileExists f (fullPathOf convertPath (pathOf s)) = false
  /\ isBare (pathOf s) = Some false.

(** The file system [f'] has grown out of [f]: every node of [f] is still
    there with its kind and lock, and the two top directories are as they
    were; nodes may have been added below them and the bytes of regular
    files may differ. *)
Definition grows (f f' : fsys) : Prop :=
  forall k,
    match f !! k with
    | Some nd => exists nd', f' !! k = Some nd' /\ shape nd' = shape nd
    | None => k.2 = [] -> f' !! k = None
    end.

(** A callee under which the file system only grows. *)
Definition grows_rec (rec : rec_call) : Prop :=
  forall w buildPath convertPath converted,
    grows (fs w) (fs (rec w buildPath convertPath converted).1).

(** What one statement, or the loop, has made of the file system [f]. *)
Definition grows_step (f : fsys) (r : loop + world * outcome) : Prop :=
  match r with
  | inl st' => grows f (fs (l_world st'))
  | inr wo => grows f (fs wo.1)
  end.

(** A callee is [m] deep when, called on a cleaned path with at least
    the converted files [base], it uses up a recursion bound only if at
    least [m] regular files are left that are not among its converted
    files. *)
Definition deep_rec (m : nat) (rec : rec_call) (base : list string) : Prop :=
  forall w buildPath fullPathStr converted,
    canonical fullPathStr ->
    (forall x, x ∈ base -> x ∈ converted) ->
    (rec w buildPath fullPathStr converted).2 = OutOfFuel ->
    m <= pending (fs (rec w buildPath fullPathStr converted).1) converted.

(** A callee that, called on a cleaned path, reads modules under cleaned
    paths only. *)
Definition canon_rec (rec : rec_call) : Prop :=
  forall w buildPath fullPathStr converted,
    canonical fullPathStr ->
    exists vs,
      visits (rec w buildPath fullPathStr converted).1 = (visits w ++ vs)%list
      /\ Forall canonical vs.

(** The modules read since the world [w0] have cleaned paths. *)
Definition world_canon (w0 w : world) : Prop :=
  exists vs, visits w = (visits w0 ++ vs)%list /\ Forall canonical vs.

(** The build path is the package [node_modules/p] itself, so that the
    mirror lies inside the package it mirrors; the one module imports the
    package and then its own mirrored copy. *)
Definition tower_text : string := "import a from 'p';
import b from 'spa/web_modules/p/m.mjs';
".

(** The [k]-th copy of the module lies [k] mirrors deep. *)
Fixpoint tower_levels (k : nat) : list string :=
  match k with
  | O => []
  | S k' => "spa" :: "web_modules" :: "p" :: tower_levels k'
  end.

Definition tower_key (k : nat) : key :=
  (false, "node_modules" :: "p" :: (tower_levels k ++ ["m.mjs"])%list).

Definition tower_path (k : nat) : string := Path.render (tower_key k).

(** The file systems of the runs on [world_tower]: every node can be
    reached, every directory is open, and the regular files are the
    copies of the module, each named [m.mjs]. *)
Definition tower_node (k : key) (nd : node) : Prop :=
  match nd with
  | File d => d = tower_text /\ last k.2 = Some "m.mjs"
  | Dir o => o = true /\ last k.2 <> Some "m.mjs"
  end.

Definition tower (f : fsys) : Prop :=
  forall k nd, f !! k = Some nd ->
    k.1 = false /\ k.2 <> [] /\ Forall proper k.2
    /\ resolve f k = Found nd /\ tower_node k nd.

(** A call of the walk of [node_modules/p] over the file system [f0]. *)
Definition tower_call (f0 : fsys) (c : call) : Prop :=
  c_err c = None
  /\ exists below nd,
       c_path c = Path.render (false, "node_modules" :: "p" :: below)
       /\ f0 !! (false, "node_modules" :: "p" :: below) = Some nd
       /\ c_entry c = Some (node_isDir nd).

(** The byte before the position reached after reading [m], when [prev]
    was the byte before [m]. *)
Fixpoint lastb (prev : option ascii) (m : string) : option ascii :=
  match m with
  | "" => prev
  | String c m' => lastb (Some c) m'
  end.

(** The byte strings an expression stands for: [den r prev m] when the
    expression [r] matches exactly [m] at a position whose preceding byte
    is [prev]. *)
Inductive den : re -> option ascii -> string -> Prop :=
| den_Eps prev : den Eps prev ""
| den_Chr prev c : den (Chr c) prev (String c "")
| den_Any prev d : d <> Str.newline -> den AnyNoNL prev (String d "")
| den_Space prev d : is_space d = true -> den Space prev (String d "")
| den_Bol_start : den Bol None ""
| den_Bol_line : den Bol (Some Str.newline) ""
| den_Seq r1 r2 prev m1 m2 :
    den r1 prev m1 -> den r2 (lastb prev m1) m2 -> den (Seq r1 r2) prev (m1 ++ m2)
| den_Alt_l r1 r2 prev m : den r1 prev m -> den (Alt r1 r2) prev m
| den_Alt_r r1 r2 prev m : den r2 prev m -> den (Alt r1 r2) prev m
| den_Star_nil r prev : den (Star r) prev ""
| den_Star_more r prev m1 m2 :
    den r prev m1 -> den (Star r) (lastb prev m1) m2 -> den (Star r) prev (m1 ++ m2).

(** Whether [sub] occurs in [s]. *)
Fixpoint contains (sub s : string) : bool :=
  Str.hasPrefix s sub
  || match s with
     | "" => false
     | String _ s' => contains sub s'
     end.

(** Whether every byte of [s] satisfies [f]. *)
Fixpoint every (f : ascii -> bool) (s : string) : bool :=
  match s with
  | "" => true
  | String c s' => f c && every f s'
  end.

(** Bytes other than a quote, a newline, a dollar sign. *)
Definition not_quote (c : ascii) : bool := negb (Str.is_quote c).
Definition not_newline (c : ascii) : bool := negb (bool_decide (c = Str.newline)).
Definition not_dollar (c : ascii) : bool := negb (bool_decide (c = "$"%char)).

(** The greedy [.*]: the longest run of bytes other than newline first,
    then one byte less at a time. *)
Fixpoint star_any (prev : option ascii) (s : string) (k : cont)
  : option (option ascii * string) :=
  match s with
  | String d s' =>
      if not_newline d then
        match star_any (Some d) s' k with
        | Some x => Some x
        | None => k prev s
        end
      else k prev s
  | "" => k prev s
  end.

(** * Scenarios

    Concrete file systems on which the properties below are run. *)

Definition mkWorld (l : list (string * node)) : world := World (of_list l) [] [].

(** A module that imports a directory named like a script, and a path
    that leads through a regular file. *)
Definition world_unreadable : world :=
  mkWorld [("a.js", File "import x from './lib.js';
import y from './b.js';
");
           ("lib.js", Dir true);
           ("b.js", File "export default 1;");
           ("locked", Dir false)].

(** A module with a statement that the import expression matches and
    that has no quoted path. *)
Definition world_no_path : world :=
  mkWorld [("site", Dir true);
           ("site/main.js", File "import x from y;
import z from './z.js';
");
           ("site/z.js", File "export default 1;")].

(** The build output, with an entry module that imports a package. *)
Definition build_output (main : string) : list (string * node) :=
  [("public", Dir true); ("public/spa", Dir true);
   ("public/spa/ejected", Dir true);
   ("public/spa/ejected/main.js", File main)].

(** The package is absent from the dependency cache. *)
Definition world_absent_package : world :=
  mkWorld (build_output "import pad from 'left-pad';").

(** The package is in the cache with a module file, a plain script, a
    text file and a nested module file. *)
Definition left_pad_cache : list (string * node) :=
  [("node_modules", Dir true); ("node_modules/left-pad", Dir true);
   ("node_modules/left-pad/index.mjs", File "export default 2;");
   ("node_modules/left-pad/util.js", File "export const u = 1;");
   ("node_modules/left-pad/README.md", File "left-pad");
   ("node_modules/left-pad/dist", Dir true);
   ("node_modules/left-pad/dist/pad.mjs", File "export default 3;")].

Definition world_left_pad : world :=
  mkWorld (build_output "import pad from 'left-pad';" ++ left_pad_cache).

(** Two dynamic imports on one line. *)
Definition two_dynamic_imports : string :=
  "const routes = [import('./a.svelte'), import('./b.svelte')];".

Definition world_two_dynamic : world :=
  mkWorld (build_output two_dynamic_imports).

(** The module [a/index.js] imports a component whose compiled sibling
    [a/b.js] exists. *)
Definition index_js : string := "import B from './b.svelte';".

Definition world_local : world :=
  mkWorld [("a", Dir true);
           ("a/index.js", File index_js);
           ("a/b.js", File "export default 1;")].

(** The entry module imports [left-pad]; next to it lies a module file of
    that name without an extension, and the package is in the cache. *)
Definition world_local_and_package : world :=
  mkWorld (build_output "import pad from 'left-pad';"
           ++ [("public/spa/ejected/left-pad", File "export default 0;")]
           ++ left_pad_cache).

(** A diamond: [a.js] imports [b.js] and [c.js], which both import
    [d.js]. *)
Definition world_diamond : world :=
  mkWorld [("a.js", File "import b from './b.js';
import c from './c.js';
");
           ("b.js", File "import d from './d.js';");
           ("c.js", File "import d from './d.js';");
           ("d.js", File "export default 1;")].

(** A cycle: [a.js] imports [b.js], which imports [a.js]. *)
Definition world_cycle : world :=
  mkWorld [("a.js", File "import b from './b.js';");
           ("b.js", File "import a from './a.js';")].

(** The build path lies inside the dependency cache, and the one module
    imports the whole mirror as a package and its own mirrored copy. *)
Definition world_self_feeding : world :=
  mkWorld [("node_modules", Dir true); ("node_modules/spa", Dir true);
           ("node_modules/spa/web_modules", Dir true);
           ("node_modules/spa/web_modules/x", Dir true);
           ("node_modules/spa/web_modules/x/f.mjs",
            File "import a from 'spa/web_modules';
import b from '../spa/web_modules/x/f.mjs';
")].

(** A mirrored package whose only loadable file lies below [dist], and
    one with two loadable files at the top. *)
Definition world_nested_mirror : world :=
  mkWorld [("public", Dir true); ("public/spa", Dir true);
           ("public/spa/web_modules", Dir true);
           ("public/spa/web_modules/pkg", Dir true);
           ("public/spa/web_modules/pkg/README.md", File "pkg");
           ("public/spa/web_modules/pkg/dist", Dir true);
           ("public/spa/web_modules/pkg/dist/pkg.mjs", File "export default 1;");
           ("public/spa/web_modules/pkg/src", Dir true);
           ("public/spa/web_modules/pkg/src/pkg.js", File "export default 2;");
           ("public/spa/web_modules/two", Dir true);
           ("public/spa/web_modules/two/a.js", File "export default 3;");
           ("public/spa/web_modules/two/b.mjs", File "export default 4;");
           ("public/spa/web_modules/two/c.txt", File "c");
           ("public/spa/web_modules/none", Dir true);
           ("public/spa/web_modules/none/LICENSE", File "l")].

(** A package with a directory that cannot be listed between two module
    files. *)
Definition world_locked_package : world :=
  mkWorld [("public", Dir true); ("public/spa", Dir true);
           ("node_modules", Dir true); ("node_modules/pkg", Dir true);
           ("node_modules/pkg/a.mjs", File "export default 1;");
           ("node_modules/pkg/lib", Dir false);
           ("node_modules/pkg/z.mjs", File "export default 26;")].

(** A module whose only reference leads nowhere. *)
Definition world_dangling : world :=
  mkWorld [("site", Dir true);
           ("site/main.js", File "import x from './missing.js';
")].

(** A build directory without the entry module. *)
Definition world_no_entry : world := mkWorld [("public", Dir true)].

(** The module [a.js] imports [./lib.js], which is a directory and cannot
    be read, and then the component [./b.svelte], whose compiled file is
    there. *)
Definition world_read_failure : world :=
  mkWorld [("a.js", File "import x from './lib.js';
import y from './b.svelte';
");
           ("lib.js", Dir true);
           ("b.js", File "export default 1;")].

(** The module [a/index.js] with a second statement, an export that has
    the letters [from] in a name and no quoted path. *)
Definition world_local_fromage : world :=
  mkWorld [("a", Dir true);
           ("a/index.js", File "import B from './b.svelte';
export const fromage = 1;
");
           ("a/b.js", File "export default 1;")].

(** The entry module imports itself, and the build path is given with a
    leading [./]. *)
Definition world_self_import : world :=
  mkWorld (build_output "import m from './main.js';").

Definition world_tower : world :=
  mkWorld [("node_modules", Dir true); ("node_modules/p", Dir true);
           ("node_modules/p/m.mjs", File tower_text)].

(** * Properties *)

(** ** Resolution of paths and the shape of the file system *)

Global Instance same_shape_equiv : Equivalence same_shape.
Proof.
  split.
  - by intros f k.
  - intros f g H k. by rewrite H.
  - intros f g h H1 H2 k. by rewrite H1, H2.
Qed.

Lemma descend_same_shape f g r es :
  same_shape f g ->
  forall pre nd nd', shape nd = shape nd' ->
    res_shape (descend f r pre nd es) = res_shape (descend g r pre nd' es).
Proof.
  intros H. induction es as [|e es IH]; intros pre nd nd' Hnd; cbn.
  - by rewrite Hnd.
  - destruct nd as [d|[]], nd' as [d'|[]]; cbn in Hnd; try congruence; try done.
    specialize (H (r, (pre ++ [e])%list)).
    destruct (f !! (r, (pre ++ [e])%list)) as [x|],
             (g !! (r, (pre ++ [e])%list)) as [y|]; cbn in H; try congruence.
    apply IH. congruence.
Qed.

Lemma resolve_same_shape f g k :
  same_shape f g -> res_shape (resolve f k) = res_shape (resolve g k).
Proof.
  intros H. unfold resolve. apply descend_same_shape; [done|].
  unfold top. specialize (H (k.1, [])).
  destruct (f !! (k.1, [])), (g !! (k.1, [])); cbn in *; congruence.
Qed.

Lemma stat_same_shape f g p :
  same_shape f g ->
  sum_map id shape (stat f p) = sum_map id shape (stat g p).
Proof.
  intros H. unfold stat. destruct p; [done|].
  pose proof (resolve_same_shape f g (Path.norm (String a p)) H) as Hr.
  destruct (resolve f _) as [x | |], (resolve g _) as [y | |];
    cbn in *; congruence.
Qed.

Lemma fileExists_same_shape f g p :
  same_shape f g -> fileExists f p = fileExists g p.
Proof.
  intros H. unfold fileExists. pose proof (stat_same_shape f g p H) as Hs.
  destruct (stat f p) as [[]|], (stat g p) as [[]|]; cbn in Hs; congruence.
Qed.

(** Overwriting a regular file keeps the shape. *)
Lemma same_shape_overwrite f k d0 d :
  f !! k = Some (File d0) -> same_shape f (<[k := File d]> f).
Proof.
  intros Hk k'. destruct (decide (k = k')) as [<-|Hne].
  - by rewrite lookup_insert_eq, Hk.
  - by rewrite lookup_insert_ne.
Qed.

(** What a resolution found is what the map holds at the path. *)
Lemma descend_Found f r es : forall pre nd nd',
  descend f r pre nd es = Found nd' ->
  (es = [] /\ nd' = nd) \/ (es <> [] /\ f !! (r, (pre ++ es)%list) = Some nd').
Proof.
  induction es as [|e es IH]; intros pre nd nd' H; cbn in H.
  - left. split; congruence.
  - right. split; [done|].
    destruct nd as [|[]]; try discriminate.
    destruct (f !! (r, (pre ++ [e])%list)) as [x|] eqn:Hx.
    + apply IH in H as [[-> ->] | [_ H]].
      * done.
      * by rewrite <- app_assoc in H.
    + destruct es; discriminate.
Qed.

Lemma descend_NoLeaf f r es : forall pre nd,
  descend f r pre nd es = NoLeaf -> f !! (r, (pre ++ es)%list) = None.
Proof.
  induction es as [|e es IH]; intros pre nd H; cbn in H; [discriminate|].
  destruct nd as [|[]]; try discriminate.
  destruct (f !! (r, (pre ++ [e])%list)) as [x|] eqn:Hx.
  - apply IH in H. by rewrite <- app_assoc in H.
  - destruct es; [done | discriminate].
Qed.

Lemma resolve_Found f k nd :
  resolve f k = Found nd -> nd = default (Dir true) (f !! k).
Proof.
  unfold resolve. destruct k as [r es]. cbn. intros H.
  apply descend_Found in H as [[-> ->] | [_ H]]; [done|].
  cbn in H. by rewrite H.
Qed.

Lemma resolve_NoLeaf f k : resolve f k = NoLeaf -> f !! k = None.
Proof.
  unfold resolve. destruct k as [r es]. cbn. apply descend_NoLeaf.
Qed.

Lemma resolve_File_lookup f k d :
  resolve f k = Found (File d) -> f !! k = Some (File d).
Proof.
  intros H. apply resolve_Found in H.
  destruct (f !! k); cbn in H; congruence.
Qed.

(** After a node is put at the end of a path that resolved to a regular
    file or to nothing in an open directory, the path resolves to it. *)
Lemma descend_insert f r nd' es : forall pre nd,
  es <> [] ->
  (descend f r pre nd es = NoLeaf \/ exists d, descend f r pre nd es = Found (File d)) ->
  descend (<[(r, (pre ++ es)%list) := nd']> f) r pre nd es = Found nd'.
Proof.
  induction es as [|e es IH]; intros pre nd Hne H; [done|]. cbn in *.
  destruct nd as [|[]]; try (destruct H as [H|[d H]]; discriminate).
  destruct es as [|e' es].
  - rewrite lookup_insert_eq. done.
  - rewrite lookup_insert_ne.
    2:{ intros Heq. injection Heq as Heq. apply (f_equal length) in Heq.
        rewrite !length_app in Heq. cbn in Heq. lia. }
    destruct (f !! (r, (pre ++ [e])%list)) as [x|] eqn:Hx.
    + replace (pre ++ e :: e' :: es)%list with ((pre ++ [e]) ++ e' :: es)%list
        by (by rewrite <- app_assoc).
      apply IH; [done|]. exact H.
    + destruct H as [H|[d H]]; discriminate.
Qed.

Lemma resolve_insert f k nd' :
  (resolve f k = NoLeaf \/ exists d, resolve f k = Found (File d)) ->
  resolve (<[k := nd']> f) k = Found nd'.
Proof.
  destruct k as [r es]. unfold resolve. cbn. intros H.
  destruct es as [|e es].
  - cbn. unfold top. by rewrite lookup_insert_eq.
  - unfold top. rewrite lookup_insert_ne by done.
    apply (descend_insert f r nd' (e :: es) [] _); done.
Qed.

(** Writing succeeds exactly by putting the bytes at the path, and the
    path then reads back the bytes written. *)
Lemma WriteFile_inr f p d f' :
  WriteFile f p d = inr f' ->
  f' = <[Path.norm p := File d]> f
  /\ (resolve f (Path.norm p) = NoLeaf
      \/ exists d0, resolve f (Path.norm p) = Found (File d0))
  /\ ReadFile f' p = inr d.
Proof.
  unfold WriteFile, create. destruct p as [|a p]; [discriminate|].
  intros H.
  assert (Hres : resolve f (Path.norm (String a p)) = NoLeaf
                 \/ exists d0, resolve f (Path.norm (String a p)) = Found (File d0)).
  { destruct (resolve f _) as [[d0|o]| |]; try discriminate; eauto. }
  assert (f' = <[Path.norm (String a p) := File d]> f) as ->.
  { destruct (resolve f _) as [[d0|o]| |]; congruence. }
  split; [done|]. split; [done|].
  unfold ReadFile, stat. by rewrite resolve_insert.
Qed.

Lemma stat_File_lookup f p d :
  stat f p = inr (File d) -> f !! Path.norm p = Some (File d).
Proof.
  unfold stat. destruct p; [discriminate|].
  destruct (resolve f _) eqn:Hr; cbn; try discriminate.
  intros [= ->]. by apply resolve_File_lookup.
Qed.

(** Writing to a path that is a regular file succeeds, keeps the shape
    of the file system, and the file then holds the bytes written. *)
Lemma WriteFile_existing f p d0 d :
  stat f p = inr (File d0) ->
  WriteFile f p d = inr (<[Path.norm p := File d]> f)
  /\ same_shape f (<[Path.norm p := File d]> f)
  /\ ReadFile (<[Path.norm p := File d]> f) p = inr d.
Proof.
  intros Hstat.
  pose proof (stat_File_lookup _ _ _ Hstat) as Hk.
  assert (Hw : WriteFile f p d = inr (<[Path.norm p := File d]> f)).
  { unfold WriteFile, create. unfold stat in Hstat.
    destruct p; [discriminate|].
    destruct (resolve f _) as [[]| |]; cbn in Hstat; congruence. }
  split; [done|]. split; [by eapply same_shape_overwrite|].
  by apply WriteFile_inr in Hw as (_ & _ & ?).
Qed.

(** ** The guard and the read of [runPack] *)

Lemma runPackF_guard rec w buildPath convertPath converted :
  convertPath ∈ converted ->
  runPackF rec w buildPath convertPath converted = (w, Ok).
Proof.
  intros Hin. unfold runPackF. by rewrite bool_decide_eq_true_2.
Qed.

Lemma runPackF_unreadable rec w buildPath convertPath converted e :
  convertPath ∉ converted ->
  ReadFile (fs w) convertPath = inl e ->
  runPackF rec w buildPath convertPath converted = (w, Err (ErrRead convertPath e)).
Proof.
  intros Hnin Hread. unfold runPackF.
  rewrite bool_decide_eq_false_2 by done. by rewrite Hread.
Qed.

Lemma aborts_drop_err o :
  aborts (match o with Err _ => Ok | _ => o end) = aborts o.
Proof. by destruct o. Qed.

Lemma resolveStatement_drop_err rec buildPath convertPath st s :
  resolveStatement (drop_err rec) buildPath convertPath st s
  = resolveStatement rec buildPath convertPath st s.
Proof.
  unfold resolveStatement, resolveLocal, drop_err.
  destruct (fileExists _ _); [|done].
  destruct (rec _ _ _ _) as [w2 o]. cbn.
  rewrite aborts_drop_err.
  destruct o; cbn; done.
Qed.

Lemma resolveAll_drop_err rec buildPath convertPath ss : forall st,
  resolveAll (drop_err rec) buildPath convertPath st ss
  = resolveAll rec buildPath convertPath st ss.
Proof.
  induction ss as [|s ss IH]; intros st; cbn; [done|].
  rewrite resolveStatement_drop_err.
  destruct (resolveStatement rec _ _ _ _); [apply IH | done].
Qed.

Lemma runPackF_drop_err rec w buildPath convertPath converted :
  runPackF (drop_err rec) w buildPath convertPath converted
  = runPackF rec w buildPath convertPath converted.
Proof.
  unfold runPackF. destruct (bool_decide _); [done|].
  destruct (ReadFile _ _); [done|]. by rewrite resolveAll_drop_err.
Qed.

(** ** C5: a module that cannot be read *)

(** C5.  The error for a module that cannot be read is made from the
    path and the cause and returned, and both callers drop it: nothing is
    printed for it.  First, the entry module is missing: [runPack] returns
    the error and changes nothing, and all [Gopack] prints is its opening
    line.  Second, [a.js] imports the unreadable [lib.js] and then
    [./b.svelte]: the run on [lib.js] returns the error and changes
    nothing, the lines printed by the whole run are the four that
    announce the two recursive calls, and the run goes on to read [b.js],
    to rewrite the second import and to write [a.js]. *)
Theorem read_failure_is_not_printed :
  (ReadFile (fs world_no_entry) "public/spa/ejected/main.js" = inl ENOENT
   /\ (forall n w,
         fs w = fs world_no_entry ->
         runPack (S n) w "public" "public/spa/ejected/main.js" []
         = (w, Err (ErrRead "public/spa/ejected/main.js" ENOENT)))
   /\ (forall n,
         (Gopack (S n) world_no_entry "public").2 = Ok
         /\ out (Gopack (S n) world_no_entry "public").1
            = [MLog "Running gopack to build esm support for npm dependencies"]
         /\ fs (Gopack (S n) world_no_entry "public").1 = fs world_no_entry))
  /\ (ReadFile (fs world_read_failure) "lib.js" = inl EISDIR
      /\ fileExists (fs world_read_failure) "lib.js" = true
      /\ (forall n w converted,
            fs w = fs world_read_failure -> "lib.js" ∉ converted ->
            runPack (S n) w "public" "lib.js" converted
            = (w, Err (ErrRead "lib.js" EISDIR)))
      /\ (runPack 3 world_read_failure "public" "a.js" []).2 = Ok
      /\ out (runPack 3 world_read_failure "public" "a.js" []).1
         = [MFullpath "lib.js"; MConvertpath "a.js"; MFullpath "b.js"; MConvertpath "a.js"]
      /\ visits (runPack 3 world_read_failure "public" "a.js" []).1 = ["a.js"; "b.js"]
      /\ ReadFile (fs (runPack 3 world_read_failure "public" "a.js" []).1) "a.js"
         = inr "import x from './lib.js';
import y from './b.js';
").
Proof.
  assert (Hentry : forall n w,
             fs w = fs world_no_entry ->
             runPack (S n) w "public" "public/spa/ejected/main.js" []
             = (w, Err (ErrRead "public/spa/ejected/main.js" ENOENT))).
  { intros n w Hfs. cbn [runPack]. apply runPackF_unreadable; [apply not_elem_of_nil|].
    rewrite Hfs. vm_compute. reflexivity. }
  split; [split; [vm_compute; reflexivity|split; [exact Hentry|]]|].
  - intros n. unfold Gopack.
    change ("public" ++ "/spa/ejected/main.js") with "public/spa/ejected/main.js".
    by rewrite Hentry.
  - split; [vm_compute; reflexivity|]. split; [vm_compute; reflexivity|]. split.
    { intros n w converted Hfs Hnin. cbn [runPack]. apply runPackF_unreadable; [done|].
      rewrite Hfs. vm_compute. reflexivity. }
    vm_compute. repeat split; reflexivity.
Qed.

(** ** C10: what counts as an existing path *)

Lemma fileExists_true_iff f p :
  fileExists f p = true <-> stat f p ≠ inl ENOENT.
Proof.
  unfold fileExists. destruct (stat f p) as [[]|]; split; congruence.
Qed.

(** C10.  [fileExists] is true exactly when [os.Stat] does not report
    that the path does not exist: it is true for a directory and for a
    path whose stat fails for another reason.  So a static reference
    whose relative location is a directory is taken as a found local
    path: the current module is appended to the converted files,
    [runPack] is called on the directory, where reading it fails, and the
    found path is the path of the statement. *)
Theorem fileExists_unless_not_exist
    (n : nat) (buildPath convertPath pathStr : string) (st : loop) :
  let f := fs (l_world st) in
  let fullPathStr := fullPathOf convertPath pathStr in
  let converted := (l_converted st ++ [convertPath])%list in
  let w1 := say (say (l_world st) (MFullpath fullPathStr)) (MConvertpath convertPath) in
  (forall p, fileExists f p = true <-> stat f p ≠ inl ENOENT)
  /\ (forall p o, stat f p = inr (Dir o) -> fileExists f p = true)
  /\ (forall p e, stat f p = inl e -> e ≠ ENOENT -> fileExists f p = true)
  /\ (forall o, stat f fullPathStr = inr (Dir o) ->
        fullPathStr ∉ converted ->
        runPack (S n) w1 buildPath fullPathStr converted
        = (w1, Err (ErrRead fullPathStr EISDIR))
        /\ resolveLocal (runPack (S n)) buildPath convertPath st pathStr
           = (Loop w1 (l_content st) converted, pathStr,
              Err (ErrRead fullPathStr EISDIR))).
Proof.
  intros f fullPathStr converted w1.
  split; [intros p; apply fileExists_true_iff|].
  split; [intros p o H; apply fileExists_true_iff; congruence|].
  split; [intros p e H He; apply fileExists_true_iff; congruence|].
  intros o Hstat Hnin.
  assert (Hrun : runPack (S n) w1 buildPath fullPathStr converted
                 = (w1, Err (ErrRead fullPathStr EISDIR))).
  { cbn [runPack]. apply runPackF_unreadable; [done|].
    unfold ReadFile. cbn. fold f. by rewrite Hstat. }
  split; [exact Hrun|].
  unfold resolveLocal. fold f fullPathStr.
  assert (fileExists f fullPathStr = true) as ->
      by (apply fileExists_true_iff; congruence).
  fold w1 converted. by rewrite Hrun.
Qed.

Lemma fileExists_unless_not_exist_witness :
  fileExists (fs world_unreadable) "lib.js" = true
  /\ fileExists (fs world_unreadable) "b.js/inner.js" = true
  /\ fileExists (fs world_unreadable) "locked/x.js" = true
  /\ fileExists (fs world_unreadable) "missing.js" = false
  /\ resolveLocal (runPack 2) "public" "a.js"
       (Loop world_unreadable "" []) "./lib.js"
     = (Loop (say (say world_unreadable (MFullpath "lib.js")) (MConvertpath "a.js"))
             "" ["a.js"],
        "./lib.js", Err (ErrRead "lib.js" EISDIR)).
Proof.
  pose proof (fileExists_unless_not_exist 1 "public" "a.js" "./lib.js"
                (Loop world_unreadable "" [])) as (_ & Hdir & Herr & Hloc).
  split; [apply (Hdir "lib.js" true); vm_compute; reflexivity|].
  split; [apply (Herr "b.js/inner.js" ENOTDIR); [vm_compute; reflexivity | discriminate]|].
  split; [apply (Herr "locked/x.js" EACCES); [vm_compute; reflexivity | discriminate]|].
  split; [vm_compute; reflexivity|].
  destruct (Hloc true) as [_ H].
  - vm_compute. reflexivity.
  - vm_compute. intros H. inversion H as [|? ? ? H']. inversion H'.
  - exact H.
Defined.

(** ** C2: a statement without a quoted path *)

(** When the path expression finds nothing in a statement, the path is
    the empty string and slicing its first byte panics, unless the callee
    has already ended the run. *)
Lemma resolveStatement_empty_path rec buildPath convertPath st s :
  Find rePath s = "" ->
  exists w o, resolveStatement rec buildPath convertPath st s = inr (w, o)
              /\ (o = Panic SliceBounds \/ aborts o = true).
Proof.
  intros Hfind. unfold resolveStatement, pathOf. rewrite Hfind. cbn.
  destruct (resolveLocal _ _ _ _ _) as [[st1 found] o].
  destruct (aborts o) eqn:Ha; eauto.
Qed.

(** C2.  The entry module [site/main.js] starts with the statement
    [import x from y;], which the import expression matches and which has
    no quoted path.  The run ends in the panic of slicing the empty path:
    the second statement is never looked at and the module is not
    written. *)
Theorem statement_without_path_panics :
  FindAll reStaticImportGoPk "import x from y;
import z from './z.js';
" = ["import x from y;"; "import z from './z.js';"]
  /\ Find rePath "import x from y;" = ""
  /\ (runPack 3 world_no_path "site" "site/main.js" []).2 = Panic SliceBounds
  /\ visits (runPack 3 world_no_path "site" "site/main.js" []).1 = ["site/main.js"]
  /\ listing (fs (runPack 3 world_no_path "site" "site/main.js" []).1)
     = listing (fs world_no_path).
Proof. vm_compute. repeat split; reflexivity. Qed.

(** ** C6 and C7: a package with no mirrored directory *)

Lemma findJSFile_fs w path : fs (findJSFile w path).1 = fs w.
Proof. unfold findJSFile. by destruct (ReadDir _ _). Qed.

(** [checkNpmPath] panics whenever the mirrored directory of the package
    cannot be stat-ed: the walk reports the root with a nil entry, and the
    walk function calls [IsDir] on it. *)
Lemma checkNpmPath_missing_directory w buildPath pathStr e :
  stat (fs w) (buildPath ++ "/spa/web_modules/" ++ pathStr) = inl e ->
  (checkNpmPath w buildPath pathStr).2 = inl NilDeref.
Proof.
  intros Hstat. unfold checkNpmPath.
  set (namedPath := buildPath ++ "/spa/web_modules/" ++ pathStr) in *.
  unfold findJSFile at 1. unfold ReadDir. rewrite Hstat.
  change (pickJS namedPath []) with "". cbv beta iota.
  rewrite bool_decide_eq_true_2 by done.
  unfold WalkDir. cbn [fs say]. rewrite Hstat.
  cbn [run checkEntry c_err c_entry c_path fst snd]. reflexivity.
Qed.

(** C6.  The entry module imports [left-pad], which is not in the
    dependency cache, so nothing is mirrored and the reference resolves
    neither way.  The run ends in a panic: the warning that names the path
    and the module is not printed, and no output file is written. *)
Theorem unresolved_package_panics :
  (Gopack 3 world_absent_package "public").2 = Panic NilDeref
  /\ out (Gopack 3 world_absent_package "public").1
     = [MLog "Running gopack to build esm support for npm dependencies";
        MNodeModule (CantStat "node_modules/left-pad" ENOENT);
        MCantReadDir "public/spa/web_modules/left-pad" ENOENT;
        MCantWalk "public/spa/web_modules/left-pad" ENOENT]
  /\ (MUnresolved "left-pad" "public/spa/ejected/main.js"
        ∉ out (Gopack 3 world_absent_package "public").1)
  /\ listing (fs (Gopack 3 world_absent_package "public").1)
     = listing (fs world_absent_package).
Proof.
  split; [vm_compute; reflexivity|].
  split; [vm_compute; reflexivity|].
  split; [|vm_compute; reflexivity].
  apply (bool_decide_unpack _). vm_compute. exact I.
Qed.

(** C7.  For a package with no loadable file anywhere, because it has no
    mirrored directory at all, [checkNpmPath] does not return the empty
    path: it panics. *)
Theorem checkNpmPath_absent_package_panics :
  stat (fs world_absent_package) "public/spa/web_modules/left-pad" = inl ENOENT
  /\ (findJSFile world_absent_package "public/spa/web_modules/left-pad").2 = ""
  /\ (checkNpmPath world_absent_package "public" "left-pad").2 = inl NilDeref.
Proof. vm_compute. repeat split; reflexivity. Qed.

(** ** A package that is neither in the cache nor in the mirror *)

(** Nothing is copied for a package whose cache directory cannot be
    stat-ed. *)
Lemma copyNpmModule_absent w module gopackDir e :
  stat (fs w) ("node_modules/" ++ module) = inl e ->
  fs (copyNpmModule w module gopackDir) = fs w.
Proof.
  intros Hstat. unfold copyNpmModule, WalkDir. rewrite Hstat.
  cbn [run copyEntry c_err]. reflexivity.
Qed.

(** For every statement with a bare path whose package is neither in the
    cache nor in the mirror, the run ends in the nil dereference, unless
    the callee has ended it before. *)
Lemma absent_package_statement_panics rec buildPath convertPath st s e1 e2 :
  let local := resolveLocal rec buildPath convertPath st (pathOf s) in
  isBare (pathOf s) = Some true ->
  aborts local.2 = false ->
  stat (fs (l_world local.1.1)) ("node_modules/" ++ pathOf s) = inl e1 ->
  stat (fs (l_world local.1.1)) (buildPath ++ "/spa/web_modules/" ++ pathOf s) = inl e2 ->
  exists w, resolveStatement rec buildPath convertPath st s = inr (w, Panic NilDeref).
Proof.
  intros local Hbare Hab Hcache Hmirror. unfold resolveStatement.
  fold local. destruct local as [[st1 found] o]. cbn [fst snd] in *.
  rewrite Hab, Hbare. unfold resolveBare.
  pose proof (copyNpmModule_absent (l_world st1) (pathOf s)
                (buildPath ++ "/spa/web_modules") e1 Hcache) as Hfs.
  pose proof (checkNpmPath_missing_directory
                (copyNpmModule (l_world st1) (pathOf s) (buildPath ++ "/spa/web_modules"))
                buildPath (pathOf s) e2) as Hp.
  rewrite Hfs in Hp. specialize (Hp Hmirror).
  destruct (checkNpmPath _ _ _) as [w2 [pk|fp]]; cbn [snd] in Hp; [|discriminate].
  injection Hp as ->. by exists w2.
Qed.

(** ** C9: dynamic imports *)

(** C9.  With two dynamic imports on one line the expression matches
    once, from the first [import(] to the last closing parenthesis, and
    only the first [.svelte] of the match is replaced: the second dynamic
    import keeps the foreign extension in the text that is written. *)
Theorem second_dynamic_import_not_rewritten :
  FindAll reDynamicImport two_dynamic_imports
  = ["import('./a.svelte'), import('./b.svelte')"]
  /\ fixDynamicImports two_dynamic_imports
     = "const routes = [import('./a.js'), import('./b.svelte')];"
  /\ (Gopack 3 world_two_dynamic "public").2 = Ok
  /\ at_path (fs (Gopack 3 world_two_dynamic "public").1) "public/spa/ejected/main.js"
     = Some (File "const routes = [import('./a.js'), import('./b.svelte')];").
Proof. vm_compute. repeat split; reflexivity. Qed.

(** ** C3: when the mirror is consulted *)

(** The reference [left-pad] of the entry module exists on disk as a
    local module and is resolved as such: the module is read.  It is all
    the same treated as a bare package: the mirror is built and the
    statement is rewritten to the mirrored file. *)
Lemma existing_reference_also_resolved_as_package :
  let main := "public/spa/ejected/main.js" in
  let r := Gopack 4 world_local_and_package "public" in
  pathOf "import pad from 'left-pad';" = "left-pad"
  /\ fileExists (fs world_local_and_package) (fullPathOf main "left-pad") = true
  /\ visits r.1 = [main; "public/spa/ejected/left-pad"]
  /\ at_path (fs world_local_and_package) "public/spa/web_modules/left-pad/index.mjs" = None
  /\ at_path (fs r.1) "public/spa/web_modules/left-pad/index.mjs"
     = Some (File "export default 2;")
  /\ at_path (fs r.1) main
     = Some (File "import pad from '../web_modules/left-pad/index.mjs';")
  /\ r.2 = Ok.
Proof. vm_compute. repeat split; reflexivity. Qed.

Lemma isBare_true_iff pathStr :
  isBare pathStr = Some true
  <-> exists c rest, pathStr = String c rest /\ c <> Str.dot /\ Path.Ext pathStr = "".
Proof.
  unfold isBare. destruct pathStr as [|c rest].
  - split; [discriminate | intros (? & ? & ? & _); discriminate].
  - split.
    + intros [= H]. apply andb_true_iff in H as [H1 H2].
      apply negb_true_iff, bool_decide_eq_false in H1.
      apply bool_decide_eq_true in H2. eauto.
    + intros (c' & rest' & [= <- <-] & Hc & He).
      rewrite (bool_decide_eq_false_2 _ Hc), (bool_decide_eq_true_2 _ He). done.
Qed.

(** C3, amended.  Whether the mirror is consulted for a statement depends
    on the path string alone.  When the path does not start with a dot
    and has no extension, the package is copied and looked up in the world
    the local step left behind, whether or not the relative location
    existed, and the found path is the one the lookup gives.  For any
    other path the statement is settled with the local result and the
    file system stays as the local step left it. *)
Theorem bare_resolution_depends_on_path_only
    (rec : rec_call) (buildPath convertPath staticStatement : string) (st : loop) :
  let pathStr := pathOf staticStatement in
  let local := resolveLocal rec buildPath convertPath st pathStr in
  let st1 := local.1.1 in
  aborts local.2 = false ->
  (isBare pathStr = Some true ->
   forall existed : bool,
     fileExists (fs (l_world st)) (fullPathOf convertPath pathStr) = existed ->
     resolveStatement rec buildPath convertPath st staticStatement
     = match resolveBare buildPath convertPath (l_world st1) pathStr with
       | (w2, inl pk) => inr (w2, Panic pk)
       | (w2, inr foundPath) =>
           inl (applyFound buildPath convertPath
                  (Loop w2 (l_content st1) (l_converted st1))
                  staticStatement pathStr foundPath)
       end)
  /\ (isBare pathStr = Some false ->
      exists st2,
        resolveStatement rec buildPath convertPath st staticStatement = inl st2
        /\ st2 = applyFound buildPath convertPath st1 staticStatement pathStr local.1.2
        /\ fs (l_world st2) = fs (l_world st1)).
Proof.
  intros pathStr local st1 Hab. unfold resolveStatement.
  fold pathStr. fold local. subst st1.
  destruct local as [[st1 found] o]. cbn in *. rewrite Hab.
  split.
  - intros -> existed _. reflexivity.
  - intros ->. eexists. split; [reflexivity|]. split; [reflexivity|].
    unfold applyFound. by destruct (bool_decide _).
Qed.

Lemma bare_resolution_witness :
  let st := Loop world_local_and_package "import pad from 'left-pad';" [] in
  let main := "public/spa/ejected/main.js" in
  let st1 := (resolveLocal (runPack 2) "public" main st "left-pad").1.1 in
  fileExists (fs world_local_and_package) (fullPathOf main "left-pad") = true
  /\ resolveStatement (runPack 2) "public" main st "import pad from 'left-pad';"
     = match resolveBare "public" main (l_world st1) "left-pad" with
       | (w2, inl pk) => inr (w2, Panic pk)
       | (w2, inr foundPath) =>
           inl (applyFound "public" main
                  (Loop w2 (l_content st1) (l_converted st1))
                  "import pad from 'left-pad';" "left-pad" foundPath)
       end.
Proof.
  intros st main st1.
  assert (He : fileExists (fs world_local_and_package) (fullPathOf main "left-pad") = true)
    by (vm_compute; reflexivity).
  split; [exact He|].
  pose proof (bare_resolution_depends_on_path_only (runPack 2) "public" main
                "import pad from 'left-pad';" st) as H.
  assert (Hp : pathOf "import pad from 'left-pad';" = "left-pad")
    by (vm_compute; reflexivity).
  cbv zeta in H. rewrite Hp in H.
  destruct H as [H _]; [vm_compute; reflexivity|].
  exact (H eq_refl true He).
Defined.

(** ** Cleaned paths *)

Section path_facts.
Import Str Path.

Lemma split_cons c s :
  split slash (String c s)
  = if bool_decide (c = slash) then "" :: split slash s
    else match split slash s with
         | w :: ws => String c w :: ws
         | [] => [String c ""]
         end.
Proof. reflexivity. Qed.

Lemma has_slash_cons c s :
  has_slash (String c s) = bool_decide (c = slash) || has_slash s.
Proof. reflexivity. Qed.

Lemma split_nonempty s : split slash s <> [].
Proof.
  destruct s as [|c s]; [done|]. rewrite split_cons.
  destruct (bool_decide _); [done|]. by destruct (split slash s).
Qed.

Lemma split_app_slash a b :
  split slash (a ++ String slash b) = (split slash a ++ split slash b)%list.
Proof.
  induction a as [|c a IH].
  - change ("" ++ String slash b) with (String slash b).
    rewrite split_cons. by rewrite bool_decide_eq_true_2.
  - change (String c a ++ String slash b) with (String c (a ++ String slash b)).
    rewrite !split_cons, IH. destruct (bool_decide (c = slash)); [done|].
    pose proof (split_nonempty a). by destruct (split slash a).
Qed.

Lemma split_no_slash s : has_slash s = false -> split slash s = [s].
Proof.
  induction s as [|c s IH]; [done|]. rewrite has_slash_cons, split_cons.
  intros [Hc Hs]%orb_false_iff. rewrite Hc, (IH Hs). done.
Qed.

Lemma split_elements_no_slash s :
  Forall (fun e => has_slash e = false) (split slash s).
Proof.
  induction s as [|c s IH]; [by repeat constructor|]. rewrite split_cons.
  destruct (bool_decide (c = slash)) eqn:Hc; [by constructor|].
  destruct (split slash s) as [|w ws].
  - constructor; [|constructor]. by rewrite has_slash_cons, Hc.
  - inversion IH; subst. constructor; [|done]. rewrite has_slash_cons. by rewrite Hc.
Qed.

Lemma has_slash_split s :
  has_slash s = true -> exists w1 w2 ws, split slash s = w1 :: w2 :: ws.
Proof.
  induction s as [|c s IH]; [done|]. rewrite has_slash_cons, split_cons.
  destruct (bool_decide (c = slash)) eqn:Hc.
  - intros _. pose proof (split_nonempty s).
    destruct (split slash s) as [|w ws]; [done|]. eauto.
  - intros Hs. destruct (IH Hs) as (w1 & w2 & ws & ->). eauto.
Qed.

Lemma str_app_assoc (a b c : string) : (a ++ b) ++ c = a ++ (b ++ c).
Proof.
  induction a as [|x a IH]; [done|].
  change (String x ((a ++ b) ++ c) = String x (a ++ (b ++ c))). by f_equal.
Qed.

Lemma join_cons x y l : join "/" (x :: y :: l) = x ++ String slash (join "/" (y :: l)).
Proof. reflexivity. Qed.

Lemma split_join l :
  l <> [] -> Forall (fun e => has_slash e = false) l ->
  split slash (join "/" l) = l.
Proof.
  induction l as [|x l IH]; [done|]. intros _ Hall.
  inversion Hall as [|? ? Hx Hl]; subst.
  destruct l as [|y l]; [by apply split_no_slash|].
  rewrite join_cons, split_app_slash, (split_no_slash x Hx), IH; done.
Qed.

Lemma join_snoc l x :
  l <> [] -> join "/" (l ++ [x]) = join "/" l ++ String slash x.
Proof.
  induction l as [|y l IH]; [done|]. intros _.
  destruct l as [|z l]; [done|].
  change ((y :: z :: l) ++ [x])%list with (y :: (z :: l) ++ [x])%list.
  change ((z :: l) ++ [x])%list with (z :: (l ++ [x]))%list at 1.
  rewrite join_cons.
  change (z :: l ++ [x])%list with ((z :: l) ++ [x])%list.
  rewrite IH by done. rewrite join_cons.
  by rewrite str_app_assoc.
Qed.

(** *** Cleaning is idempotent *)

Lemma proper_step r acc e : proper e -> clean_step r acc e = e :: acc.
Proof.
  intros (H1 & H2 & H3 & _). unfold clean_step.
  by rewrite !bool_decide_eq_false_2.
Qed.

Lemma fold_proper r names : forall acc,
  Forall proper names ->
  fold_left (clean_step r) names acc = (rev names ++ acc)%list.
Proof.
  induction names as [|e names IH]; intros acc Hall; [done|].
  inversion Hall; subst. cbn [fold_left rev].
  rewrite proper_step, IH by done. by rewrite <- app_assoc.
Qed.

Lemma fold_dots dots : forall acc,
  Forall (fun e => e = "..") dots -> Forall (fun e => e = "..") acc ->
  fold_left (clean_step false) dots acc = (rev dots ++ acc)%list.
Proof.
  induction dots as [|e dots IH]; intros acc Hd Ha; [done|].
  inversion Hd; subst. cbn [fold_left rev].
  assert (clean_step false acc ".." = ".." :: acc) as ->.
  { unfold clean_step. cbn. destruct acc as [|top rest]; [done|].
    inversion Ha; subst. done. }
  rewrite IH; [by rewrite <- app_assoc | done | by constructor].
Qed.

Lemma fold_normal r es :
  normal r es -> fold_left (clean_step r) es [] = rev es.
Proof.
  intros (dots & names & -> & Hd & Hn & Hr).
  rewrite fold_left_app.
  destruct r.
  - rewrite (Hr eq_refl). cbn. rewrite fold_proper by done.
    by rewrite app_nil_r.
  - rewrite (fold_dots dots []); [|done|constructor].
    rewrite fold_proper by done. by rewrite rev_app_distr, app_nil_r.
Qed.

Lemma list_snoc_case {A} (l : list A) : l = [] \/ exists l' x, l = (l' ++ [x])%list.
Proof. destruct l as [|x l _] using rev_ind; eauto. Qed.

Lemma clean_step_normal r acc e :
  has_slash e = false -> normal r (rev acc) -> normal r (rev (clean_step r acc e)).
Proof.
  intros He (dots & names & Hacc & Hd & Hn & Hr). unfold clean_step.
  destruct (bool_decide (e = "") || bool_decide (e = ".")) eqn:H1.
  { by exists dots, names. }
  apply orb_false_iff in H1 as [H1 H2].
  apply bool_decide_eq_false in H1, H2.
  destruct (bool_decide (e = "..")) eqn:H3.
  - apply bool_decide_eq_true in H3. subst e.
    destruct acc as [|top rest].
    + destruct r; [by exists dots, names|].
      exists [".."], []. repeat split; try done; by repeat constructor.
    + destruct (bool_decide (top = "..")) eqn:H4.
      * apply bool_decide_eq_true in H4. subst top.
        cbn [rev] in Hacc.
        destruct (list_snoc_case names) as [->|(ns & n & ->)].
        -- rewrite app_nil_r in Hacc. exists (dots ++ [".."])%list, [].
           repeat split.
           ++ cbn [rev]. by rewrite Hacc, app_nil_r.
           ++ apply Forall_app. split; [done | by repeat constructor].
           ++ constructor.
           ++ intros ->. specialize (Hr eq_refl). rewrite Hr in Hacc.
              by destruct (rev rest).
        -- rewrite app_assoc in Hacc. apply app_inj_tail in Hacc as [_ <-].
           apply Forall_app in Hn as [_ Hn]. inversion Hn as [|? ? Hp _]; subst.
           by destruct Hp as (_ & _ & ? & _).
      * apply bool_decide_eq_false in H4. cbn [rev] in Hacc.
        destruct (list_snoc_case names) as [->|(ns & n & ->)].
        -- rewrite app_nil_r in Hacc. rewrite <- Hacc in Hd.
           apply Forall_app in Hd as [_ Hd]. inversion Hd; subst. done.
        -- rewrite app_assoc in Hacc. apply app_inj_tail in Hacc as [Hacc <-].
           apply Forall_app in Hn as [Hn _].
           exists dots, ns. done.
  - apply bool_decide_eq_false in H3.
    exists dots, (names ++ [e])%list. repeat split.
    + cbn [rev]. by rewrite Hacc, app_assoc.
    + done.
    + apply Forall_app. split; [done|]. by repeat constructor.
    + done.
Qed.

Lemma fold_clean_normal r es : forall acc,
  Forall (fun e => has_slash e = false) es ->
  normal r (rev acc) -> normal r (rev (fold_left (clean_step r) es acc)).
Proof.
  induction es as [|e es IH]; intros acc Hall Hacc; [done|].
  inversion Hall; subst. cbn [fold_left].
  apply IH; [done|]. by apply clean_step_normal.
Qed.

Lemma norm_normal p : normal (norm p).1 (norm p).2.
Proof.
  unfold norm. cbn [fst snd].
  apply (fold_clean_normal _ _ []); [apply split_elements_no_slash|].
  exists [], []. repeat split; constructor.
Qed.

Lemma normal_no_slash r es : normal r es -> Forall (fun e => has_slash e = false) es.
Proof.
  intros (dots & names & -> & Hd & Hn & _). apply Forall_app. split.
  - eapply Forall_impl; [exact Hd|]. by intros ? ->.
  - eapply Forall_impl; [exact Hn|]. by intros ? (_ & _ & _ & ?).
Qed.

Lemma normal_head_not_rooted e es :
  normal false (e :: es) -> isRooted (join "/" (e :: es)) = false.
Proof.
  intros H.
  assert (He : e <> "" /\ has_slash e = false).
  { pose proof (normal_no_slash _ _ H) as Hs. inversion Hs; subst.
    split; [|done].
    destruct H as (dots & names & Heq & Hd & Hn & _).
    destruct dots as [|d dots]; cbn in Heq.
    - subst names. inversion Hn as [|? ? Hp _]; subst. by destruct Hp.
    - injection Heq as -> _. inversion Hd; subst. done. }
  destruct He as [He1 He2]. destruct e as [|c e]; [done|].
  rewrite has_slash_cons in He2. apply orb_false_iff in He2 as [Hc _].
  destruct es as [|y es]; [exact Hc|].
  rewrite join_cons. exact Hc.
Qed.

Lemma norm_render r es : normal r es -> norm (render (r, es)) = (r, es).
Proof.
  intros H. unfold render. cbn [fst snd].
  destruct es as [|e es]; [by destruct r|].
  pose proof (normal_no_slash _ _ H) as Hs.
  destruct r.
  - unfold norm.
    assert (isRooted ("/" ++ join "/" (e :: es)) = true) as -> by done.
    change ("/" ++ join "/" (e :: es)) with ("" ++ String slash (join "/" (e :: es))).
    rewrite split_app_slash, split_join by done.
    rewrite fold_left_app.
    change (fold_left (clean_step true) (split slash "") []) with (@nil string).
    by rewrite fold_normal, rev_involutive.
  - unfold norm. rewrite normal_head_not_rooted by done.
    rewrite split_join by done.
    by rewrite fold_normal, rev_involutive.
Qed.

Lemma norm_Clean p : norm (Clean p) = norm p.
Proof.
  unfold Clean. pose proof (norm_normal p) as H.
  destruct (norm p) as [r es]. by apply norm_render.
Qed.

Lemma Clean_idemp p : Clean (Clean p) = Clean p.
Proof. unfold Clean at 1. by rewrite norm_Clean. Qed.

(** *** The extension of a cleaned path *)

Lemma ext_scan_cons c p :
  ext_scan_of (String c p)
  = match ext_scan_of p with
    | ExtFound e => ExtFound e
    | ExtSlash => ExtSlash
    | ExtNone =>
        if bool_decide (c = dot) then ExtFound (String c p)
        else if bool_decide (c = slash) then ExtSlash
        else ExtNone
    end.
Proof. reflexivity. Qed.

Lemma ext_scan_app_slash a x :
  ext_scan_of (a ++ String slash x)
  = match ext_scan_of x with
    | ExtFound e => ExtFound e
    | _ => ExtSlash
    end.
Proof.
  induction a as [|c a IH].
  - change ("" ++ String slash x) with (String slash x).
    rewrite ext_scan_cons. by destruct (ext_scan_of x).
  - change (String c a ++ String slash x) with (String c (a ++ String slash x)).
    rewrite ext_scan_cons, IH. by destruct (ext_scan_of x).
Qed.

Lemma Ext_app_slash a x : Ext (a ++ String slash x) = Ext x.
Proof.
  unfold Ext. rewrite ext_scan_app_slash. by destruct (ext_scan_of x).
Qed.

Lemma has_slash_ext_scan p : has_slash p = true -> ext_scan_of p <> ExtNone.
Proof.
  induction p as [|c p IH]; [done|]. rewrite has_slash_cons, ext_scan_cons.
  destruct (bool_decide (c = slash)) eqn:Hc; cbn [orb].
  - intros _. destruct (ext_scan_of p); try done.
    by destruct (bool_decide (c = dot)).
  - intros Hp. specialize (IH Hp). by destruct (ext_scan_of p).
Qed.

(** The extension of a path is the extension of its last element. *)
Lemma Ext_last p :
  exists l x, split slash p = (l ++ [x])%list /\ has_slash x = false /\ Ext p = Ext x.
Proof.
  induction p as [|c p (l & x & Hsplit & Hx & Hext)].
  - by exists [], "".
  - rewrite split_cons. destruct (bool_decide (c = slash)) eqn:Hc.
    + exists ("" :: l), x. rewrite Hsplit. split; [done|]. split; [done|].
      rewrite <- Hext. unfold Ext. rewrite ext_scan_cons, Hc.
      destruct (ext_scan_of p); try done.
      destruct (bool_decide (c = dot)) eqn:Hd; [|done].
      apply bool_decide_eq_true in Hc, Hd. subst c. discriminate.
    + destruct l as [|w l].
      * cbn in Hsplit. rewrite Hsplit. exists [], (String c x).
        split; [done|]. split; [by rewrite has_slash_cons, Hc|].
        destruct (has_slash p) eqn:Hp.
        { apply has_slash_split in Hp as (? & ? & ? & Hp). congruence. }
        apply split_no_slash in Hp. congruence.
      * cbn in Hsplit. rewrite Hsplit. exists (String c w :: l), x.
        split; [done|]. split; [done|]. rewrite <- Hext.
        assert (Hp : has_slash p = true).
        { destruct (has_slash p) eqn:Hp; [done|].
          apply split_no_slash in Hp. rewrite Hp in Hsplit.
          injection Hsplit as _ Hl. by destruct l. }
        apply has_slash_ext_scan in Hp.
        unfold Ext. rewrite ext_scan_cons. by destruct (ext_scan_of p).
Qed.

Lemma render_nonempty r es :
  es <> [] -> render (r, es) = (if r then "/" else "") ++ join "/" es.
Proof. unfold render. cbn [fst snd]. destruct es, r; done. Qed.

(** Cleaning keeps a proper extension. *)
Lemma Ext_Clean p e :
  Ext p = e -> e <> "" -> e <> "." -> Ext (Clean p) = e.
Proof.
  intros He Hne Hnd.
  destruct (Ext_last p) as (l & x & Hsplit & Hx & Hext).
  rewrite He in Hext.
  assert (Hp : proper x).
  { repeat split; [| | |done]; intros ->; vm_compute in Hext; congruence. }
  unfold Clean, norm. rewrite Hsplit, fold_left_app. cbn [fold_left].
  rewrite proper_step by done. cbn [rev].
  set (ys := rev (fold_left _ l [])).
  rewrite render_nonempty by (by destruct ys).
  destruct ys as [|y ys].
  - destruct (isRooted p); [|done].
    change ("/" ++ join "/" ([] ++ [x])) with ("" ++ String slash x).
    by rewrite Ext_app_slash.
  - rewrite join_snoc by done. rewrite <- str_app_assoc.
    by rewrite Ext_app_slash.
Qed.

End path_facts.

(** ** Runs on a file system with nothing to mirror *)

Lemma no_mjs_same_shape f g : same_shape f g -> no_mjs f -> no_mjs g.
Proof.
  intros H Hf k nd Hk. specialize (H k). rewrite Hk in H.
  destruct (f !! k) as [nd'|] eqn:E; cbn in H; [|discriminate].
  by apply (Hf k nd').
Qed.

Lemma resolve_Found_cases f k nd :
  resolve f k = Found nd -> f !! k = Some nd \/ k.2 = [].
Proof.
  unfold resolve. destruct k as [r es]. cbn. intros H.
  apply descend_Found in H as [[-> _] | [_ H]]; [by right | by left].
Qed.

(** Nothing with the extension [.mjs] can be stat-ed there. *)
Lemma stat_no_mjs f p nd :
  no_mjs f -> Path.Ext p = ".mjs" -> stat f p <> inr nd.
Proof.
  intros Hf Hext Hstat. unfold stat in Hstat.
  destruct p as [|a p]; [discriminate|].
  destruct (resolve f _) as [nd'| |] eqn:Hr; cbn in Hstat; try discriminate.
  pose proof (Ext_Clean _ _ Hext) as Hc. unfold Path.Clean in Hc.
  apply resolve_Found_cases in Hr as [Hk | Hk].
  - apply (Hf _ _ Hk). by apply Hc.
  - destruct (Path.norm (String a p)) as [[] es]; cbn in Hk; subst es;
      discriminate Hc; done.
Qed.

Lemma copyEntry_no_mjs gopackDir w c :
  no_mjs (fs w) -> fs (copyEntry gopackDir w c).1 = fs w.
Proof.
  intros Hf. unfold copyEntry. destruct (c_err c); [done|].
  destruct (negb _ && bool_decide _) eqn:Hcond; [|done].
  apply andb_true_iff in Hcond as [_ Hext]. apply bool_decide_eq_true in Hext.
  destruct (stat (fs w) (c_path c)) as [e|nd] eqn:Hs; [done|].
  by apply stat_no_mjs in Hs.
Qed.

Lemma run_copy_no_mjs gopackDir cs : forall w,
  no_mjs (fs w) -> fs (run (copyEntry gopackDir) w cs).1 = fs w.
Proof.
  induction cs as [|c cs IH]; intros w Hf; [done|]. cbn [run].
  pose proof (copyEntry_no_mjs gopackDir w c Hf) as Hc.
  destruct (copyEntry gopackDir w c) as [w' [|e]]; cbn in Hc; [|done].
  rewrite IH; [done|]. by rewrite Hc.
Qed.

Lemma copyNpmModule_no_mjs w module gopackDir :
  no_mjs (fs w) -> fs (copyNpmModule w module gopackDir) = fs w.
Proof.
  intros Hf. unfold copyNpmModule.
  pose proof (run_copy_no_mjs gopackDir
                (WalkDir (fs w) ("node_modules/" ++ module)) w Hf) as H.
  by destruct (run _ _ _) as [w' [|e]].
Qed.

Lemma checkEntry_fs st c : fs (checkEntry st c).1.1 = fs st.1.
Proof.
  unfold checkEntry.
  set (w := match c_err c with Some e => _ | None => _ end).
  assert (Hw : fs w = fs st.1) by (subst w; by destruct (c_err c)).
  destruct (c_entry c) as [[]|]; [|done|done].
  pose proof (findJSFile_fs w (c_path c)) as H.
  destruct (findJSFile w (c_path c)) as [w' fp]. cbn in H.
  destruct (bool_decide _); cbn; congruence.
Qed.

Lemma run_check_fs cs : forall st, fs (run checkEntry st cs).1.1 = fs st.1.
Proof.
  induction cs as [|c cs IH]; intros st; [done|]. cbn [run].
  pose proof (checkEntry_fs st c) as Hc.
  destruct (checkEntry st c) as [st' [|e]]; cbn in Hc; [|done].
  by rewrite IH.
Qed.

Lemma checkNpmPath_fs w buildPath pathStr :
  fs (checkNpmPath w buildPath pathStr).1 = fs w.
Proof.
  unfold checkNpmPath.
  pose proof (findJSFile_fs w (buildPath ++ "/spa/web_modules/" ++ pathStr)) as H1.
  destruct (findJSFile w _) as [w1 fp]. cbn in H1.
  destruct (bool_decide _); [|done].
  pose proof (run_check_fs (WalkDir (fs w1) (buildPath ++ "/spa/web_modules/" ++ pathStr))
                (w1, fp)) as H2.
  destruct (run _ _ _) as [st [|[]]]; cbn in *; congruence.
Qed.

Lemma resolveBare_no_mjs buildPath convertPath w pathStr :
  no_mjs (fs w) -> fs (resolveBare buildPath convertPath w pathStr).1 = fs w.
Proof.
  intros Hf. unfold resolveBare.
  pose proof (copyNpmModule_no_mjs w pathStr (buildPath ++ "/spa/web_modules") Hf) as H1.
  pose proof (checkNpmPath_fs (copyNpmModule w pathStr (buildPath ++ "/spa/web_modules"))
                buildPath pathStr) as H2.
  destruct (checkNpmPath _ _ _) as [w2 [pk|fp]]; cbn in *; [congruence|].
  destruct (Path.Rel _ _); cbn; congruence.
Qed.

Lemma applyFound_fs buildPath convertPath st s pathStr foundPath :
  fs (l_world (applyFound buildPath convertPath st s pathStr foundPath))
  = fs (l_world st)
  /\ l_converted (applyFound buildPath convertPath st s pathStr foundPath)
     = l_converted st.
Proof. unfold applyFound. by destruct (bool_decide _). Qed.

(** *** The measure *)

Lemma elem_of_file_keys f k :
  k ∈ file_keys f <-> exists d, f !! k = Some (File d).
Proof.
  unfold file_keys. rewrite elem_of_dom. split.
  - intros [nd [Hk Hp]%map_lookup_filter_Some]. cbn in Hp.
    destruct nd; [eauto | discriminate].
  - intros [d Hk]. exists (File d). by apply map_lookup_filter_Some.
Qed.

Lemma file_keys_same_shape f g : same_shape f g -> file_keys f = file_keys g.
Proof.
  intros H. apply set_eq. intros k. rewrite !elem_of_file_keys.
  specialize (H k). split; intros [d Hk]; rewrite Hk in H; cbn in H.
  - destruct (g !! k) as [[]|]; cbn in H; try discriminate; eauto.
  - destruct (f !! k) as [[]|]; cbn in H; try discriminate; eauto.
Qed.

Lemma pending_le f converted : pending f converted <= size (file_keys f).
Proof.
  unfold pending. apply subseteq_size. by intros k [_ ?]%elem_of_filter.
Qed.

Lemma pending_mono f converted converted' :
  (forall x, x ∈ converted -> x ∈ converted') ->
  pending f converted' <= pending f converted.
Proof.
  intros H. unfold pending. apply subseteq_size.
  intros k [Hk Hin]%elem_of_filter. apply elem_of_filter. split; [|done].
  intros Hc. apply Hk. by apply H.
Qed.

Lemma pending_decrease f converted converted' k :
  k ∈ file_keys f ->
  Path.render k ∉ converted -> Path.render k ∈ converted' ->
  (forall x, x ∈ converted -> x ∈ converted') ->
  pending f converted' < pending f converted.
Proof.
  intros Hk Hn Hin Hsub. unfold pending. apply subset_size. split.
  - intros x [Hx Hxin]%elem_of_filter. apply elem_of_filter. split; [|done].
    intros Hc. apply Hx. by apply Hsub.
  - intros Hall. assert (Hk' : k ∈ filter (fun k => Path.render k ∉ converted) (file_keys f))
      by (by apply elem_of_filter).
    apply Hall in Hk'. apply elem_of_filter in Hk' as [Hk' _]. done.
Qed.

Lemma readable_file_key f p d :
  ReadFile f p = inr d -> Path.norm p ∈ file_keys f.
Proof.
  unfold ReadFile. destruct (stat f p) as [e|[d'|o]] eqn:Hs; try discriminate.
  intros _. apply elem_of_file_keys. exists d'. by apply stat_File_lookup.
Qed.

Lemma canonical_fullPathOf convertPath pathStr :
  canonical (fullPathOf convertPath pathStr).
Proof. unfold canonical, fullPathOf. apply Clean_idemp. Qed.

(** *** One statement, the loop, one activation *)

Section good_runs.
Context (f0 : fsys) (Hf0 : no_mjs f0).
Context (rec : rec_call) (buildPath convertPath : string) (base : list string).
Context (Hrec : good_rec f0 rec base).

Local Abbreviation loop_ok := (loop_ok f0 base convertPath).
Local Abbreviation step_ok := (step_ok f0 base convertPath).

Lemma resolveLocal_good st pathStr :
  loop_ok st ->
  let r := resolveLocal rec buildPath convertPath st pathStr in
  loop_ok r.1.1 /\ r.2 <> OutOfFuel.
Proof.
  intros [Hsh Hbase]. unfold resolveLocal.
  destruct (fileExists _ _); [|done].
  set (w1 := say (say _ _) _).
  destruct (Hrec w1 buildPath (fullPathOf convertPath pathStr)
              (l_converted st ++ [convertPath])%list) as [Ho Hs];
    [done | apply canonical_fullPathOf | done |].
  destruct (rec w1 _ _ _) as [w2 o]. cbn in *.
  split; [|done]. split; [done|].
  intros x Hx. apply elem_of_app. left. by apply Hbase.
Qed.

Lemma applyFound_ok st s pathStr foundPath :
  loop_ok st -> loop_ok (applyFound buildPath convertPath st s pathStr foundPath).
Proof.
  intros [Hsh Hbase].
  destruct (applyFound_fs buildPath convertPath st s pathStr foundPath) as [H1 H2].
  split; [by rewrite H1 | by rewrite H2].
Qed.

Lemma resolveStatement_good st s :
  loop_ok st -> step_ok (resolveStatement rec buildPath convertPath st s).
Proof.
  intros Hst. unfold resolveStatement.
  pose proof (resolveLocal_good st (pathOf s) Hst) as [Hst1 Ho].
  destruct (resolveLocal _ _ _ _ _) as [[st1 found] o]. cbn in Hst1, Ho.
  destruct (aborts o) eqn:Hab.
  { split; [done | apply Hst1]. }
  destruct (isBare (pathOf s)) as [[]|].
  - pose proof (resolveBare_no_mjs buildPath convertPath (l_world st1) (pathOf s)) as Hb.
    destruct Hst1 as [Hsh Hbase].
    specialize (Hb (no_mjs_same_shape _ _ Hsh Hf0)).
    destruct (resolveBare _ _ _ _) as [w2 [pk|fp]]; cbn in Hb.
    + split; [done | cbn; by rewrite Hb].
    + apply applyFound_ok. split; [cbn; by rewrite Hb | done].
  - by apply applyFound_ok.
  - split; [done | apply Hst1].
Qed.

Lemma resolveAll_good ss : forall st,
  loop_ok st -> step_ok (resolveAll rec buildPath convertPath st ss).
Proof.
  induction ss as [|s ss IH]; intros st Hst; [done|]. cbn [resolveAll].
  pose proof (resolveStatement_good st s Hst) as H.
  destruct (resolveStatement _ _ _ _ _) as [st'|wo]; [by apply IH | done].
Qed.

Lemma runPackF_good w converted :
  same_shape f0 (fs w) ->
  (forall x, x ∈ base -> x ∈ (converted ++ [convertPath])%list) ->
  good f0 (runPackF rec w buildPath convertPath converted).
Proof.
  intros Hsh Hbase. unfold runPackF.
  destruct (bool_decide _); [done|].
  destruct (ReadFile (fs w) convertPath) as [e|content] eqn:Hread; [done|].
  pose proof (resolveAll_good
                (allStaticStatements (fixDynamicImports content))
                (Loop (visit w convertPath) (fixDynamicImports content) converted)) as H.
  destruct (resolveAll _ _ _ _ _) as [st|wo]; [|by apply H].
  destruct H as [Hst _]; [done|].
  unfold ReadFile in Hread.
  destruct (stat (fs w) convertPath) as [e|[d|o]] eqn:Hs; try discriminate.
  assert (Hsh' : same_shape (fs w) (fs (l_world st)))
    by (etransitivity; [symmetry; exact Hsh | exact Hst]).
  pose proof (stat_same_shape _ _ convertPath Hsh') as Hs'. rewrite Hs in Hs'.
  destruct (stat (fs (l_world st)) convertPath) as [e|[d'|o]] eqn:Hs2;
    cbn in Hs'; try discriminate.
  destruct (WriteFile_existing _ _ _ (l_content st) Hs2) as (-> & Hw & _).
  split; [done|]. cbn. by etransitivity.
Qed.

End good_runs.

(** *** Enough fuel *)

Lemma runPack_good f0 : no_mjs f0 -> forall n w buildPath convertPath converted,
  same_shape f0 (fs w) -> canonical convertPath ->
  pending f0 converted < n ->
  good f0 (runPack n w buildPath convertPath converted).
Proof.
  intros Hf0. induction n as [|n IH];
    intros w buildPath convertPath converted Hsh Hcan Hn; [lia|].
  cbn [runPack].
  destruct (decide (convertPath ∈ converted)) as [Hin|Hnin].
  { rewrite runPackF_guard by done. done. }
  destruct (ReadFile (fs w) convertPath) as [e|content] eqn:Hread.
  { rewrite (runPackF_unreadable _ _ _ _ _ e) by done. done. }
  apply (runPackF_good f0 Hf0 _ _ _ (converted ++ [convertPath])%list); [|done|done].
  intros w' bp' full converted' Hsh' Hcan' Hsub.
  apply IH; [done|done|].
  apply readable_file_key in Hread.
  rewrite <- (file_keys_same_shape _ _ Hsh) in Hread.
  assert (pending f0 converted' < pending f0 converted); [|lia].
  apply (pending_decrease _ _ _ (Path.norm convertPath)); [done| | |].
  - fold (Path.Clean convertPath). by rewrite Hcan.
  - fold (Path.Clean convertPath). rewrite Hcan. apply Hsub, elem_of_app.
    right. by apply list_elem_of_singleton.
  - intros x Hx. apply Hsub, elem_of_app. by left.
Qed.

Lemma runPack_good_any f0 : no_mjs f0 -> forall n w buildPath convertPath converted,
  same_shape f0 (fs w) ->
  pending f0 converted + 1 < n ->
  good f0 (runPack n w buildPath convertPath converted).
Proof.
  intros Hf0 n w buildPath convertPath converted Hsh Hn.
  destruct n as [|n]; [lia|]. cbn [runPack].
  apply (runPackF_good f0 Hf0 _ _ _ converted); [|done|].
  - intros w' bp' full converted' Hsh' Hcan' Hsub.
    apply runPack_good; [done|done|done|].
    pose proof (pending_mono f0 converted converted' Hsub). lia.
  - intros x Hx. apply elem_of_app. by left.
Qed.

(** *** More fuel changes nothing *)

Section more_fuel.
Context (rec1 rec2 : rec_call).
Context (Hagree : forall w buildPath convertPath converted,
            (rec1 w buildPath convertPath converted).2 <> OutOfFuel ->
            rec2 w buildPath convertPath converted
            = rec1 w buildPath convertPath converted).

Lemma resolveStatement_more_fuel buildPath convertPath st s :
  (forall w, resolveStatement rec1 buildPath convertPath st s <> inr (w, OutOfFuel)) ->
  resolveStatement rec2 buildPath convertPath st s
  = resolveStatement rec1 buildPath convertPath st s.
Proof.
  unfold resolveStatement, resolveLocal. intros H.
  destruct (fileExists _ _); [|done].
  set (w1 := say (say _ _) _) in *. set (full := fullPathOf _ _) in *.
  set (conv := (l_converted st ++ [convertPath])%list) in *.
  specialize (Hagree w1 buildPath full conv).
  destruct (rec1 w1 buildPath full conv) as [w2 o] eqn:H1.
  rewrite Hagree; [done|]. cbn. intros ->. by apply (H w2).
Qed.

Lemma resolveAll_more_fuel buildPath convertPath ss : forall st,
  (forall w, resolveAll rec1 buildPath convertPath st ss <> inr (w, OutOfFuel)) ->
  resolveAll rec2 buildPath convertPath st ss
  = resolveAll rec1 buildPath convertPath st ss.
Proof.
  induction ss as [|s ss IH]; intros st H; [done|]. cbn [resolveAll] in *.
  rewrite resolveStatement_more_fuel.
  - destruct (resolveStatement rec1 _ _ _ _) as [st'|wo]; [by apply IH | done].
  - intros w Hw. apply (H w). by rewrite Hw.
Qed.

Lemma runPackF_more_fuel w buildPath convertPath converted :
  (runPackF rec1 w buildPath convertPath converted).2 <> OutOfFuel ->
  runPackF rec2 w buildPath convertPath converted
  = runPackF rec1 w buildPath convertPath converted.
Proof.
  unfold runPackF. destruct (bool_decide _); [done|].
  destruct (ReadFile _ _); [done|]. intros H.
  rewrite resolveAll_more_fuel; [done|].
  intros w' Hw. rewrite Hw in H. by apply H.
Qed.

End more_fuel.

Lemma runPack_S n : forall w buildPath convertPath converted,
  (runPack n w buildPath convertPath converted).2 <> OutOfFuel ->
  runPack (S n) w buildPath convertPath converted
  = runPack n w buildPath convertPath converted.
Proof.
  induction n as [|n IH]; intros w buildPath convertPath converted H; [done|].
  change (runPack (S (S n))) with (runPackF (runPack (S n))).
  change (runPack (S n)) with (runPackF (runPack n)) at 2.
  apply runPackF_more_fuel; [|exact H]. exact IH.
Qed.

Lemma runPack_more_fuel n m w buildPath convertPath converted :
  (runPack n w buildPath convertPath converted).2 <> OutOfFuel ->
  n <= m ->
  runPack m w buildPath convertPath converted
  = runPack n w buildPath convertPath converted.
Proof.
  intros H Hle. induction Hle as [|m Hle IH]; [done|].
  rewrite runPack_S; [done|]. by rewrite IH.
Qed.

(** ** The modules a run reads *)

Lemma findJSFile_visits w path : visits (findJSFile w path).1 = visits w.
Proof. unfold findJSFile. by destruct (ReadDir _ _). Qed.

Lemma copyEntry_visits gopackDir w c :
  visits (copyEntry gopackDir w c).1 = visits w.
Proof.
  unfold copyEntry. destruct (c_err c); [done|].
  destruct (negb _ && bool_decide _); [|done].
  destruct (stat _ _) as [e|from]; [done|].
  destruct (MkdirAll _ _) as [e|f1]; [done|].
  destruct from; destruct (WriteFile _ _ _); done.
Qed.

Lemma run_copy_visits gopackDir cs : forall w,
  visits (run (copyEntry gopackDir) w cs).1 = visits w.
Proof.
  induction cs as [|c cs IH]; intros w; [done|]. cbn [run].
  pose proof (copyEntry_visits gopackDir w c) as Hc.
  destruct (copyEntry gopackDir w c) as [w' [|e]]; cbn in Hc; [|done].
  by rewrite IH.
Qed.

Lemma copyNpmModule_visits w module gopackDir :
  visits (copyNpmModule w module gopackDir) = visits w.
Proof.
  unfold copyNpmModule.
  pose proof (run_copy_visits gopackDir
                (WalkDir (fs w) ("node_modules/" ++ module)) w) as H.
  by destruct (run _ _ _) as [w' [|e]].
Qed.

Lemma checkEntry_visits st c : visits (checkEntry st c).1.1 = visits st.1.
Proof.
  unfold checkEntry.
  set (w := match c_err c with Some e => _ | None => _ end).
  assert (Hw : visits w = visits st.1) by (subst w; by destruct (c_err c)).
  destruct (c_entry c) as [[]|]; [|done|done].
  pose proof (findJSFile_visits w (c_path c)) as H.
  destruct (findJSFile w (c_path c)) as [w' fp]. cbn in H.
  destruct (bool_decide _); cbn; congruence.
Qed.

Lemma run_check_visits cs : forall st,
  visits (run checkEntry st cs).1.1 = visits st.1.
Proof.
  induction cs as [|c cs IH]; intros st; [done|]. cbn [run].
  pose proof (checkEntry_visits st c) as Hc.
  destruct (checkEntry st c) as [st' [|e]]; cbn in Hc; [|done].
  by rewrite IH.
Qed.

Lemma checkNpmPath_visits w buildPath pathStr :
  visits (checkNpmPath w buildPath pathStr).1 = visits w.
Proof.
  unfold checkNpmPath.
  pose proof (findJSFile_visits w (buildPath ++ "/spa/web_modules/" ++ pathStr)) as H1.
  destruct (findJSFile w _) as [w1 fp]. cbn in H1.
  destruct (bool_decide _); [|done].
  pose proof (run_check_visits
                (WalkDir (fs w1) (buildPath ++ "/spa/web_modules/" ++ pathStr))
                (w1, fp)) as H2.
  destruct (run _ _ _) as [st [|[]]]; cbn in *; congruence.
Qed.

Lemma resolveBare_visits buildPath convertPath w pathStr :
  visits (resolveBare buildPath convertPath w pathStr).1 = visits w.
Proof.
  unfold resolveBare.
  pose proof (copyNpmModule_visits w pathStr (buildPath ++ "/spa/web_modules")) as H1.
  pose proof (checkNpmPath_visits
                (copyNpmModule w pathStr (buildPath ++ "/spa/web_modules"))
                buildPath pathStr) as H2.
  destruct (checkNpmPath _ _ _) as [w2 [pk|fp]]; cbn in *; [congruence|].
  destruct (Path.Rel _ _); cbn; congruence.
Qed.

Lemma applyFound_visits buildPath convertPath st s pathStr foundPath :
  visits (l_world (applyFound buildPath convertPath st s pathStr foundPath))
  = visits (l_world st).
Proof. unfold applyFound. by destruct (bool_decide _). Qed.

Section quiet_runs.
Context (p : string) (rec : rec_call) (Hrec : quiet_rec p rec).
Context (buildPath convertPath : string).

Lemma resolveStatement_quiet w0 st s :
  loop_quiet p convertPath w0 st ->
  match resolveStatement rec buildPath convertPath st s with
  | inl st' => loop_quiet p convertPath w0 st'
  | inr wo => world_quiet p w0 wo.1
  end.
Proof.
  intros [Hp (vs & Hvs & Hn)]. unfold resolveStatement.
  assert (Hloc : loop_quiet p convertPath w0
                   (resolveLocal rec buildPath convertPath st (pathOf s)).1.1).
  { unfold resolveLocal. destruct (fileExists _ _); [|by split; [|exists vs]].
    set (w1 := say (say _ _) _).
    destruct (Hrec buildPath (fullPathOf convertPath (pathOf s))
                (l_converted st ++ [convertPath])%list) with (w := w1)
      as (vs' & Hvs' & Hn'); [done|].
    change (visits w1) with (visits (l_world st)) in Hvs'.
    destruct (rec w1 _ _ _) as [w2 o].
    cbv beta iota zeta. cbn [fst snd l_world l_converted] in *.
    split.
    - apply elem_of_app. by left.
    - exists (vs ++ vs')%list. split.
      + cbn [l_world]. by rewrite Hvs', Hvs, app_assoc.
      + intros [?|?]%elem_of_app; done. }
  destruct (resolveLocal _ _ _ _ _) as [[st1 found] o]. cbn [fst snd] in Hloc.
  destruct Hloc as [Hp1 Hq1].
  destruct (aborts o); [exact Hq1|].
  destruct (isBare (pathOf s)) as [[]|].
  - pose proof (resolveBare_visits buildPath convertPath (l_world st1) (pathOf s)) as Hb.
    destruct (resolveBare _ _ _ _) as [w2 [pk|fp]]; cbn [fst] in Hb.
    + unfold world_quiet. cbn [fst]. by rewrite Hb.
    + split.
      * unfold applyFound. by destruct (bool_decide _).
      * unfold world_quiet. rewrite applyFound_visits. cbn [l_world].
        by rewrite Hb.
  - split.
    + unfold applyFound. by destruct (bool_decide _).
    + unfold world_quiet. by rewrite applyFound_visits.
  - exact Hq1.
Qed.

Lemma resolveAll_quiet w0 ss : forall st,
  loop_quiet p convertPath w0 st ->
  match resolveAll rec buildPath convertPath st ss with
  | inl st' => loop_quiet p convertPath w0 st'
  | inr wo => world_quiet p w0 wo.1
  end.
Proof.
  induction ss as [|s ss IH]; intros st Hst; [done|]. cbn [resolveAll].
  pose proof (resolveStatement_quiet w0 st s Hst) as H.
  destruct (resolveStatement _ _ _ _ _) as [st'|wo]; [by apply IH | done].
Qed.

(** One activation reads the current module, if at all, and then only
    modules that the loop is quiet about. *)
Lemma runPackF_visits w converted :
  p ∈ (converted ++ [convertPath])%list ->
  visits (runPackF rec w buildPath convertPath converted).1 = visits w
  \/ exists vs,
       visits (runPackF rec w buildPath convertPath converted).1
       = (visits w ++ convertPath :: vs)%list
       /\ (convertPath ∉ converted) /\ p ∉ vs.
Proof.
  intros Hp. unfold runPackF.
  destruct (bool_decide _) eqn:Hg; [by left|].
  apply bool_decide_eq_false in Hg.
  destruct (ReadFile (fs w) convertPath) as [e|content]; [by left|].
  right.
  pose proof (resolveAll_quiet (visit w convertPath)
                (allStaticStatements (fixDynamicImports content))
                (Loop (visit w convertPath) (fixDynamicImports content) converted)) as H.
  assert (Hend : forall w', world_quiet p (visit w convertPath) w' ->
             exists vs, visits w' = (visits w ++ convertPath :: vs)%list
                        /\ (convertPath ∉ converted) /\ p ∉ vs).
  { intros w' (vs & Hvs & Hn). exists vs. split; [|done].
    rewrite Hvs. cbn [visit visits]. by rewrite <- app_assoc. }
  assert (H0 : loop_quiet p convertPath (visit w convertPath)
                 (Loop (visit w convertPath) (fixDynamicImports content) converted)).
  { split; [exact Hp|]. exists []. split; [by rewrite app_nil_r | apply not_elem_of_nil]. }
  specialize (H H0).
  destruct (resolveAll _ _ _ _ _) as [st|wo].
  - destruct H as [_ Hq]. destruct (WriteFile _ _ _); by apply Hend.
  - by apply Hend.
Qed.

End quiet_runs.

Lemma runPack_quiet p n : quiet_rec p (runPack n).
Proof.
  induction n as [|n IH]; intros buildPath convertPath converted Hp w.
  - exists []. split; [by rewrite app_nil_r | apply not_elem_of_nil].
  - cbn [runPack].
    destruct (runPackF_visits p (runPack n) IH buildPath convertPath w converted)
      as [H | (vs & H & Hn & Hvs)].
    + apply elem_of_app. by left.
    + exists []. split; [by rewrite app_nil_r | apply not_elem_of_nil].
    + exists (convertPath :: vs). split; [done|].
      intros [->|?]%elem_of_cons; done.
Qed.

(** A module is not read again inside its own activation. *)
Lemma runPack_visits_own n w buildPath convertPath converted :
  visits (runPack n w buildPath convertPath converted).1 = visits w
  \/ exists vs,
       visits (runPack n w buildPath convertPath converted).1
       = (visits w ++ convertPath :: vs)%list
       /\ convertPath ∉ vs.
Proof.
  destruct n as [|n]; [by left|]. cbn [runPack].
  destruct (runPackF_visits convertPath (runPack n) (runPack_quiet convertPath n)
              buildPath convertPath w converted) as [H | (vs & H & _ & Hvs)].
  - apply elem_of_app. right. by apply list_elem_of_singleton.
  - by left.
  - right. by exists vs.
Qed.

(** *** C1 *)


(** The cycle: each module is processed once. *)
Lemma cycle_visits_each_module_once :
  (runPack 3 world_cycle "public" "a.js" []).2 = Ok
  /\ visits (runPack 3 world_cycle "public" "a.js" []).1 = ["a.js"; "b.js"].
Proof. vm_compute. split; reflexivity. Qed.

(** A build path inside the dependency cache, with a module that imports
    the mirror as a package and then its own mirrored copy: with a bound
    of eight the run has read eight different modules, seven of which it
    has made itself, and has not come to an end. *)
Lemma self_feeding_mirror_runs_on :
  let r := runPack 8 world_self_feeding "node_modules"
             "node_modules/spa/web_modules/x/f.mjs" [] in
  r.2 = OutOfFuel /\ length (visits r.1) = 8 /\ NoDup (visits r.1)
  /\ size (file_keys (fs world_self_feeding)) = 1.
Proof.
  split; [vm_compute; reflexivity|]. split; [vm_compute; reflexivity|].
  split; [|vm_compute; reflexivity].
  apply (bool_decide_unpack _). vm_compute. exact I.
Qed.

Lemma no_mjs_world_cycle : no_mjs (fs world_cycle).
Proof. apply (bool_decide_unpack _). vm_compute. exact I. Defined.

(** ** The mirror builder *)

Global Instance adds_dirs_preorder : PreOrder adds_dirs.
Proof.
  split.
  - intros f k. by left.
  - intros f g h H1 H2 k. destruct (H2 k) as [E2|(N2 & S2 & Hk)].
    + rewrite E2. apply H1.
    + destruct (H1 k) as [E1|(N1 & S1 & _)].
      * right. rewrite <- E1. done.
      * congruence.
Qed.

Lemma adds_dirs_insert f k :
  f !! k = None -> k.2 <> [] -> adds_dirs f (<[k := Dir true]> f).
Proof.
  intros Hk Hne k'. destruct (decide (k = k')) as [<-|Hd].
  - right. by rewrite lookup_insert_eq.
  - left. by rewrite lookup_insert_ne.
Qed.

Lemma adds_dirs_File f f' k d :
  adds_dirs f f' -> f' !! k = Some (File d) -> f !! k = Some (File d).
Proof. intros H Hk. destruct (H k) as [E|(_ & S & _)]; congruence. Qed.

Lemma adds_dirs_extends f f' : adds_dirs f f' -> extends f f'.
Proof. intros H k. destruct (H k) as [E|(N & _ & Hk)]; [by left | by right]. Qed.

Lemma extends_insert f k nd :
  f !! k = None -> k.2 <> [] -> extends f (<[k := nd]> f).
Proof.
  intros Hk Hne k'. destruct (decide (k = k')) as [<-|Hd].
  - by right.
  - left. by rewrite lookup_insert_ne.
Qed.

Lemma descend_extends f f' r es : extends f f' ->
  forall pre nd x,
    descend f r pre nd es = Found x -> descend f' r pre nd es = Found x.
Proof.
  intros H. induction es as [|e es IH]; intros pre nd x Hd; [done|].
  cbn in *. destruct nd as [|[]]; try discriminate.
  destruct (f !! (r, (pre ++ [e])%list)) as [nd'|] eqn:Hl.
  - destruct (H (r, (pre ++ [e])%list)) as [E|(N & _)]; [|congruence].
    rewrite E, Hl. by apply IH.
  - destruct es; discriminate.
Qed.

Lemma resolve_extends f f' k x :
  extends f f' -> resolve f k = Found x -> resolve f' k = Found x.
Proof.
  intros H. unfold resolve, top.
  destruct (H (k.1, [])) as [E|(_ & Hne)]; [|done].
  rewrite E. by apply descend_extends.
Qed.

Lemma ReadFile_extends f f' q d :
  extends f f' -> ReadFile f q = inr d -> ReadFile f' q = inr d.
Proof.
  intros H Hq. unfold ReadFile, stat in *. destruct q as [|a q]; [done|].
  destruct (resolve f _) as [[d'|o]| |] eqn:Hr; try (cbn in Hq; discriminate).
  by rewrite (resolve_extends _ _ _ _ H Hr).
Qed.

Lemma resolve_NoLeaf_nonempty f k : resolve f k = NoLeaf -> k.2 <> [].
Proof. unfold resolve. destruct k as [r [|e es]]; [discriminate | done]. Qed.

Lemma Mkdir_adds_dirs f p f' : Mkdir f p = inr f' -> adds_dirs f f'.
Proof.
  unfold Mkdir, create. destruct p as [|a p]; [discriminate|].
  destruct (resolve f _) as [nd| |] eqn:Hr; try discriminate.
  intros [= <-]. apply adds_dirs_insert.
  - by apply resolve_NoLeaf.
  - by apply resolve_NoLeaf_nonempty in Hr.
Qed.

Lemma MkdirAll_go_adds_dirs n : forall f p f',
  MkdirAll_go n f p = inr f' -> adds_dirs f f'.
Proof.
  induction n as [|n IH]; intros f p f'; cbn.
  - destruct (stat f p) as [e|[d|o]].
    + apply Mkdir_adds_dirs.
    + discriminate.
    + by intros [= <-].
  - destruct (stat f p) as [e|[d|o]].
    + destruct (MkdirAll_go n f (Path.Dir p)) as [e'|f1] eqn:H1; [discriminate|].
      intros H2. etransitivity; [by eapply IH | by eapply Mkdir_adds_dirs].
    + discriminate.
    + by intros [= <-].
Qed.

Lemma MkdirAll_adds_dirs f p f' : MkdirAll f p = inr f' -> adds_dirs f f'.
Proof. apply MkdirAll_go_adds_dirs. Qed.

(** Writing a file leaves every other regular file as it is. *)
Lemma WriteFile_frame f p d f' q dq :
  WriteFile f p d = inr f' ->
  Path.norm q <> Path.norm p ->
  ReadFile f q = inr dq -> ReadFile f' q = inr dq.
Proof.
  intros Hw Hne Hq. apply WriteFile_inr in Hw as (-> & Hres & _).
  destruct Hres as [Hnl | [d0 Hf]].
  - eapply ReadFile_extends; [|exact Hq].
    apply extends_insert; [by apply resolve_NoLeaf|].
    by apply resolve_NoLeaf_nonempty in Hnl.
  - unfold ReadFile, stat in *. destruct q as [|a q]; [done|].
    destruct (resolve f (Path.norm (String a q))) as [[d'|o]| |] eqn:Hr;
      try (cbn in Hq; discriminate).
    apply resolve_File_lookup in Hf.
    pose proof (same_shape_overwrite f _ d0 d Hf) as Hsh.
    pose proof (resolve_same_shape _ _ (Path.norm (String a q)) Hsh) as Hrs.
    rewrite Hr in Hrs.
    destruct (resolve (<[Path.norm p := File d]> f) (Path.norm (String a q)))
      as [[d''|o]| |] eqn:Hr'; try (cbn in Hrs; discriminate).
    apply resolve_File_lookup in Hr, Hr'.
    rewrite lookup_insert_ne in Hr' by done. cbn in *. congruence.
Qed.

(** *** One call of the walk function *)

Lemma copyEntry_skip gopackDir w c :
  c_err c = None -> is_source c = false -> copyEntry gopackDir w c = (w, Next).
Proof.
  intros He Hs. unfold copyEntry. rewrite He.
  unfold is_source in Hs. by rewrite Hs.
Qed.

(** When the walk function returns nil, it has either skipped the call
    or read the source, made the directories and written the copy. *)
Lemma copyEntry_Next gopackDir w c w1 :
  copyEntry gopackDir w c = (w1, Next) ->
  (is_source c = false /\ w1 = w)
  \/ (is_source c = true
      /\ exists data f1,
          ReadFile (fs w) (c_path c) = inr data
          /\ MkdirAll (fs w) (Path.Dir (destOf gopackDir (c_path c))) = inr f1
          /\ WriteFile f1 (destOf gopackDir (c_path c)) data = inr (fs w1)).
Proof.
  unfold copyEntry, is_source, destOf. destruct (c_err c); [discriminate|].
  destruct (negb _ && bool_decide _); [|intros [= <-]; by left].
  intros H. right. split; [done|]. unfold ReadFile.
  destruct (stat (fs w) (c_path c)) as [e|[data|o]]; [discriminate| |].
  - destruct (MkdirAll _ _) as [e|f1]; [discriminate|].
    destruct (WriteFile f1 _ data) as [e|f2] eqn:Hw; [discriminate|].
    injection H as <-. by exists data, f1.
  - destruct (MkdirAll _ _) as [e|f1]; [discriminate|].
    destruct (WriteFile f1 _ "") as [e|f2]; discriminate.
Qed.

(** Whatever the walk function does, a regular file it leaves behind
    was there before or is stored at the destination of a source. *)
Lemma copyEntry_files gopackDir w c k d :
  fs (copyEntry gopackDir w c).1 !! k = Some (File d) ->
  fs w !! k = Some (File d)
  \/ (is_source c = true /\ k = destKey gopackDir c).
Proof.
  unfold copyEntry, is_source, destKey, destOf. destruct (c_err c); [by left|].
  destruct (negb _ && bool_decide _); [|by left].
  destruct (stat (fs w) (c_path c)) as [e|from]; [by left|].
  destruct (MkdirAll _ _) as [e|f1] eqn:Hm; [by left|].
  apply MkdirAll_adds_dirs in Hm.
  assert (Hins : forall data f2,
             WriteFile f1 (gopackDir ++ Str.replace1 (c_path c) "node_modules" "") data
             = inr f2 ->
             f2 !! k = Some (File d) ->
             fs w !! k = Some (File d)
             \/ (true = true
                 /\ k = Path.norm (gopackDir ++ Str.replace1 (c_path c) "node_modules" ""))).
  { intros data f2 Hw Hk. apply WriteFile_inr in Hw as (-> & _ & _).
    destruct (decide (k = Path.norm (gopackDir ++ Str.replace1 (c_path c) "node_modules" "")))
      as [->|Hne]; [by right|].
    rewrite lookup_insert_ne in Hk by done. left. by eapply adds_dirs_File. }
  destruct from as [data|o].
  - destruct (WriteFile f1 _ data) as [e|f2] eqn:Hw; cbn.
    + intros Hk. left. by eapply adds_dirs_File.
    + intros Hk. exact (Hins _ _ Hw Hk).
  - destruct (WriteFile f1 _ "") as [e|f2] eqn:Hw; cbn.
    + intros Hk. left. by eapply adds_dirs_File.
    + intros Hk. exact (Hins _ _ Hw Hk).
Qed.

(** *** The whole walk *)

Lemma run_copy_files gopackDir cs : forall w k d,
  fs (run (copyEntry gopackDir) w cs).1 !! k = Some (File d) ->
  fs w !! k = Some (File d)
  \/ exists c, c ∈ cs /\ is_source c = true /\ k = destKey gopackDir c.
Proof.
  induction cs as [|c cs IH]; intros w k d Hk; [by left|]. cbn [run] in Hk.
  pose proof (copyEntry_files gopackDir w c k d) as Hc.
  destruct (copyEntry gopackDir w c) as [w1 [|e]]; cbn in Hc.
  - apply IH in Hk as [Hk | (c' & Hin & Hs & ->)].
    + apply Hc in Hk as [Hk | [Hs ->]]; [by left|].
      right. exists c. split; [apply list_elem_of_here | done].
    + right. exists c'. split; [by apply list_elem_of_further | done].
  - apply Hc in Hk as [Hk | [Hs ->]]; [by left|].
    right. exists c. split; [apply list_elem_of_here | done].
Qed.

Lemma copyEntry_frame gopackDir w c w1 q dq :
  copyEntry gopackDir w c = (w1, Next) ->
  (is_source c = true -> destKey gopackDir c <> Path.norm q) ->
  ReadFile (fs w) q = inr dq -> ReadFile (fs w1) q = inr dq.
Proof.
  intros Hc Hne Hq.
  apply copyEntry_Next in Hc as [[_ ->] | (Hs & data & f1 & _ & Hm & Hw)]; [done|].
  eapply WriteFile_frame; [exact Hw | |].
  - intros Heq. by apply (Hne Hs).
  - eapply ReadFile_extends; [|exact Hq].
    apply MkdirAll_adds_dirs in Hm. by apply adds_dirs_extends.
Qed.

Lemma run_copy_frame gopackDir cs : forall w w' q dq,
  run (copyEntry gopackDir) w cs = (w', Next) ->
  Forall (fun c => destKey gopackDir c <> Path.norm q) (sources cs) ->
  ReadFile (fs w) q = inr dq -> ReadFile (fs w') q = inr dq.
Proof.
  induction cs as [|c cs IH]; intros w w' q dq Hrun Hne Hq.
  - by injection Hrun as <-.
  - cbn [run] in Hrun.
    destruct (copyEntry gopackDir w c) as [w1 [|e]] eqn:Hc; [|discriminate].
    unfold sources in Hne. rewrite filter_cons in Hne.
    apply (IH w1 w' q dq Hrun).
    + destruct (decide (is_source c = true)); [by inversion Hne | done].
    + eapply copyEntry_frame; [exact Hc | | exact Hq].
      intros Hs. destruct (decide (is_source c = true)); [by inversion Hne | done].
Qed.

(** When the walk ends without an error and the copies are kept
    separate, every source has its bytes at its destination. *)
Lemma run_copy_sources gopackDir cs : forall w w',
  run (copyEntry gopackDir) w cs = (w', Next) ->
  separate gopackDir cs ->
  forall c d,
    c ∈ cs -> is_source c = true ->
    ReadFile (fs w) (c_path c) = inr d ->
    ReadFile (fs w') (destOf gopackDir (c_path c)) = inr d.
Proof.
  induction cs as [|c0 cs IH]; intros w w' Hrun [Hnd Hsep] c d Hin Hs Hd.
  { by apply elem_of_nil in Hin. }
  cbn [run] in Hrun.
  destruct (copyEntry gopackDir w c0) as [w1 [|e]] eqn:Hc; [|discriminate].
  unfold sources in Hnd, Hsep. rewrite filter_cons in Hnd, Hsep.
  fold (sources cs) in Hnd, Hsep.
  assert (Htail : separate gopackDir cs).
  { destruct (decide (is_source c0 = true)); [|done]. split.
    - by inversion Hnd.
    - inversion Hsep as [|? ? _ Hrest]; subst.
      eapply Forall_impl; [exact Hrest|]. intros x Hx. by inversion Hx. }
  apply elem_of_cons in Hin as [->|Hin].
  - (* the head is the source *)
    destruct (decide (is_source c0 = true)) as [_|]; [|done].
    pose proof Hc as Hc'.
    apply copyEntry_Next in Hc' as [[Hf _] | (_ & data & f1 & Hr & Hm & Hw)];
      [congruence|].
    assert (data = d) as -> by congruence.
    apply WriteFile_inr in Hw as (_ & _ & Hread).
    apply (run_copy_frame gopackDir cs w1 w' _ d Hrun); [|done].
    inversion Hnd as [|? ? Hnotin _]; subst.
    apply Forall_forall. intros x Hx Heq. apply Hnotin.
    apply list_elem_of_fmap. exists x. split; [by symmetry | done].
  - (* the source comes later *)
    apply (IH w1 w' Hrun Htail c d Hin Hs).
    eapply copyEntry_frame; [exact Hc | | exact Hd].
    intros Hs0. destruct (decide (is_source c0 = true)); [|done].
    inversion Hsep as [|? ? Hhead _]; subst.
    assert (Hc_src : c ∈ sources cs) by (by apply list_elem_of_filter).
    apply Forall_cons in Hhead as [_ Hhead].
    by apply (proj1 (Forall_forall _ _) Hhead c Hc_src).
Qed.

(** *** C4 *)

Lemma copyNpmModule_fs w module gopackDir :
  fs (copyNpmModule w module gopackDir)
  = fs (run (copyEntry gopackDir) w (WalkDir (fs w) ("node_modules/" ++ module))).1.
Proof. unfold copyNpmModule. by destruct (run _ _ _) as [w' [|e]]. Qed.

Lemma prefix_app (a b : string) : String.prefix a (a ++ b) = true.
Proof.
  induction a as [|c a IH]; [by destruct b|].
  simpl. destruct (ascii_dec c c) as [_|Hn]; [exact IH | by destruct Hn].
Qed.

Lemma destOf_cache gopackDir rest :
  destOf gopackDir ("node_modules" ++ rest) = gopackDir ++ rest.
Proof.
  unfold destOf. f_equal.
  change (Str.replace1 ("node_modules" ++ rest) "node_modules" "")
    with (if Str.hasPrefix ("node_modules" ++ rest) "node_modules"
          then "" ++ rest
          else String "n" (Str.replace1 ("ode_modules" ++ rest) "node_modules" "")).
  unfold Str.hasPrefix. by rewrite prefix_app.
Qed.

(** ** The walk reaches every node below its root *)

Section walk_reach.
Import Str Path FS.

Lemma descend_delete f r k : forall es pre nd,
  (List.length k.2 <= List.length pre)%nat ->
  descend (delete k f) r pre nd es = descend f r pre nd es.
Proof.
  induction es as [|e es IH]; intros pre nd Hlen; [done|].
  cbn. destruct nd as [|[]]; try done.
  rewrite lookup_delete_ne.
  2:{ intros ->. cbn in Hlen. rewrite length_app in Hlen. cbn in Hlen. lia. }
  destruct (f !! (r, (pre ++ [e])%list)); [|done].
  apply IH. rewrite length_app. cbn. lia.
Qed.

(** A path that can be followed is no longer than the file system is
    large. *)
Lemma descend_depth r : forall es f pre nd nd',
  descend f r pre nd es = Found nd' -> (List.length es <= size f)%nat.
Proof.
  induction es as [|e es IH]; intros f pre nd nd' H; cbn in *; [lia|].
  destruct nd as [|[]]; try discriminate.
  destruct (f !! (r, (pre ++ [e])%list)) as [x|] eqn:Hx.
  - rewrite <- (descend_delete f r (r, (pre ++ [e])%list)) in H by (cbn; lia).
    apply IH in H. rewrite map_size_delete, Hx in H.
    assert (size f <> 0)%nat.
    { intros Hz. apply map_size_empty_inv in Hz. subst f. by rewrite lookup_empty in Hx. }
    lia.
  - destruct es; discriminate.
Qed.

Lemma child_name_snoc r es e : child_name (r, es) (r, (es ++ [e])%list) = Some e.
Proof.
  unfold child_name. cbn [fst snd]. rewrite bool_decide_eq_true_2 by done.
  rewrite reverse_app. change (reverse [e]) with [e]. cbn [app].
  rewrite reverse_involutive.
  by rewrite bool_decide_eq_true_2.
Qed.

Lemma entries_elem f r es e nd :
  f !! (r, (es ++ [e])%list) = Some nd ->
  Dirent e (node_isDir nd) ∈ entries f (r, es).
Proof.
  intros H. unfold entries. rewrite merge_sort_Permutation.
  apply list_elem_of_omap. exists ((r, (es ++ [e])%list), nd). split.
  - by apply elem_of_map_to_list.
  - cbn. by rewrite child_name_snoc.
Qed.

Lemma isRooted_app p q : p <> "" -> isRooted (p ++ q) = isRooted p.
Proof. by destruct p. Qed.

Lemma render_snoc_ne r l x : x <> "" -> render (r, (l ++ [x])%list) <> "".
Proof.
  intros Hx. rewrite render_nonempty by (by destruct l).
  destruct l as [|y l].
  - destruct r, x; done.
  - rewrite join_snoc by done. destruct r, (join "/" (y :: l)); done.
Qed.

(** Joining a name to a path adds one element. *)
Lemma norm_Join p e r es :
  p <> "" -> proper e -> norm p = (r, es) ->
  Join p e <> "" /\ norm (Join p e) = (r, (es ++ [e])%list).
Proof.
  intros Hp He Hn. pose proof He as (He1 & _ & _ & Hs).
  assert (Join p e = Clean (p ++ "/" ++ e)) as ->.
  { unfold Join. destruct p; [done|]. by destruct e. }
  assert (Hk : norm (p ++ "/" ++ e) = (r, (es ++ [e])%list)).
  { unfold norm in *. rewrite isRooted_app by done. injection Hn as Hr Hes.
    rewrite Hr. f_equal.
    change (p ++ "/" ++ e) with (p ++ String slash e).
    rewrite split_app_slash, (split_no_slash e) by done.
    rewrite fold_left_app. cbn [fold_left]. rewrite proper_step by done.
    cbn [rev]. by rewrite Hr in Hes; rewrite Hes. }
  split; [|by rewrite norm_Clean].
  unfold Clean. rewrite Hk. by apply render_snoc_ne.
Qed.

Lemma render_Join p e r es :
  p <> "" -> proper e -> norm p = (r, es) ->
  Join p e = render (r, (es ++ [e])%list).
Proof.
  intros Hp He Hn. pose proof He as (He1 & _ & _ & Hs).
  assert (Join p e = Clean (p ++ "/" ++ e)) as ->.
  { unfold Join. destruct p; [done|]. by destruct e. }
  unfold Clean. rewrite <- norm_Clean.
  assert (Clean (p ++ "/" ++ e) = Join p e) as ->.
  { unfold Join. destruct p; [done|]. by destruct e. }
  by destruct (norm_Join p e r es Hp He Hn) as [_ ->].
Qed.

Lemma descend_app f r : forall a b pre nd0 nd,
  descend f r pre nd0 a = Found nd ->
  descend f r pre nd0 (a ++ b) = descend f r (pre ++ a) nd b.
Proof.
  induction a as [|x a IH]; intros b pre nd0 nd H.
  - cbn in H. injection H as ->. by rewrite app_nil_r.
  - cbn in H |- *. destruct nd0 as [|[]]; try discriminate.
    destruct (f !! (r, (pre ++ [x])%list)) as [y|] eqn:Hy.
    + rewrite (IH b _ _ _ H). by rewrite <- app_assoc.
    + destruct a; discriminate.
Qed.

Lemma stat_inr f p nd :
  stat f p = inr nd -> p <> "" /\ resolve f (norm p) = Found nd.
Proof.
  unfold stat. destruct p; [done|]. intros H. split; [done|].
  destruct (resolve f _); cbn in H; congruence.
Qed.

Lemma stat_resolve f p nd :
  p <> "" -> resolve f (norm p) = Found nd -> stat f p = inr nd.
Proof. intros Hp H. unfold stat. destruct p; [done|]. by rewrite H. Qed.

(** Every node that can be reached from the directory at [p] along proper
    names is passed to the walk function, with its cleaned path, its kind
    and no error. *)
Lemma walkDir_covers f r : forall below n p es nd nd',
  (List.length below <= n)%nat ->
  p <> "" -> norm p = (r, es) ->
  resolve f (r, es) = Found nd ->
  descend f r es nd below = Found nd' ->
  Forall proper below ->
  exists c, c ∈ walkDir n f p (node_isDir nd)
    /\ c_path c = match below with
                  | [] => p
                  | _ => render (r, (es ++ below)%list)
                  end
    /\ norm (c_path c) = (r, (es ++ below)%list)
    /\ c_entry c = Some (node_isDir nd') /\ c_err c = None.
Proof.
  induction below as [|e below IH]; intros n p es nd nd' Hn Hp Hnorm Hres Hd Hall.
  - cbn in Hd. injection Hd as <-.
    exists (Call p (Some (node_isDir nd)) None). rewrite app_nil_r.
    split; [destruct n; cbn [walkDir]; apply list_elem_of_here|done].
  - cbn in Hd. destruct nd as [|[]]; try discriminate.
    destruct (f !! (r, (es ++ [e])%list)) as [nd1|] eqn:Hl;
      [|destruct below; discriminate].
    inversion Hall as [|? ? He Hrest]; subst.
    destruct n as [|n]; [cbn in Hn; lia|].
    destruct (norm_Join p e r es Hp He Hnorm) as [Hj Hjn].
    assert (Hres1 : resolve f (r, (es ++ [e])%list) = Found nd1).
    { unfold resolve in *. cbn [fst snd] in *.
      rewrite (descend_app _ _ _ [e] _ _ _ Hres). cbn. by rewrite Hl. }
    destruct (IH n (Join p e) (es ++ [e])%list nd1 nd') as (c & Hin & Hpath & Hcn & Hce & Herr);
      [cbn in Hn; lia|done|done|done|done|done|].
    exists c. rewrite <- app_assoc in Hcn. cbn [app] in Hcn.
    split; [|split; [|done]].
    + cbn [walkDir node_isDir]. apply list_elem_of_further.
      unfold ReadDir. rewrite (stat_resolve f p (Dir true)) by (by rewrite ?Hnorm).
      apply list_elem_of_In, in_flat_map.
      exists (Dirent e (node_isDir nd1)). split; [|by apply list_elem_of_In].
      apply list_elem_of_In. rewrite Hnorm. by apply entries_elem.
    + rewrite Hpath. destruct below.
      * by apply render_Join.
      * by rewrite <- app_assoc.
Qed.

Lemma WalkDir_covers f root nd below nd' :
  stat f root = inr nd ->
  descend f (norm root).1 (norm root).2 nd below = Found nd' ->
  Forall proper below ->
  exists c, c ∈ WalkDir f root
    /\ c_path c = match below with
                  | [] => root
                  | _ => render ((norm root).1, ((norm root).2 ++ below)%list)
                  end
    /\ norm (c_path c) = ((norm root).1, ((norm root).2 ++ below)%list)
    /\ c_entry c = Some (node_isDir nd') /\ c_err c = None.
Proof.
  intros Hstat Hd Hall. unfold WalkDir. rewrite Hstat.
  destruct (stat_inr _ _ _ Hstat) as [Hp Hres].
  apply walkDir_covers; try done.
  apply descend_depth in Hd. lia.
Qed.

Lemma Ext_render_snoc r l x : Ext (render (r, (l ++ [x])%list)) = Ext x.
Proof.
  rewrite render_nonempty by (by destruct l).
  destruct l as [|y l].
  - destruct r; [|done].
    change ("/" ++ join "/" ([] ++ [x])) with ("" ++ String slash x).
    by rewrite Ext_app_slash.
  - rewrite join_snoc by done. rewrite <- str_app_assoc.
    by rewrite Ext_app_slash.
Qed.

(** Every file with the extension [.mjs] that can be reached below the
    package directory has an identical copy under the mirror, when the
    walk runs to its end and the mirror is apart from the cache. *)
Lemma every_reachable_mjs_is_mirrored w module gopackDir nd below name d :
  let root := "node_modules/" ++ module in
  let k := ((norm root).1, ((norm root).2 ++ below ++ [name])%list) in
  stat (fs w) root = inr nd ->
  descend (fs w) (norm root).1 (norm root).2 nd (below ++ [name])%list = Found (File d) ->
  Forall proper (below ++ [name])%list ->
  Ext name = ".mjs" ->
  (run (copyEntry gopackDir) w (WalkDir (fs w) root)).2 = Next ->
  separate gopackDir (WalkDir (fs w) root) ->
  ReadFile (fs w) (render k) = inr d
  /\ ReadFile (fs (copyNpmModule w module gopackDir)) (destOf gopackDir (render k)) = inr d.
Proof.
  intros root k Hstat Hd Hall Hext Hnext Hsep.
  destruct (WalkDir_covers _ _ _ _ _ Hstat Hd Hall) as (c & Hin & Hpath & Hcn & Hce & _).
  assert (Hp : c_path c = render k).
  { rewrite Hpath. by destruct below. }
  assert (Hsrc : is_source c = true).
  { unfold is_source. rewrite Hce. cbn. rewrite Hp. unfold k.
    rewrite app_assoc, Ext_render_snoc. by rewrite bool_decide_eq_true_2. }
  assert (Hread : ReadFile (fs w) (c_path c) = inr d).
  { destruct (stat_inr _ _ _ Hstat) as [_ Hres].
    unfold ReadFile. rewrite (stat_resolve _ _ (File d)); [done| |].
    - rewrite Hp. unfold k. rewrite app_assoc. apply render_snoc_ne.
      apply Forall_app in Hall as [_ Hname]. inversion Hname as [|? ? Hn]; subst.
      by destruct Hn.
    - rewrite Hcn. unfold resolve in *. cbn [fst snd].
      by rewrite (descend_app _ _ _ _ _ _ _ Hres). }
  rewrite <- Hp. split; [done|].
  rewrite copyNpmModule_fs. fold root.
  destruct (run (copyEntry gopackDir) w (WalkDir (fs w) root)) as [w1 fl] eqn:Hrun.
  cbn in Hnext. subst fl. cbn [fst].
  exact (run_copy_sources gopackDir _ w w1 Hrun Hsep c d Hin Hsrc Hread).
Qed.

End walk_reach.

(** The cache of [left-pad] holds a plain script, [util.js], that
    [findJSFile] would accept; the mirror builder does not copy it, while
    it does copy [index.mjs]. *)
Lemma plain_script_not_mirrored :
  let w' := copyNpmModule world_left_pad "left-pad" "public/spa/web_modules" in
  loadable "util.js" = true
  /\ at_path (fs world_left_pad) "node_modules/left-pad/util.js"
     = Some (File "export const u = 1;")
  /\ at_path (fs w') "public/spa/web_modules/left-pad/util.js" = None
  /\ at_path (fs w') "public/spa/web_modules/left-pad/index.mjs"
     = Some (File "export default 2;")
  /\ out w' = [].
Proof. vm_compute. repeat split; reflexivity. Qed.

(** C4, amended.  The mirror builder copies the entries of the walk that
    are not directories and whose extension is [.mjs], and nothing else:
    a directory or an entry with another extension, [.js] included, is
    skipped; every regular file found after the walk was there before or
    lies at the destination of such an entry; and when the walk ends
    without an error and the copies are kept separate, each such entry has
    its bytes at its destination, which for a path inside the cache is the
    same path below the mirror root; and the entries of the walk include
    every [.mjs] file that can be reached below the package directory, so
    that each of them has its copy. *)
Theorem mirror_builder_copies_mjs_only (w : world) (module gopackDir : string) :
  let cs := WalkDir (fs w) ("node_modules/" ++ module) in
  let w' := copyNpmModule w module gopackDir in
  (forall w0 c,
      c_err c = None -> is_source c = false ->
      copyEntry gopackDir w0 c = (w0, Next))
  /\ (forall k d,
        fs w' !! k = Some (File d) ->
        fs w !! k = Some (File d)
        \/ exists c, c ∈ cs /\ is_source c = true /\ k = destKey gopackDir c)
  /\ ((run (copyEntry gopackDir) w cs).2 = Next ->
      separate gopackDir cs ->
      forall c d,
        c ∈ cs -> is_source c = true ->
        ReadFile (fs w) (c_path c) = inr d ->
        ReadFile (fs w') (destOf gopackDir (c_path c)) = inr d)
  /\ (forall rest, destOf gopackDir ("node_modules" ++ rest) = gopackDir ++ rest)
  /\ ((run (copyEntry gopackDir) w cs).2 = Next ->
      separate gopackDir cs ->
      forall nd below name d,
        let root := Path.norm ("node_modules/" ++ module) in
        let file := Path.render (root.1, (root.2 ++ below ++ [name])%list) in
        stat (fs w) ("node_modules/" ++ module) = inr nd ->
        descend (fs w) root.1 root.2 nd (below ++ [name])%list = Found (File d) ->
        Forall proper (below ++ [name])%list ->
        Path.Ext name = ".mjs" ->
        ReadFile (fs w) file = inr d
        /\ ReadFile (fs w') (destOf gopackDir file) = inr d).
Proof.
  intros cs w'. split; [intros; by apply copyEntry_skip|].
  split; [|split; [|split; [apply destOf_cache|]]].
  3:{ intros Hnext Hsep nd below name d root file Hstat Hd Hall Hext.
      by apply (every_reachable_mjs_is_mirrored w module gopackDir nd below name d). }
  - intros k d Hk. subst w'. rewrite copyNpmModule_fs in Hk.
    by apply run_copy_files in Hk.
  - intros Hnext Hsep c d Hin Hs Hd. subst w'. rewrite copyNpmModule_fs.
    fold cs. destruct (run (copyEntry gopackDir) w cs) as [w1 fl] eqn:Hrun.
    cbn in Hnext. subst fl. cbn [fst].
    exact (run_copy_sources gopackDir cs w w1 Hrun Hsep c d Hin Hs Hd).
Qed.

Lemma mirror_builder_witness :
  let w' := copyNpmModule world_left_pad "left-pad" "public/spa/web_modules" in
  ReadFile (fs w') "public/spa/web_modules/left-pad/dist/pad.mjs" = inr "export default 3;"
  /\ copyEntry "public/spa/web_modules" world_left_pad
       (Call "node_modules/left-pad/util.js" (Some false) None)
     = (world_left_pad, Next)
  /\ ReadFile (fs w') "public/spa/web_modules/left-pad/index.mjs" = inr "export default 2;".
Proof.
  intros w'.
  destruct (mirror_builder_copies_mjs_only world_left_pad "left-pad"
              "public/spa/web_modules") as (Hskip & _ & Hcopy & _ & Hall).
  assert (Hsep : separate "public/spa/web_modules"
                   (WalkDir (fs world_left_pad) "node_modules/left-pad")).
  { split; apply (bool_decide_unpack _); vm_compute; exact I. }
  split; [|split].
  - apply (Hcopy eq_refl Hsep) with
      (c := Call "node_modules/left-pad/dist/pad.mjs" (Some false) None).
    + apply (bool_decide_unpack _). vm_compute. exact I.
    + vm_compute. reflexivity.
    + vm_compute. reflexivity.
  - apply Hskip; vm_compute; reflexivity.
  - refine (proj2 (Hall eq_refl Hsep (Dir true) [] "index.mjs" "export default 2;" _ _ _ _)).
    + vm_compute. reflexivity.
    + vm_compute. reflexivity.
    + repeat constructor; done.
    + vm_compute. reflexivity.
Defined.

(** ** The lookup in the mirror when the package directory exists *)

Lemma findJSFile_jsIn w path : (findJSFile w path).2 = jsIn (fs w) path.
Proof. unfold findJSFile, jsIn. by destruct (ReadDir _ _). Qed.

(** [findJSFile] returns the last loadable entry of the listing. *)
Lemma pickJS_last path before f after :
  loadable (d_name f) = true ->
  Forall (fun g => loadable (d_name g) = false) after ->
  pickJS path (before ++ f :: after) = path ++ "/" ++ d_name f.
Proof.
  intros Hf Hafter. unfold pickJS. rewrite fold_left_app. cbn [fold_left].
  rewrite Hf. generalize (path ++ "/" ++ d_name f) as acc.
  induction Hafter as [|g after Hg _ IH]; intros acc; [done|].
  cbn [fold_left]. rewrite Hg. apply IH.
Qed.

(** The files directly in the package directory come first. *)
Lemma checkNpmPath_direct w buildPath pathStr :
  let namedPath := buildPath ++ "/spa/web_modules/" ++ pathStr in
  jsIn (fs w) namedPath <> "" ->
  checkNpmPath w buildPath pathStr
  = ((findJSFile w namedPath).1, inr (jsIn (fs w) namedPath)).
Proof.
  intros namedPath Hne. unfold checkNpmPath. fold namedPath.
  rewrite <- findJSFile_jsIn in *.
  destruct (findJSFile w namedPath) as [w1 fp]. cbn [snd fst] in *.
  by rewrite bool_decide_eq_false_2.
Qed.

Lemma walkDir_entries n : forall f p d,
  Forall (fun c => c_entry c <> None) (walkDir n f p d).
Proof.
  induction n as [|n IH]; intros f p d; cbn [walkDir].
  - constructor; [done|]. destruct d; constructor.
  - constructor; [done|]. destruct d; [|constructor].
    destruct (ReadDir f p) as [e|ds]; [by repeat constructor|].
    induction ds as [|x ds IHds]; [constructor|].
    cbn [flat_map]. apply Forall_app. split; [apply IH | exact IHds].
Qed.

Lemma checkEntry_cases st c :
  fs (checkEntry st c).1.1 = fs st.1
  /\ match c_entry c with
     | Some true =>
         (checkEntry st c).1.2 = jsIn (fs st.1) (c_path c)
         /\ (checkEntry st c).2
            = (if bool_decide (jsIn (fs st.1) (c_path c) <> "")
               then Halt StopEOF else Next)
     | Some false => (checkEntry st c).1.2 = st.2 /\ (checkEntry st c).2 = Next
     | None => (checkEntry st c).2 = Halt StopPanic
     end.
Proof.
  split; [apply checkEntry_fs|]. unfold checkEntry.
  set (w := match c_err c with Some e => _ | None => _ end).
  assert (Hw : fs w = fs st.1) by (subst w; by destruct (c_err c)).
  destruct (c_entry c) as [[]|]; [|done|done].
  pose proof (findJSFile_jsIn w (c_path c)) as Hj. rewrite Hw in Hj.
  destruct (findJSFile w (c_path c)) as [w' fp]. cbn [snd] in Hj. subst fp.
  by destruct (bool_decide _).
Qed.

(** On calls with entries the walk function never panics, and it stops
    at the first directory in which [findJSFile] finds a file. *)
Lemma run_check_first cs : forall st,
  Forall (fun c => c_entry c <> None) cs -> st.2 = "" ->
  (run checkEntry st cs).2 <> Halt StopPanic
  /\ (run checkEntry st cs).1.2 = firstDirWithJS (fs st.1) cs.
Proof.
  induction cs as [|c cs IH]; intros st Hall Hst; [done|].
  inversion Hall as [|? ? Hc Hcs]; subst. cbn [run firstDirWithJS].
  destruct (checkEntry_cases st c) as [Hfs Hcase].
  destruct (c_entry c) as [[]|]; [| |done].
  - destruct Hcase as [Hfound Hflow].
    destruct (checkEntry st c) as [st' fl]. cbn [fst snd] in *. subst fl.
    destruct (bool_decide (jsIn (fs st.1) (c_path c) <> "")) eqn:Hb; [done|].
    apply bool_decide_eq_false in Hb.
    destruct (IH st') as [H1 H2]; [done| |].
    { rewrite Hfound. by destruct (decide (jsIn (fs st.1) (c_path c) = "")). }
    by rewrite Hfs in H2.
  - destruct Hcase as [Hfound Hflow].
    destruct (checkEntry st c) as [st' fl]. cbn [fst snd] in *. subst fl.
    destruct (IH st') as [H1 H2]; [done | congruence |].
    by rewrite Hfs in H2.
Qed.

(** When the package directory exists, the lookup returns the file found
    directly in it or else in the first directory of the walk that has
    one, and the empty path when there is none. *)
Lemma checkNpmPath_existing w buildPath pathStr nd :
  let namedPath := buildPath ++ "/spa/web_modules/" ++ pathStr in
  stat (fs w) namedPath = inr nd ->
  (checkNpmPath w buildPath pathStr).2
  = inr (if bool_decide (jsIn (fs w) namedPath <> "")
         then jsIn (fs w) namedPath
         else firstDirWithJS (fs w) (WalkDir (fs w) namedPath)).
Proof.
  intros namedPath Hstat.
  destruct (decide (jsIn (fs w) namedPath <> "")) as [Hne|He].
  { rewrite checkNpmPath_direct by done. by rewrite bool_decide_eq_true_2. }
  rewrite (bool_decide_eq_false_2 _ He).
  unfold checkNpmPath. fold namedPath.
  pose proof (findJSFile_jsIn w namedPath) as Hj.
  pose proof (findJSFile_fs w namedPath) as Hfs.
  destruct (findJSFile w namedPath) as [w1 fp]. cbn [fst snd] in *.
  assert (fp = "") as ->.
  { destruct (decide (jsIn (fs w) namedPath = "")) as [E|E]; [congruence | by destruct (He E)]. }
  rewrite bool_decide_eq_true_2 by done. rewrite Hfs.
  destruct (run_check_first (WalkDir (fs w) namedPath) (w1, "")) as [H1 H2]; [|done|].
  { unfold WalkDir. rewrite Hstat. apply walkDir_entries. }
  cbn [fst] in H2. rewrite Hfs in H2.
  destruct (run checkEntry (w1, "") (WalkDir (fs w) namedPath)) as [st [|[]]];
    cbn [fst snd] in *; congruence.
Qed.

Lemma mirror_lookup_examples :
  (checkNpmPath world_nested_mirror "public" "pkg").2
  = inr "public/spa/web_modules/pkg/dist/pkg.mjs"
  /\ (checkNpmPath world_nested_mirror "public" "two").2
     = inr "public/spa/web_modules/two/b.mjs"
  /\ (checkNpmPath world_nested_mirror "public" "none").2 = inr "".
Proof. vm_compute. repeat split; reflexivity. Qed.

(** ** A reference that is neither local nor a package *)

(** A path that starts with a dot or has an extension and whose location
    does not exist is left as it is, and the warning is printed. *)
Lemma unresolved_relative_reference_kept rec buildPath convertPath st s :
  fileExists (fs (l_world st)) (fullPathOf convertPath (pathOf s)) = false ->
  isBare (pathOf s) = Some false ->
  resolveStatement rec buildPath convertPath st s
  = inl (Loop (say (l_world st) (MUnresolved (pathOf s) convertPath))
              (l_content st) (l_converted st)).
Proof.
  intros He Hb. unfold resolveStatement, resolveLocal. rewrite He. cbn [aborts].
  rewrite Hb. unfold applyFound. by rewrite bool_decide_eq_false_2 by (by intros []).
Qed.

(** ** Dynamic imports that are alone on their line *)

Lemma prefix_drop (a s : string) :
  String.prefix a s = true -> a ++ Str.drop (String.length a) s = s.
Proof.
  revert s. induction a as [|c a IH]; intros s H; [done|].
  destruct s as [|d s]; [done|]. simpl in H.
  destruct (ascii_dec c d) as [->|]; [|done].
  change (String d (a ++ Str.drop (String.length a) s) = String d s).
  by rewrite IH.
Qed.

Lemma replace1_same s old : Str.replace1 s old old = s.
Proof.
  induction s as [|c s IH].
  - cbn. unfold Str.hasPrefix. destruct old; done.
  - change (Str.replace1 (String c s) old old)
      with (if Str.hasPrefix (String c s) old
            then old ++ Str.drop (String.length old) (String c s)
            else String c (Str.replace1 s old old)).
    destruct (Str.hasPrefix (String c s) old) eqn:Hp.
    + by apply prefix_drop.
    + by rewrite IH.
Qed.

(** A text in which no dynamic import mentions [.svelte] is left as it
    is. *)
Lemma fixDynamicImports_unchanged contentBytes :
  Forall (fun m => Str.replace1 m ".svelte" ".js" = m)
         (FindAll reDynamicImport contentBytes) ->
  fixDynamicImports contentBytes = contentBytes.
Proof.
  unfold fixDynamicImports.
  generalize (FindAll reDynamicImport contentBytes) as ms.
  intros ms Hall. induction Hall as [|m ms Hm _ IH]; [done|].
  cbn [fold_left]. by rewrite Hm, replace1_same.
Qed.

Lemma dynamic_import_examples :
  fixDynamicImports "const a = import('./a.svelte');
const b = import('./b.svelte');
" = "const a = import('./a.js');
const b = import('./b.js');
"
  /\ fixDynamicImports "const a = import('./a.js');" = "const a = import('./a.js');".
Proof. vm_compute. split; reflexivity. Qed.

(** * Further properties *)

(** ** Nothing is ever removed *)

Global Instance keeps_preorder : PreOrder keeps.
Proof.
  split.
  - intros f k nd H. by exists nd.
  - intros f g h H1 H2 k nd Hk.
    destruct (H1 k nd Hk) as (nd1 & Hg & S1).
    destruct (H2 k nd1 Hg) as (nd2 & Hh & S2).
    exists nd2. split; [done | congruence].
Qed.

Lemma extends_keeps f f' : extends f f' -> keeps f f'.
Proof.
  intros He k nd Hk. exists nd. split; [|done].
  destruct (He k) as [->|[Hn _]]; [done | congruence].
Qed.

Lemma WriteFile_keeps f p d f' : WriteFile f p d = inr f' -> keeps f f'.
Proof.
  intros Hw. apply WriteFile_inr in Hw as (-> & Hres & _).
  intros k nd Hk. destruct (decide (k = Path.norm p)) as [->|Hne].
  - rewrite lookup_insert_eq. exists (File d). split; [done|].
    destruct Hres as [Hnl | [d0 Hf]].
    + apply resolve_NoLeaf in Hnl. congruence.
    + apply resolve_File_lookup in Hf. by assert (nd = File d0) as -> by congruence.
  - rewrite lookup_insert_ne by done. by exists nd.
Qed.

Lemma copyEntry_keeps gopackDir w c : keeps (fs w) (fs (copyEntry gopackDir w c).1).
Proof.
  unfold copyEntry. destruct (c_err c); [done|].
  destruct (negb _ && bool_decide _); [|done].
  destruct (stat (fs w) (c_path c)) as [e|from]; [done|].
  destruct (MkdirAll _ _) as [e|f1] eqn:Hm; [done|].
  assert (H1 : keeps (fs w) f1).
  { apply extends_keeps, adds_dirs_extends. by apply MkdirAll_adds_dirs in Hm. }
  destruct from as [data|o].
  - destruct (WriteFile f1 _ data) as [e|f2] eqn:Hw; [done|].
    cbn. etrans; [exact H1|]. by apply WriteFile_keeps in Hw.
  - destruct (WriteFile f1 _ "") as [e|f2] eqn:Hw; [done|].
    cbn. etrans; [exact H1|]. by apply WriteFile_keeps in Hw.
Qed.

Lemma run_copy_keeps gopackDir cs : forall w,
  keeps (fs w) (fs (run (copyEntry gopackDir) w cs).1).
Proof.
  induction cs as [|c cs IH]; intros w; [done|]. cbn [run].
  pose proof (copyEntry_keeps gopackDir w c) as Hc.
  destruct (copyEntry gopackDir w c) as [w1 [|e]]; [|done].
  etrans; [exact Hc | apply IH].
Qed.

Lemma copyNpmModule_keeps w module gopackDir :
  keeps (fs w) (fs (copyNpmModule w module gopackDir)).
Proof. rewrite copyNpmModule_fs. apply run_copy_keeps. Qed.

Lemma resolveBare_keeps buildPath convertPath w pathStr :
  keeps (fs w) (fs (resolveBare buildPath convertPath w pathStr).1).
Proof.
  unfold resolveBare.
  pose proof (copyNpmModule_keeps w pathStr (buildPath ++ "/spa/web_modules")) as Hc.
  pose proof (checkNpmPath_fs (copyNpmModule w pathStr (buildPath ++ "/spa/web_modules"))
                buildPath pathStr) as Hfs.
  destruct (checkNpmPath _ _ _) as [w2 [pk|fp]]; cbn [fst] in *.
  - by rewrite Hfs.
  - destruct (Path.Rel _ _); cbn; by rewrite Hfs.
Qed.

Section never_removed.
Variable rec : rec_call.
Hypothesis Hrec : keeps_rec rec.
Variables buildPath convertPath : string.

Lemma resolveLocal_keeps st pathStr :
  keeps (fs (l_world st))
        (fs (l_world (resolveLocal rec buildPath convertPath st pathStr).1.1)).
Proof.
  unfold resolveLocal. destruct (fileExists _ _); [|done].
  pose proof (Hrec (say (say (l_world st) (MFullpath (fullPathOf convertPath pathStr)))
                        (MConvertpath convertPath))
                buildPath (fullPathOf convertPath pathStr)
                (l_converted st ++ [convertPath])%list) as H.
  by destruct (rec _ _ _ _).
Qed.

Lemma resolveStatement_keeps st s :
  keeps_step (fs (l_world st)) (resolveStatement rec buildPath convertPath st s).
Proof.
  unfold resolveStatement.
  pose proof (resolveLocal_keeps st (pathOf s)) as Hl.
  destruct (resolveLocal rec buildPath convertPath st (pathOf s)) as [[st1 found] o].
  cbn [fst] in Hl.
  destruct (aborts o); [done|].
  destruct (isBare (pathOf s)) as [[]|]; [| |done].
  - pose proof (resolveBare_keeps buildPath convertPath (l_world st1) (pathOf s)) as Hb.
    destruct (resolveBare _ _ _ _) as [w2 [pk|fp]]; cbn [fst] in Hb.
    + cbn. by etrans.
    + unfold keeps_step. rewrite (proj1 (applyFound_fs _ _ _ _ _ _)). cbn. by etrans.
  - unfold keeps_step. by rewrite (proj1 (applyFound_fs _ _ _ _ _ _)).
Qed.

Lemma resolveAll_keeps ss : forall st,
  keeps_step (fs (l_world st)) (resolveAll rec buildPath convertPath st ss).
Proof.
  induction ss as [|s ss IH]; intros st; [cbn; reflexivity|]. cbn [resolveAll].
  pose proof (resolveStatement_keeps st s) as Hs.
  destruct (resolveStatement rec buildPath convertPath st s) as [st'|wo]; [|done].
  cbn in Hs. specialize (IH st').
  destruct (resolveAll rec buildPath convertPath st' ss); cbn in *; by etrans.
Qed.

Lemma runPackF_keeps w converted :
  keeps (fs w) (fs (runPackF rec w buildPath convertPath converted).1).
Proof.
  unfold runPackF. destruct (bool_decide _); [done|].
  destruct (ReadFile (fs w) convertPath) as [e|c]; [done|].
  pose proof (resolveAll_keeps (allStaticStatements (fixDynamicImports c))
                (Loop (visit w convertPath) (fixDynamicImports c) converted)) as Ha.
  destruct (resolveAll _ _ _ _ _) as [st|wo]; [|done].
  cbn in Ha.
  destruct (WriteFile _ _ _) as [e|f] eqn:Hw; [done|].
  cbn. etrans; [exact Ha|]. by apply WriteFile_keeps in Hw.
Qed.

End never_removed.

Lemma runPack_keeps n : keeps_rec (runPack n).
Proof.
  induction n as [|n IH]; intros w buildPath convertPath converted; [done|].
  cbn [runPack]. by apply runPackF_keeps.
Qed.

(** [Gopack] and [runPack] never remove a file or a directory, never turn
    one into the other and never change the lock of a directory: whatever
    the run does and however it ends, every path that held a node holds a
    node of the same kind afterwards. *)
Theorem Gopack_removes_nothing (n : nat) (w : world) (buildPath convertPath : string)
    (converted : list string) :
  keeps (fs w) (fs (Gopack n w buildPath).1)
  /\ keeps (fs w) (fs (runPack n w buildPath convertPath converted).1).
Proof.
  split; [|apply runPack_keeps].
  unfold Gopack.
  pose proof (runPack_keeps n
                (say w (MLog "Running gopack to build esm support for npm dependencies"))
                buildPath (buildPath ++ "/spa/ejected/main.js") []) as H.
  by destruct (runPack _ _ _ _ _).
Qed.

(** ** What [findJSFile] and [checkNpmPath] return *)

Global Instance name_le_trans : Transitive name_le.
Proof. intros a b c. unfold name_le. apply (transitivity (R := String.le)). Qed.

Global Instance name_le_total : Total name_le.
Proof. intros a b. unfold name_le. apply (total String.le). Qed.

Lemma entries_sorted f d : StronglySorted name_le (entries f d).
Proof. unfold entries. apply StronglySorted_merge_sort; apply _. Qed.

(** The loop of [findJSFile] ends with nothing when no name is loadable,
    and otherwise with the last loadable entry of the listing. *)
Lemma pickJS_cases path files :
  (pickJS path files = "" /\ Forall (fun g => loadable (d_name g) = false) files)
  \/ exists before f after,
       files = (before ++ f :: after)%list
       /\ loadable (d_name f) = true
       /\ Forall (fun g => loadable (d_name g) = false) after
       /\ pickJS path files = path ++ "/" ++ d_name f.
Proof.
  induction files as [|g files IH] using rev_ind.
  - left. by split.
  - destruct (loadable (d_name g)) eqn:Hg.
    + right. exists files, g, []. split; [done|]. split; [done|]. split; [constructor|].
      by apply pickJS_last.
    + assert (Hsnoc : pickJS path (files ++ [g]) = pickJS path files).
      { unfold pickJS. rewrite fold_left_app. cbn [fold_left]. by rewrite Hg. }
      rewrite Hsnoc. destruct IH as [[He Hall] | (before & f & after & -> & Hf & Hafter & Hp)].
      * left. split; [done|]. apply Forall_app. split; [done|]. by constructor.
      * right. exists before, f, (after ++ [g])%list.
        split; [by rewrite <- app_assoc|]. split; [done|]. split; [|done].
        apply Forall_app. split; [done|]. by constructor.
Qed.

Lemma loadable_in path name : loadable (path ++ "/" ++ name) = loadable name.
Proof.
  unfold loadable. change (path ++ "/" ++ name) with (path ++ String Str.slash name).
  by rewrite Ext_app_slash.
Qed.

Lemma pickJS_loadable path files :
  pickJS path files <> "" -> loadable (pickJS path files) = true.
Proof.
  destruct (pickJS_cases path files) as [[-> _] | (b & f & a & _ & Hf & _ & ->)]; [done|].
  intros _. by rewrite loadable_in.
Qed.

Lemma jsIn_loadable f path : jsIn f path <> "" -> loadable (jsIn f path) = true.
Proof.
  unfold jsIn. destruct (ReadDir f path); [done|]. apply pickJS_loadable.
Qed.

Lemma firstDirWithJS_loadable f cs :
  firstDirWithJS f cs <> "" -> loadable (firstDirWithJS f cs) = true.
Proof.
  induction cs as [|c cs IH]; [done|]. cbn [firstDirWithJS].
  destruct (c_entry c) as [[]|]; try done.
  destruct (bool_decide (jsIn f (c_path c) <> "")) eqn:Hb; [|done].
  intros _. apply jsIn_loadable. by apply bool_decide_eq_true in Hb.
Qed.

(** [findJSFile] on a directory that cannot be listed prints the error
    and returns the empty path.  On a listing it prints nothing and
    returns the entry with a loadable extension whose name comes last in
    the order of the listing (by name), a directory with such a name
    included; it returns the empty path exactly when no entry is
    loadable. *)
Theorem findJSFile_returns_last_loadable_name (w : world) (path : string) :
  match ReadDir (fs w) path with
  | inl e => findJSFile w path = (say w (MCantReadDir path e), "")
  | inr files =>
      (findJSFile w path).1 = w
      /\ (((findJSFile w path).2 = ""
           /\ Forall (fun g => loadable (d_name g) = false) files)
          \/ exists f,
               f ∈ files /\ loadable (d_name f) = true
               /\ (findJSFile w path).2 = path ++ "/" ++ d_name f
               /\ forall g, g ∈ files -> loadable (d_name g) = true ->
                            String.le (d_name g) (d_name f))
  end.
Proof.
  destruct (ReadDir (fs w) path) as [e|files] eqn:Hr.
  - unfold findJSFile. by rewrite Hr.
  - assert (Hs : StronglySorted name_le files).
    { unfold ReadDir in Hr. destruct (stat (fs w) path) as [|[|[]]]; try discriminate.
      injection Hr as <-. apply entries_sorted. }
    unfold findJSFile. rewrite Hr. cbn [fst snd]. split; [done|].
    destruct (pickJS_cases path files) as [H | (before & f & after & -> & Hf & Hafter & Hp)];
      [by left|].
    right. exists f. split; [|split; [done|split; [done|]]].
    { apply elem_of_app. right. apply list_elem_of_here. }
    intros g Hg Hgl. apply elem_of_app in Hg as [Hg|Hg].
    + by apply (StronglySorted_app_1_elem_of name_le before (f :: after) g f Hs Hg), list_elem_of_here.
    + apply elem_of_cons in Hg as [->|Hg]; [done|].
      rewrite Forall_forall in Hafter. apply Hafter in Hg. congruence.
Qed.

(** When the mirrored directory of the package exists, [checkNpmPath]
    does not panic and changes no file: it returns the file [findJSFile]
    finds directly in the directory, or else the one it finds in the
    first directory of the walk that has one, or else the empty path.  A
    path it returns has the extension [.js] or [.mjs]. *)
Theorem checkNpmPath_existing_directory (w : world) (buildPath pathStr : string) (nd : node) :
  let namedPath := buildPath ++ "/spa/web_modules/" ++ pathStr in
  stat (fs w) namedPath = inr nd ->
  fs (checkNpmPath w buildPath pathStr).1 = fs w
  /\ exists foundPath,
       (checkNpmPath w buildPath pathStr).2 = inr foundPath
       /\ foundPath = (if bool_decide (jsIn (fs w) namedPath <> "")
                       then jsIn (fs w) namedPath
                       else firstDirWithJS (fs w) (WalkDir (fs w) namedPath))
       /\ (foundPath <> "" -> loadable foundPath = true).
Proof.
  intros namedPath Hstat. split; [apply checkNpmPath_fs|].
  eexists. split; [by apply (checkNpmPath_existing w buildPath pathStr nd)|].
  split; [done|].
  match goal with |- context [bool_decide ?P] => destruct (bool_decide P) end.
  - apply jsIn_loadable.
  - apply firstDirWithJS_loadable.
Qed.

Lemma checkNpmPath_existing_directory_witness :
  (checkNpmPath world_nested_mirror "public" "pkg").2
  = inr "public/spa/web_modules/pkg/dist/pkg.mjs".
Proof.
  destruct (checkNpmPath_existing_directory world_nested_mirror "public" "pkg" (Dir true))
    as (_ & p & Hp & -> & _).
  - vm_compute. reflexivity.
  - rewrite Hp. vm_compute. reflexivity.
Defined.

(** ** Errors of the mirror builder *)

Lemma run_app {St E : Type} (fn : St -> call -> St * flow E) (a b : list call) : forall st,
  run fn st (a ++ b)
  = match run fn st a with
    | (st', Next) => run fn st' b
    | r => r
    end.
Proof.
  induction a as [|c a IH]; intros st; [done|]. cbn [run app].
  destruct (fn st c) as [st' [|e]]; [apply IH | done].
Qed.

(** For a package that is not in the cache (the root of the walk cannot
    be stat-ed), [copyNpmModule] prints the one line with the error and
    changes nothing else. *)
Theorem copyNpmModule_absent_package (w : world) (module gopackDir : string) (e : errno) :
  stat (fs w) ("node_modules/" ++ module) = inl e ->
  copyNpmModule w module gopackDir
  = say w (MNodeModule (CantStat ("node_modules/" ++ module) e)).
Proof.
  intros Hstat. unfold copyNpmModule, WalkDir. rewrite Hstat. reflexivity.
Qed.

Lemma copyNpmModule_absent_package_witness :
  copyNpmModule world_absent_package "left-pad" "public/spa/web_modules"
  = say world_absent_package (MNodeModule (CantStat "node_modules/left-pad" ENOENT)).
Proof.
  apply (copyNpmModule_absent_package world_absent_package "left-pad"
           "public/spa/web_modules" ENOENT).
  vm_compute. reflexivity.
Defined.

(** The first entry that the walk reports with an error ends the copy:
    the entries before it have been handled, the error is printed, and no
    entry after it is looked at. *)
Theorem copyNpmModule_stops_at_first_error (w : world) (module gopackDir : string)
    (before after : list call) (c : call) (e : errno) :
  WalkDir (fs w) ("node_modules/" ++ module) = (before ++ c :: after)%list ->
  (run (copyEntry gopackDir) w before).2 = Next ->
  c_err c = Some e ->
  copyNpmModule w module gopackDir
  = say (run (copyEntry gopackDir) w before).1 (MNodeModule (CantStat (c_path c) e)).
Proof.
  intros Hwalk Hnext He. unfold copyNpmModule. rewrite Hwalk, run_app.
  destruct (run (copyEntry gopackDir) w before) as [w1 fl]. cbn in Hnext. subst fl.
  cbn [run fst]. unfold copyEntry. by rewrite He.
Qed.

Lemma copyNpmModule_stops_at_first_error_witness :
  let w' := copyNpmModule world_locked_package "pkg" "public/spa/web_modules" in
  out w' = [MNodeModule (CantStat "node_modules/pkg/lib" EACCES)]
  /\ at_path (fs w') "public/spa/web_modules/pkg/a.mjs" = Some (File "export default 1;")
  /\ at_path (fs w') "public/spa/web_modules/pkg/z.mjs" = None.
Proof.
  intros w'. subst w'.
  rewrite (copyNpmModule_stops_at_first_error world_locked_package "pkg"
             "public/spa/web_modules"
             [Call "node_modules/pkg" (Some true) None;
              Call "node_modules/pkg/a.mjs" (Some false) None;
              Call "node_modules/pkg/lib" (Some true) None]
             [Call "node_modules/pkg/z.mjs" (Some false) None]
             (Call "node_modules/pkg/lib" (Some true) (Some EACCES)) EACCES).
  - vm_compute. repeat split; reflexivity.
  - vm_compute. reflexivity.
  - vm_compute. reflexivity.
  - reflexivity.
Defined.

(** ** What the mirror builder leaves alone *)

Lemma copyEntry_lookup gopackDir w c k nd :
  fs w !! k = Some nd ->
  (is_source c = true -> destKey gopackDir c <> k) ->
  fs (copyEntry gopackDir w c).1 !! k = Some nd.
Proof.
  intros Hk Hne. unfold copyEntry. destruct (c_err c); [done|].
  unfold is_source, destKey, destOf in Hne.
  destruct (negb _ && bool_decide _); [|done].
  specialize (Hne eq_refl).
  destruct (stat (fs w) (c_path c)) as [e|from]; [done|].
  destruct (MkdirAll _ _) as [e|f1] eqn:Hm; [done|].
  assert (H1 : f1 !! k = Some nd).
  { apply MkdirAll_adds_dirs in Hm. destruct (Hm k) as [->|[Hn _]]; [done | congruence]. }
  destruct from as [data|o].
  - destruct (WriteFile f1 _ data) as [e|f2] eqn:Hw; [done|].
    apply WriteFile_inr in Hw as (-> & _). cbn. by rewrite lookup_insert_ne.
  - destruct (WriteFile f1 _ "") as [e|f2] eqn:Hw; [done|].
    apply WriteFile_inr in Hw as (-> & _). cbn. by rewrite lookup_insert_ne.
Qed.

Lemma run_copy_lookup gopackDir cs : forall w k nd,
  fs w !! k = Some nd ->
  Forall (fun c => destKey gopackDir c <> k) (sources cs) ->
  fs (run (copyEntry gopackDir) w cs).1 !! k = Some nd.
Proof.
  induction cs as [|c cs IH]; intros w k nd Hk Hne; [done|]. cbn [run].
  unfold sources in Hne. rewrite filter_cons in Hne.
  assert (Hc : is_source c = true -> destKey gopackDir c <> k).
  { intros Hs. destruct (decide (is_source c = true)); [by inversion Hne | done]. }
  pose proof (copyEntry_lookup gopackDir w c k nd Hk Hc) as H1.
  destruct (copyEntry gopackDir w c) as [w1 [|e]]; [|done].
  apply IH; [done|].
  destruct (decide (is_source c = true)); [by inversion Hne | done].
Qed.

(** Whatever happens during the copy, a node that is not stored where
    the copy of a module file goes is left exactly as it was: the mirror
    builder overwrites nothing but the destinations of the [.mjs] entries
    of its walk. *)
Theorem copyNpmModule_changes_only_destinations (w : world) (module gopackDir : string)
    (k : bool * list string) (nd : node) :
  fs w !! k = Some nd ->
  Forall (fun c => destKey gopackDir c <> k)
         (sources (WalkDir (fs w) ("node_modules/" ++ module))) ->
  fs (copyNpmModule w module gopackDir) !! k = Some nd.
Proof.
  intros Hk Hne. rewrite copyNpmModule_fs. by apply run_copy_lookup.
Qed.

Lemma copyNpmModule_changes_only_destinations_witness :
  at_path (fs (copyNpmModule world_left_pad "left-pad" "public/spa/web_modules"))
          "node_modules/left-pad/index.mjs"
  = Some (File "export default 2;").
Proof.
  apply (copyNpmModule_changes_only_destinations world_left_pad "left-pad"
           "public/spa/web_modules").
  - vm_compute. reflexivity.
  - apply (bool_decide_unpack _). vm_compute. exact I.
Defined.

(** ** The entry module cannot be read *)

(** When the entry module cannot be read, [Gopack] prints its first line
    and returns as if nothing had happened: the error [runPack] returns is
    dropped and no line is printed for it. *)
Theorem Gopack_unreadable_entry (n : nat) (w : world) (buildPath : string) (e : errno) :
  ReadFile (fs w) (buildPath ++ "/spa/ejected/main.js") = inl e ->
  Gopack (S n) w buildPath
  = (say w (MLog "Running gopack to build esm support for npm dependencies"), Ok).
Proof.
  intros Hread. unfold Gopack. cbn [runPack].
  by rewrite (runPackF_unreadable _ _ _ _ _ e) by (done || apply not_elem_of_nil).
Qed.

Lemma Gopack_unreadable_entry_witness :
  Gopack 1 (mkWorld [("public", Dir true)]) "public"
  = (say (mkWorld [("public", Dir true)])
         (MLog "Running gopack to build esm support for npm dependencies"), Ok).
Proof.
  apply (Gopack_unreadable_entry 0 (mkWorld [("public", Dir true)]) "public" ENOENT).
  vm_compute. reflexivity.
Defined.

(** ** A module whose references lead nowhere *)

Lemma resolveAll_dangling rec buildPath convertPath ss : forall st,
  Forall (dangling (fs (l_world st)) convertPath) ss ->
  resolveAll rec buildPath convertPath st ss
  = inl (Loop (World (fs (l_world st))
                     (out (l_world st)
                        ++ map (fun s => MUnresolved (pathOf s) convertPath) ss)
                     (visits (l_world st)))
              (l_content st) (l_converted st)).
Proof.
  induction ss as [|s ss IH]; intros st Hall.
  - cbn. rewrite app_nil_r. by destruct st as [[] ? ?].
  - inversion Hall as [|? ? [He Hb] Hrest]; subst. cbn [resolveAll].
    rewrite unresolved_relative_reference_kept by done.
    rewrite IH by done. cbn. by rewrite <- app_assoc.
Qed.

(** A module is read, and every one of its static statements has a path
    that starts with a dot or carries an extension and names nothing on
    disk.  Then no other module is read and nothing is copied: one warning
    per statement is printed, imports first, then exports, and the module
    is written back with the text it had once the dynamic imports were
    fixed. *)
Theorem module_with_dangling_references (rec : rec_call) (w : world)
    (buildPath convertPath contentBytes : string) (converted : list string) :
  let fixed := fixDynamicImports contentBytes in
  convertPath ∉ converted ->
  ReadFile (fs w) convertPath = inr contentBytes ->
  Forall (dangling (fs w) convertPath) (allStaticStatements fixed) ->
  runPackF rec w buildPath convertPath converted
  = (World (<[Path.norm convertPath := File fixed]> (fs w))
           (out w ++ map (fun s => MUnresolved (pathOf s) convertPath)
                         (allStaticStatements fixed))
           (visits w ++ [convertPath]),
     Ok).
Proof.
  intros fixed Hnin Hread Hall. unfold runPackF.
  rewrite bool_decide_eq_false_2 by done. rewrite Hread. fold fixed.
  rewrite resolveAll_dangling by done. cbn [l_world l_content fs out visits visit].
  unfold ReadFile in Hread.
  destruct (stat (fs w) convertPath) as [|[d0|]] eqn:Hstat; try discriminate.
  destruct (WriteFile_existing (fs w) convertPath d0 fixed Hstat) as (-> & _).
  reflexivity.
Qed.

Lemma module_with_dangling_references_witness :
  let r := runPackF rec_nop world_dangling "site" "site/main.js" [] in
  out r.1 = [MUnresolved "./missing.js" "site/main.js"]
  /\ visits r.1 = ["site/main.js"]
  /\ r.2 = Ok.
Proof.
  intros r. subst r.
  rewrite (module_with_dangling_references rec_nop world_dangling "site" "site/main.js"
             "import x from './missing.js';
" []).
  - vm_compute. repeat split; reflexivity.
  - apply not_elem_of_nil.
  - vm_compute. reflexivity.
  - apply (bool_decide_unpack _). vm_compute. exact I.
Defined.

(** ** What the expressions can match *)

Lemma lastb_app prev a b : lastb prev (a ++ b) = lastb (lastb prev a) b.
Proof. revert prev. induction a as [|c a IH]; intros prev; [done|]. apply IH. Qed.

Lemma step_if_sound f s k x :
  step_if f s k = Some x ->
  exists d s', s = String d s' /\ f d = true /\ k (Some d) s' = Some x.
Proof.
  unfold step_if. destruct s as [|d s']; [done|].
  destruct (f d) eqn:Hf; [|done]. intros H. by exists d, s'.
Qed.

(** The search is sound: what [exec] accepts, the expression stands
    for. *)
Lemma exec_sound r : forall prev s k x,
  exec r prev s k = Some x ->
  exists m s', s = m ++ s' /\ den r prev m /\ k (lastb prev m) s' = Some x.
Proof.
  induction r as [| c | | | | r1 IH1 r2 IH2 | r1 IH1 r2 IH2 | r IH];
    intros prev s k x H.
  - exists "", s. repeat split; [constructor | done].
  - apply step_if_sound in H as (d & s' & -> & Hd & Hk).
    apply bool_decide_eq_true in Hd as ->.
    exists (String c ""), s'. repeat split; [constructor | done].
  - apply step_if_sound in H as (d & s' & -> & Hd & Hk).
    apply negb_true_iff, bool_decide_eq_false in Hd.
    exists (String d ""), s'. repeat split; [by constructor | done].
  - apply step_if_sound in H as (d & s' & -> & Hd & Hk).
    exists (String d ""), s'. repeat split; [by constructor | done].
  - cbn [exec] in H. exists "", s. destruct prev as [p|].
    + destruct (bool_decide (p = Str.newline)) eqn:Hp; [|done].
      apply bool_decide_eq_true in Hp as ->. repeat split; [constructor | done].
    + repeat split; [constructor | done].
  - cbn [exec] in H. apply IH1 in H as (m1 & s1 & -> & H1 & H).
    apply IH2 in H as (m2 & s2 & -> & H2 & H).
    exists (m1 ++ m2), s2. split; [by rewrite str_app_assoc|].
    split; [by constructor|]. by rewrite lastb_app.
  - cbn [exec] in H. destruct (exec r1 prev s k) as [y|] eqn:E1.
    + injection H as ->. apply IH1 in E1 as (m & s' & -> & Hd & Hk).
      exists m, s'. repeat split; [by apply den_Alt_l | done].
    + apply IH2 in H as (m & s' & -> & Hd & Hk).
      exists m, s'. repeat split; [by apply den_Alt_r | done].
  - revert H.
    change (exec (Star r) prev s k)
      with ((fix iter (n : nat) (prev : option ascii) (s : string) :=
               match n with
               | O => k prev s
               | S n' =>
                   match exec r prev s
                           (fun p' s' =>
                              if (String.length s' <? String.length s)%nat
                              then iter n' p' s' else None) with
                   | Some x => Some x
                   | None => k prev s
                   end
               end) (S (String.length s)) prev s).
    generalize (S (String.length s)) as n. intros n. revert prev s.
    induction n as [|n IHn]; intros prev s H.
    + exists "", s. repeat split; [constructor | done].
    + destruct (exec r prev s _) as [y|] eqn:E.
      * injection H as ->. apply IH in E as (m1 & s1 & -> & H1 & Hk).
        destruct (String.length s1 <? String.length (m1 ++ s1))%nat; [|done].
        apply IHn in Hk as (m2 & s2 & -> & H2 & Hk).
        exists (m1 ++ m2), s2. split; [by rewrite str_app_assoc|].
        split; [by econstructor|]. by rewrite lastb_app.
      * exists "", s. repeat split; [constructor | done].
Qed.

Lemma length_str_app (a b : string) :
  String.length (a ++ b) = (String.length a + String.length b)%nat.
Proof.
  induction a as [|c a IH]; [done|].
  change (S (String.length (a ++ b)) = S (String.length a + String.length b)).
  by rewrite IH.
Qed.

Lemma take_length_app (m s : string) : Str.take (String.length m) (m ++ s) = m.
Proof.
  induction m as [|c m IH]; [by destruct s|].
  change (String c (Str.take (String.length m) (m ++ s)) = String c m).
  by rewrite IH.
Qed.

Lemma take_app_exact (m s : string) :
  Str.take (String.length (m ++ s) - String.length s) (m ++ s) = m.
Proof.
  rewrite length_str_app.
  replace (String.length m + String.length s - String.length s)%nat
    with (String.length m) by lia.
  apply take_length_app.
Qed.

Lemma exec_found r prev s p' s' :
  exec r prev s (fun p' s' => Some (p', s')) = Some (p', s') ->
  s = Str.take (String.length s - String.length s') s ++ s'
  /\ den r prev (Str.take (String.length s - String.length s') s)
  /\ p' = lastb prev (Str.take (String.length s - String.length s') s).
Proof.
  intros E. apply exec_sound in E as (m & s1 & -> & Hd & [= <- <-]).
  by rewrite take_app_exact.
Qed.

(** A match that [search] finds lies in the text, and the expression
    stands for it at that place. *)
Lemma search_sound r : forall s prev f,
  search r prev s = Some f ->
  s = before f ++ matched f ++ rest f
  /\ den r (lastb prev (before f)) (matched f)
  /\ after_prev f = lastb prev (before f ++ matched f).
Proof.
  induction s as [|c s IH]; intros prev f H; cbn [search] in H.
  - destruct (exec r prev "" _) as [[p' s']|] eqn:E; [|done].
    injection H as <-. by apply exec_found in E.
  - destruct (exec r prev (String c s) _) as [[p' s']|] eqn:E.
    + injection H as <-. by apply exec_found in E.
    + destruct (search r (Some c) s) as [g|] eqn:Hg; [|done].
      injection H as <-. apply IH in Hg as (Hs & Hd & Ha).
      cbn [before matched rest after_prev]. split; [|done].
      change (String c (before g) ++ matched g ++ rest g)
        with (String c (before g ++ matched g ++ rest g)).
      by rewrite <- Hs.
Qed.

(** Every match that [FindAll] returns lies in the text, and the
    expression stands for it there. *)
Lemma findAll_go_sound r : forall n prev s m,
  m ∈ findAll_go n r prev s ->
  exists a b, s = a ++ m ++ b /\ den r (lastb prev a) m.
Proof.
  induction n as [|n IH]; intros prev s m Hin; cbn [findAll_go] in Hin.
  { by apply elem_of_nil in Hin. }
  destruct (search r prev s) as [f|] eqn:Hf; [|by apply elem_of_nil in Hin].
  apply search_sound in Hf as (Hs & Hd & Ha).
  destruct (matched f) as [|c0 m0] eqn:Hm.
  - destruct (rest f) as [|c s'] eqn:Hr.
    + apply list_elem_of_singleton in Hin as ->.
      exists (before f), "". split; [by rewrite Hs|done].
    + apply elem_of_cons in Hin as [->|Hin].
      * exists (before f), (String c s'). split; [by rewrite Hs|done].
      * apply IH in Hin as (a & b & -> & Hd').
        exists (before f ++ String c a), b. split.
        { rewrite Hs. cbn. by rewrite !str_app_assoc. }
        by rewrite lastb_app.
  - apply elem_of_cons in Hin as [->|Hin].
    + exists (before f), (rest f). split; [by rewrite Hs|done].
    + apply IH in Hin as (a & b & Hrest & Hd').
      exists (before f ++ String c0 m0 ++ a), b. split.
      { rewrite Hs, Hrest. by rewrite !str_app_assoc. }
      rewrite Ha, <- lastb_app, str_app_assoc in Hd'. exact Hd'.
Qed.

Lemma FindAll_sound r s m :
  m ∈ FindAll r s -> exists a b, s = a ++ m ++ b /\ den r (lastb None a) m.
Proof. apply findAll_go_sound. Qed.

Lemma den_lit t : forall prev m, den (lit t) prev m -> m = t.
Proof.
  induction t as [|c t IH]; intros prev m H; cbn [lit] in H.
  - by inversion H.
  - inversion H as [| | | | | |? ? ? m1 m2 H1 H2| | | |]; subst.
    inversion H1; subst. apply IH in H2 as ->. done.
Qed.

Lemma den_Seq_inv r1 r2 prev m :
  den (Seq r1 r2) prev m ->
  exists m1 m2, m = m1 ++ m2 /\ den r1 prev m1 /\ den r2 (lastb prev m1) m2.
Proof. intros H. inversion H; subst. eauto. Qed.

Lemma den_Chr_inv c prev m : den (Chr c) prev m -> m = String c "".
Proof. intros H. by inversion H. Qed.

Lemma den_Space_inv prev m :
  den Space prev m -> exists d, is_space d = true /\ m = String d "".
Proof. intros H. inversion H; subst. eauto. Qed.

Lemma den_quote prev m :
  den quote prev m -> exists q, Str.is_quote q = true /\ m = String q "".
Proof.
  intros H. inversion H as [| | | | | |  |? ? ? ? H1|? ? ? ? H1| |]; subst;
    apply den_Chr_inv in H1 as ->; eexists; (split; [|reflexivity]); done.
Qed.

(** The one-line tail [from ... ;]. *)
Lemma den_from_semicolon prev m :
  den (Seq (lit "from") (Seq (Star AnyNoNL) (Chr ";"%char))) prev m ->
  exists y, m = "from" ++ y ++ ";".
Proof.
  intros H. apply den_Seq_inv in H as (m1 & m2 & -> & H1 & H2).
  apply den_lit in H1 as ->.
  apply den_Seq_inv in H2 as (y & m3 & -> & _ & H3).
  apply den_Chr_inv in H3 as ->. by exists y.
Qed.

Lemma den_reFromTail prev m :
  den reFromTail prev m -> exists x y, m = x ++ "from" ++ y ++ ";".
Proof.
  intros H. inversion H as [| | | | | |  |? ? ? ? H1|? ? ? ? H1| |]; subst.
  - apply den_Seq_inv in H1 as (x & m2 & -> & _ & H2).
    apply den_from_semicolon in H2 as (y & ->). by exists x, y.
  - apply den_Seq_inv in H1 as (l & m2 & -> & _ & H2).
    apply den_Seq_inv in H2 as (b & m3 & -> & Hb & H3).
    apply den_Chr_inv in Hb as ->.
    apply den_Seq_inv in H3 as (sp & m4 & -> & Hsp & H4).
    apply den_Space_inv in Hsp as (d & _ & ->).
    apply den_from_semicolon in H4 as (y & ->).
    exists (l ++ String "}"%char (String d "")), y.
    by rewrite str_app_assoc.
Qed.

Lemma den_reStaticExportGoPk prev m :
  den reStaticExportGoPk prev m ->
  exists sp x y, is_space sp = true /\ m = "export" ++ String sp (x ++ "from" ++ y ++ ";").
Proof.
  intros H. apply den_Seq_inv in H as (m1 & m2 & -> & H1 & H2).
  apply den_lit in H1 as ->.
  apply den_Seq_inv in H2 as (m3 & m4 & -> & H3 & H4).
  apply den_Space_inv in H3 as (sp & Hsp & ->).
  apply den_reFromTail in H4 as (x & y & ->). by exists sp, x, y.
Qed.

Lemma den_reStaticImportGoPk prev m :
  den reStaticImportGoPk prev m ->
  (prev = None \/ prev = Some Str.newline)
  /\ exists sp x y, is_space sp = true /\ m = "import" ++ String sp (x ++ "from" ++ y ++ ";").
Proof.
  intros H. apply den_Seq_inv in H as (m0 & m' & -> & H0 & H).
  assert (m0 = "" /\ (prev = None \/ prev = Some Str.newline)) as [-> Hp].
  { inversion H0; subst; auto. }
  split; [done|].
  apply den_Seq_inv in H as (m1 & m2 & -> & H1 & H2).
  apply den_lit in H1 as ->.
  apply den_Seq_inv in H2 as (m3 & m4 & -> & H3 & H4).
  apply den_Space_inv in H3 as (sp & Hsp & ->).
  apply den_reFromTail in H4 as (x & y & ->). by exists sp, x, y.
Qed.

Lemma den_reDynamicImport prev m :
  den reDynamicImport prev m -> exists t, m = "import(" ++ t.
Proof.
  intros H. apply den_Seq_inv in H as (m1 & m2 & -> & H1 & _).
  apply den_lit in H1 as ->. by exists m2.
Qed.

Lemma app_String c (s t : string) : String c s ++ t = String c (s ++ t).
Proof. reflexivity. Qed.

Lemma app_empty (t : string) : "" ++ t = t.
Proof. reflexivity. Qed.

Ltac str_normal :=
  repeat (rewrite str_app_assoc || rewrite app_String || rewrite app_empty).

Lemma contains_app sub a b : contains sub (a ++ sub ++ b) = true.
Proof.
  induction a as [|c a IH].
  - change ("" ++ sub ++ b) with (sub ++ b).
    destruct (sub ++ b) eqn:E; cbn [contains]; unfold Str.hasPrefix;
      rewrite <- E, prefix_app; done.
  - change (String c a ++ sub ++ b) with (String c (a ++ sub ++ b)).
    cbn [contains]. rewrite IH. apply orb_true_r.
Qed.

Lemma static_statement_parts contentBytes s :
  s ∈ allStaticStatements contentBytes ->
  exists a b kw sp x y,
    contentBytes = a ++ s ++ b
    /\ s = kw ++ String sp (x ++ "from" ++ y ++ ";").
Proof.
  unfold allStaticStatements. intros [Hin|Hin]%elem_of_app.
  - apply FindAll_sound in Hin as (a & b & -> & Hd).
    apply den_reStaticImportGoPk in Hd as (_ & sp & x & y & _ & ->).
    by exists a, b, "import", sp, x, y.
  - apply FindAll_sound in Hin as (a & b & -> & Hd).
    apply den_reStaticExportGoPk in Hd as (sp & x & y & _ & ->).
    by exists a, b, "export", sp, x, y.
Qed.

Lemma lastb_Some a : forall c, lastb (Some c) a <> None.
Proof. induction a as [|d a IH]; intros c; [done | apply IH]. Qed.

Lemma lastb_None a : lastb None a = None -> a = "".
Proof. destruct a as [|c a]; [done|]. intros H. by apply lastb_Some in H. Qed.

(** The statements the loop of [runPack] works on.  Every one lies in
    the text of the module; it is the word [import] at the start of a
    line, or the word [export] anywhere, one white-space byte, and a text
    that holds the word [from] and ends with a semicolon. *)
Theorem static_statement_shape (contentBytes s : string) :
  s ∈ allStaticStatements contentBytes ->
  exists a b kw sp x y,
    contentBytes = a ++ s ++ b
    /\ s = kw ++ String sp (x ++ "from" ++ y ++ ";")
    /\ is_space sp = true
    /\ ((kw = "import" /\ (a = "" \/ lastb None a = Some Str.newline))
        \/ kw = "export").
Proof.
  unfold allStaticStatements. intros [Hin|Hin]%elem_of_app.
  - apply FindAll_sound in Hin as (a & b & -> & Hd).
    apply den_reStaticImportGoPk in Hd as (Hp & sp & x & y & Hsp & ->).
    exists a, b, "import", sp, x, y. repeat split; [done|]. left. split; [done|].
    destruct Hp as [Hp|Hp]; [left; by apply lastb_None | by right].
  - apply FindAll_sound in Hin as (a & b & -> & Hd).
    apply den_reStaticExportGoPk in Hd as (sp & x & y & Hsp & ->).
    exists a, b, "export", sp, x, y. repeat split; [done|]. by right.
Qed.

Lemma static_statement_shape_witness :
  exists a b kw sp x y,
    "let a = 1;
import B from './b.js';
" = a ++ "import B from './b.js';" ++ b
    /\ "import B from './b.js';" = kw ++ String sp (x ++ "from" ++ y ++ ";")
    /\ is_space sp = true
    /\ ((kw = "import" /\ (a = "" \/ lastb None a = Some Str.newline))
        \/ kw = "export").
Proof.
  apply (static_statement_shape "let a = 1;
import B from './b.js';
" "import B from './b.js';").
  apply (bool_decide_unpack _). vm_compute. exact I.
Defined.

Lemma FindAll_nil_or_elem r s : FindAll r s = [] \/ exists m, m ∈ FindAll r s.
Proof.
  destruct (FindAll r s) as [|m l]; [by left|].
  right. exists m. apply list_elem_of_here.
Qed.

Lemma no_from_no_statement contentBytes :
  contains "from" contentBytes = false \/ contains ";" contentBytes = false ->
  allStaticStatements contentBytes = [].
Proof.
  intros Hno. destruct (allStaticStatements contentBytes) as [|s l] eqn:E; [done|].
  exfalso.
  destruct (static_statement_parts contentBytes s) as (a & b & kw & sp & x & y & Hc & Hs).
  { rewrite E. apply list_elem_of_here. }
  subst s. destruct Hno as [Hno|Hno].
  - rewrite Hc in Hno.
    assert (a ++ (kw ++ String sp (x ++ "from" ++ y ++ ";")) ++ b
            = (a ++ kw ++ String sp x) ++ "from" ++ (y ++ ";" ++ b)) as Hr.
    { by str_normal. }
    rewrite Hr, contains_app in Hno. done.
  - rewrite Hc in Hno.
    assert (a ++ (kw ++ String sp (x ++ "from" ++ y ++ ";")) ++ b
            = (a ++ kw ++ String sp (x ++ "from" ++ y)) ++ ";" ++ b) as Hr.
    { by str_normal. }
    rewrite Hr, contains_app in Hno. done.
Qed.

Lemma no_import_call_no_match contentBytes :
  contains "import(" contentBytes = false -> FindAll reDynamicImport contentBytes = [].
Proof.
  intros Hno. destruct (FindAll_nil_or_elem reDynamicImport contentBytes) as [|[m Hm]]; [done|].
  apply FindAll_sound in Hm as (a & b & -> & Hd).
  apply den_reDynamicImport in Hd as (t & ->).
  assert (a ++ ("import(" ++ t) ++ b = a ++ "import(" ++ (t ++ b)) as Hr by (by str_normal).
  rewrite Hr, contains_app in Hno. done.
Qed.

(** A module that is read and whose text holds neither a dynamic import
    call nor a statement with [from] and a semicolon is written back with
    the bytes it had: the run reads no other module, prints nothing and
    leaves the file system exactly as it was. *)
Theorem module_without_imports_untouched (rec : rec_call) (w : world)
    (buildPath convertPath contentBytes : string) (converted : list string) :
  convertPath ∉ converted ->
  ReadFile (fs w) convertPath = inr contentBytes ->
  contains "import(" contentBytes = false ->
  contains "from" contentBytes = false \/ contains ";" contentBytes = false ->
  runPackF rec w buildPath convertPath converted = (visit w convertPath, Ok).
Proof.
  intros Hnin Hread Hdyn Hstat. unfold runPackF.
  rewrite bool_decide_eq_false_2 by done. rewrite Hread.
  assert (Hfix : fixDynamicImports contentBytes = contentBytes).
  { unfold fixDynamicImports. by rewrite no_import_call_no_match. }
  rewrite Hfix, no_from_no_statement by done. cbn [resolveAll l_world l_content].
  unfold ReadFile in Hread.
  destruct (stat (fs w) convertPath) as [|[d0|]] eqn:Hs; try discriminate.
  injection Hread as ->.
  destruct (WriteFile_existing (fs (visit w convertPath)) convertPath contentBytes
              contentBytes Hs) as (-> & _).
  apply stat_File_lookup in Hs.
  unfold set_fs, visit. cbn [fs out visits]. by rewrite insert_id.
Qed.

Lemma module_without_imports_untouched_witness :
  runPackF rec_nop (mkWorld [("site", Dir true); ("site/util.js", File "export const u = 1;")])
           "site" "site/util.js" []
  = (visit (mkWorld [("site", Dir true); ("site/util.js", File "export const u = 1;")])
           "site/util.js", Ok).
Proof.
  apply (module_without_imports_untouched rec_nop _ "site" "site/util.js"
           "export const u = 1;" []).
  - apply not_elem_of_nil.
  - vm_compute. reflexivity.
  - vm_compute. reflexivity.
  - left. vm_compute. reflexivity.
Defined.

(** ** What [rePath] finds in a statement, and the rewritten statement *)

Lemma exec_quote prev s k :
  exec quote prev s k
  = match s with
    | String q t => if Str.is_quote q then k (Some q) t else None
    | "" => None
    end.
Proof.
  unfold quote. cbn [exec]. destruct s as [|q t]; [done|]. cbn [step_if].
  unfold Str.is_quote.
  destruct (bool_decide (q = Str.squote)) eqn:E1.
  - cbn [orb]. destruct (k (Some q) t); [done|]. cbn [step_if].
    by destruct (bool_decide (q = Str.dquote)).
  - cbn [orb step_if]. by destruct (bool_decide (q = Str.dquote)).
Qed.

Lemma exec_star_any k : forall s prev,
  exec (Star AnyNoNL) prev s k = star_any prev s k.
Proof.
  intros s prev.
  change (exec (Star AnyNoNL) prev s k)
    with ((fix iter (n : nat) (prev : option ascii) (s : string) :=
             match n with
             | O => k prev s
             | S n' =>
                 match exec AnyNoNL prev s
                         (fun p' s' =>
                            if (String.length s' <? String.length s)%nat
                            then iter n' p' s' else None) with
                 | Some x => Some x
                 | None => k prev s
                 end
             end) (S (String.length s)) prev s).
  assert (Hn : (String.length s < S (String.length s))%nat) by lia.
  revert Hn. generalize (S (String.length s)) as n. intros n. revert prev n.
  induction s as [|d s IH]; intros prev n Hn.
  - destruct n; [by apply Nat.nlt_0_r in Hn|]. done.
  - change (S (String.length s) < n)%nat in Hn.
    destruct n as [|n]; [by apply Nat.nlt_0_r in Hn|].
    cbn [exec step_if star_any]. unfold not_newline.
    destruct (negb (bool_decide (d = Str.newline))); [|done].
    assert ((String.length s <? String.length (String d s))%nat = true) as ->.
    { apply Nat.ltb_lt. change (String.length s < S (String.length s))%nat. lia. }
    rewrite IH by lia. done.
Qed.

Lemma every_app f a b : every f (a ++ b) = every f a && every f b.
Proof.
  induction a as [|c a IH]; [done|].
  change (every f (String c (a ++ b)) = every f (String c a) && every f b).
  cbn [every]. rewrite IH. by rewrite andb_assoc.
Qed.

Lemma is_quote_not_newline q : Str.is_quote q = true -> not_newline q = true.
Proof.
  unfold Str.is_quote, not_newline. intros H.
  apply orb_true_iff in H as [H|H]; apply bool_decide_eq_true in H as ->; done.
Qed.

Section quoted.
Variable k0 : cont.
Let K : cont := fun p s' => exec quote p s' k0.

Lemma star_any_no_quote after : forall prev,
  every not_quote after = true -> star_any prev after K = None.
Proof.
  induction after as [|d s IH]; intros prev Hall; cbn [star_any].
  - unfold K. by rewrite exec_quote.
  - cbn [every] in Hall. apply andb_true_iff in Hall as [Hd Hs].
    rewrite IH by done. unfold K. rewrite exec_quote.
    unfold not_quote in Hd. apply negb_true_iff in Hd. rewrite Hd.
    by destruct (not_newline d).
Qed.

Lemma star_any_to_quote body q2 after x : forall prev,
  every not_newline body = true ->
  Str.is_quote q2 = true ->
  every not_quote after = true ->
  k0 (Some q2) after = Some x ->
  star_any prev (body ++ String q2 after) K = Some x.
Proof.
  induction body as [|d b IH]; intros prev Hbody Hq Hafter Hk.
  - change ("" ++ String q2 after) with (String q2 after). cbn [star_any].
    rewrite is_quote_not_newline, star_any_no_quote by done.
    unfold K. by rewrite exec_quote, Hq.
  - change (String d b ++ String q2 after) with (String d (b ++ String q2 after)).
    cbn [star_any]. cbn [every] in Hbody. apply andb_true_iff in Hbody as [Hd Hb].
    by rewrite Hd, IH.
Qed.

Lemma exec_rePath_quoted prev q1 body q2 after x :
  Str.is_quote q1 = true ->
  every not_newline body = true ->
  Str.is_quote q2 = true ->
  every not_quote after = true ->
  k0 (Some q2) after = Some x ->
  exec rePath prev (String q1 (body ++ String q2 after)) k0 = Some x.
Proof.
  intros H1 Hb H2 Ha Hk. unfold rePath. cbn [exec].
  rewrite exec_quote, H1.
  change (exec (Star AnyNoNL) (Some q1) (body ++ String q2 after) K = Some x).
  rewrite exec_star_any. by apply star_any_to_quote.
Qed.

Lemma exec_rePath_other prev s :
  match s with
  | String c _ => Str.is_quote c = false
  | "" => True
  end ->
  exec rePath prev s k0 = None.
Proof.
  intros H. unfold rePath. cbn [exec]. rewrite exec_quote.
  destruct s; [done|]. by rewrite H.
Qed.

End quoted.

Lemma search_rePath_no_quote s : forall prev,
  every not_quote s = true -> search rePath prev s = None.
Proof.
  induction s as [|c s IH]; intros prev Hall; cbn [search].
  - by rewrite exec_rePath_other.
  - cbn [every] in Hall. apply andb_true_iff in Hall as [Hc Hs].
    unfold not_quote in Hc. apply negb_true_iff in Hc.
    rewrite exec_rePath_other by done. by rewrite IH.
Qed.

(** In a text whose first quote is followed, before any newline, by a
    last quote, [rePath] finds the text from the first quote to the
    last. *)
Lemma search_rePath_quoted before q1 body q2 after : forall prev,
  every not_quote before = true ->
  Str.is_quote q1 = true ->
  every not_newline body = true ->
  Str.is_quote q2 = true ->
  every not_quote after = true ->
  search rePath prev (before ++ String q1 (body ++ String q2 after))
  = Some (Regexp.Found before (String q1 (body ++ String q2 "")) (Some q2) after).
Proof.
  induction before as [|c b IH]; intros prev Hbefore H1 Hb H2 Ha.
  - change ("" ++ String q1 (body ++ String q2 after))
      with (String q1 (body ++ String q2 after)).
    cbn [search].
    rewrite (exec_rePath_quoted _ prev q1 body q2 after (Some q2, after)) by done.
    assert (String q1 (body ++ String q2 after)
            = String q1 (body ++ String q2 "") ++ after) as -> by (by str_normal).
    by rewrite take_app_exact.
  - change (String c b ++ String q1 (body ++ String q2 after))
      with (String c (b ++ String q1 (body ++ String q2 after))).
    cbn [every] in Hbefore. apply andb_true_iff in Hbefore as [Hc Hb'].
    unfold not_quote in Hc. apply negb_true_iff in Hc.
    cbn [search]. rewrite exec_rePath_other by done. by rewrite IH.
Qed.

Lemma replaceAll_go_no_quote n repl prev s :
  every not_quote s = true -> Regexp.replaceAll_go n rePath repl prev s = s.
Proof.
  intros H. destruct n; [done|]. cbn [Regexp.replaceAll_go].
  by rewrite search_rePath_no_quote.
Qed.

Lemma ReplaceAll_rePath_quoted before q1 body q2 after repl :
  every not_quote before = true ->
  Str.is_quote q1 = true ->
  every not_newline body = true ->
  Str.is_quote q2 = true ->
  every not_quote after = true ->
  ReplaceAll rePath (before ++ String q1 (body ++ String q2 after)) repl
  = before ++ expand (String q1 (body ++ String q2 "")) repl ++ after.
Proof.
  intros Hbefore H1 Hb H2 Ha. unfold ReplaceAll. cbn [Regexp.replaceAll_go].
  rewrite search_rePath_quoted by done. cbn [Regexp.matched Regexp.rest Regexp.before Regexp.after_prev].
  by rewrite replaceAll_go_no_quote.
Qed.

Lemma expand_go_no_dollar whole : forall n t,
  every not_dollar t = true -> expand_go n whole t = t.
Proof.
  induction n as [|n IH]; intros t Hall; [done|]. cbn [expand_go].
  destruct t as [|c t]; [done|]. cbn [every] in Hall.
  apply andb_true_iff in Hall as [Hc Ht].
  unfold not_dollar in Hc. apply negb_true_iff in Hc. rewrite Hc.
  by rewrite IH.
Qed.

Lemma expand_no_dollar whole t : every not_dollar t = true -> expand whole t = t.
Proof. apply expand_go_no_dollar. Qed.

Lemma Find_rePath_quoted before q1 body q2 after :
  every not_quote before = true ->
  Str.is_quote q1 = true ->
  every not_newline body = true ->
  Str.is_quote q2 = true ->
  every not_quote after = true ->
  Find rePath (before ++ String q1 (body ++ String q2 after))
  = String q1 (body ++ String q2 "").
Proof. intros. unfold Find. by rewrite search_rePath_quoted. Qed.

Lemma rewriteStatement_quoted buildPath before q1 body q2 after foundPath :
  every not_quote before = true ->
  Str.is_quote q1 = true ->
  every not_newline body = true ->
  Str.is_quote q2 = true ->
  every not_quote after = true ->
  every not_dollar (Str.replace1 foundPath buildPath "") = true ->
  rewriteStatement buildPath (before ++ String q1 (body ++ String q2 after)) foundPath
  = before ++ "'" ++ Str.replace1 foundPath buildPath "" ++ "'" ++ after.
Proof.
  intros Hbefore H1 Hb H2 Ha Hd. unfold rewriteStatement.
  rewrite Find_rePath_quoted by done.
  set (repl := "'" ++ Str.replace1 foundPath buildPath "" ++ "'").
  assert (Hrepl : every not_dollar repl = true).
  { subst repl. change (every not_dollar (String "'"%char (Str.replace1 foundPath buildPath "" ++ "'")) = true).
    cbn [every]. by rewrite every_app, Hd. }
  pose proof (ReplaceAll_rePath_quoted "" q1 body q2 "" repl eq_refl H1 Hb H2 eq_refl) as Hin.
  change ("" ++ String q1 (body ++ String q2 "")) with (String q1 (body ++ String q2 "")) in Hin.
  rewrite Hin, expand_no_dollar by done.
  change ("" ++ repl ++ "") with (repl ++ "").
  assert (repl ++ "" = repl) as ->.
  { generalize repl. intros r. induction r as [|c r IH]; [done|].
    change (String c (r ++ "") = String c r). by rewrite IH. }
  rewrite ReplaceAll_rePath_quoted, expand_no_dollar by done.
  subst repl. by str_normal.
Qed.

Lemma trimRight_snoc f body q :
  every (fun c => negb (f c)) body = true -> f q = true ->
  Str.trimRight f (body ++ String q "") = body.
Proof.
  intros Hall Hq. induction body as [|c b IH].
  - change ("" ++ String q "") with (String q ""). cbn [Str.trimRight]. by rewrite Hq.
  - change (String c b ++ String q "") with (String c (b ++ String q "")).
    cbn [every] in Hall. apply andb_true_iff in Hall as [Hc Hb].
    cbn [Str.trimRight]. rewrite IH by done.
    apply negb_true_iff in Hc. rewrite Hc. by destruct b.
Qed.

Lemma trim_quoted q1 body q2 :
  every not_quote body = true ->
  Str.is_quote q1 = true -> Str.is_quote q2 = true ->
  Str.trim Str.is_quote (String q1 (body ++ String q2 "")) = body.
Proof.
  intros Hall H1 H2. unfold Str.trim. cbn [Str.trimLeft]. rewrite H1.
  destruct body as [|c b].
  - change ("" ++ String q2 "") with (String q2 "").
    cbn [Str.trimLeft Str.trimRight]. by rewrite H2.
  - change (String c b ++ String q2 "") with (String c (b ++ String q2 "")).
    cbn [Str.trimLeft]. pose proof Hall as Hall'. cbn [every] in Hall'.
    apply andb_true_iff in Hall' as [Hc _].
    unfold not_quote in Hc. apply negb_true_iff in Hc. rewrite Hc.
    by apply (trimRight_snoc Str.is_quote (String c b) q2).
Qed.

Lemma pathOf_quoted before q1 body q2 after :
  every not_quote before = true ->
  Str.is_quote q1 = true ->
  every not_newline body = true ->
  every not_quote body = true ->
  Str.is_quote q2 = true ->
  every not_quote after = true ->
  pathOf (before ++ String q1 (body ++ String q2 after))
  = if bool_decide (Path.Ext body = ".svelte")
    then Str.replace1 body ".svelte" ".js" else body.
Proof.
  intros. unfold pathOf. by rewrite Find_rePath_quoted, trim_quoted.
Qed.

(** A statement with one quoted text: some bytes without a quote, a
    quote, a path without quote or newline, a quote, and bytes without a
    quote.  The path the loop works with is the quoted text, its first
    [.svelte] turned into [.js] when that is its extension; and the
    rewritten statement is the statement with the quoted text replaced by
    the found path, less the first occurrence of the build directory, in
    single quotes.  (A found path with a dollar sign would be read as a
    replacement template.) *)
Theorem quoted_path_found_and_replaced
    (buildPath before body after foundPath : string) (q1 q2 : ascii) :
  let s := before ++ String q1 (body ++ String q2 after) in
  every not_quote before = true ->
  Str.is_quote q1 = true ->
  every not_newline body = true ->
  every not_quote body = true ->
  Str.is_quote q2 = true ->
  every not_quote after = true ->
  pathOf s = (if bool_decide (Path.Ext body = ".svelte")
              then Str.replace1 body ".svelte" ".js" else body)
  /\ (every not_dollar (Str.replace1 foundPath buildPath "") = true ->
      rewriteStatement buildPath s foundPath
      = before ++ "'" ++ Str.replace1 foundPath buildPath "" ++ "'" ++ after).
Proof.
  intros s Hb H1 Hn Hq H2 Ha. split.
  - by apply pathOf_quoted.
  - intros Hd. by apply rewriteStatement_quoted.
Qed.

Lemma quoted_path_found_and_replaced_witness :
  let s := "import B from " ++ String Str.dquote ("./b.svelte" ++ String Str.dquote ";") in
  pathOf s = "./b.js"
  /\ rewriteStatement "public" s "./b.js" = "import B from './b.js';".
Proof.
  destruct (quoted_path_found_and_replaced "public" "import B from " "./b.svelte" ";"
              "./b.js" Str.dquote Str.dquote) as [Hp Hr]; try reflexivity.
  intros s. split; [exact Hp | exact (Hr eq_refl)].
Defined.

(** A statement with one quoted path that does not count as a package
    name and whose location exists: the module at that location is
    processed first, and unless that run panics the statement is replaced,
    wherever it occurs in the text, by itself with the path (its
    [.svelte] extension turned into [.js], the first occurrence of the
    build directory removed) in single quotes, provided that path holds
    no dollar sign (with one it is read as a replacement template). *)
Theorem existing_local_reference_rewritten
    (rec : rec_call) (buildPath convertPath before body after : string) (q1 q2 : ascii)
    (st : loop) :
  let s := before ++ String q1 (body ++ String q2 after) in
  let pathStr := if bool_decide (Path.Ext body = ".svelte")
                 then Str.replace1 body ".svelte" ".js" else body in
  let callee := rec (say (say (l_world st) (MFullpath (fullPathOf convertPath pathStr)))
                         (MConvertpath convertPath))
                    buildPath (fullPathOf convertPath pathStr)
                    (l_converted st ++ [convertPath])%list in
  every not_quote before = true ->
  Str.is_quote q1 = true ->
  every not_newline body = true ->
  every not_quote body = true ->
  Str.is_quote q2 = true ->
  every not_quote after = true ->
  isBare pathStr = Some false ->
  fileExists (fs (l_world st)) (fullPathOf convertPath pathStr) = true ->
  aborts callee.2 = false ->
  every not_dollar (Str.replace1 pathStr buildPath "") = true ->
  resolveStatement rec buildPath convertPath st s
  = inl (Loop callee.1
              (Str.replaceAll (l_content st) s
                 (before ++ "'" ++ Str.replace1 pathStr buildPath "" ++ "'" ++ after))
              (l_converted st ++ [convertPath])%list).
Proof.
  intros s pathStr callee Hb H1 Hn Hq H2 Ha Hbare Hex Hab Hd.
  unfold resolveStatement, resolveLocal.
  assert (Hp : pathOf s = pathStr) by (by apply pathOf_quoted).
  rewrite Hp, Hex. fold callee. destruct callee as [w2 o]. cbn [fst snd] in *.
  rewrite Hab, Hbare. unfold applyFound. cbn [l_world l_content l_converted].
  assert (pathStr <> "") by (intros E; by rewrite E in Hbare).
  rewrite bool_decide_eq_true_2 by done.
  unfold s. by rewrite rewriteStatement_quoted.
Qed.

Lemma existing_local_reference_rewritten_witness :
  resolveStatement rec_nop "public" "a/index.js" (Loop world_local index_js [])
                   "import B from './b.svelte';"
  = inl (Loop (say (say world_local (MFullpath "a/b.js")) (MConvertpath "a/index.js"))
              "import B from './b.js';" ["a/index.js"]).
Proof.
  pose proof (existing_local_reference_rewritten rec_nop "public" "a/index.js"
                "import B from " "./b.svelte" ";" Str.squote Str.squote
                (Loop world_local index_js [])) as H.
  cbv zeta in H. etrans; [apply H|].
  - reflexivity.
  - reflexivity.
  - reflexivity.
  - reflexivity.
  - reflexivity.
  - reflexivity.
  - vm_compute. reflexivity.
  - vm_compute. reflexivity.
  - vm_compute. reflexivity.
  - vm_compute. reflexivity.
  - vm_compute. reflexivity.
Defined.

(** ** Dynamic imports *)

Lemma den_star_any_no_newline prev m :
  den (Star AnyNoNL) prev m -> every not_newline m = true.
Proof.
  intros H. remember (Star AnyNoNL) as r eqn:Hr. revert Hr.
  induction H as [| | | | | | | | | |r0 prev m1 m2 H1 _ H2 IH2]; intros Hr; try discriminate.
  - done.
  - injection Hr as ->. rewrite every_app, IH2 by done.
    inversion H1; subst. cbn [every]. unfold not_newline.
    by rewrite bool_decide_eq_false_2.
Qed.

Lemma dynamic_import_parts contentBytes m :
  m ∈ FindAll reDynamicImport contentBytes ->
  exists a b q1 body q2,
    contentBytes = a ++ m ++ b
    /\ m = "import(" ++ String q1 (body ++ String q2 ")")
    /\ Str.is_quote q1 = true /\ Str.is_quote q2 = true
    /\ every not_newline body = true.
Proof.
  intros Hin. apply FindAll_sound in Hin as (a & b & -> & Hd).
  unfold reDynamicImport in Hd.
  apply den_Seq_inv in Hd as (m1 & m2 & -> & H1 & H2). apply den_lit in H1 as ->.
  apply den_Seq_inv in H2 as (m3 & m4 & -> & H3 & H4).
  apply den_quote in H3 as (q1 & Hq1 & ->).
  apply den_Seq_inv in H4 as (body & m5 & -> & Hb & H5).
  apply den_star_any_no_newline in Hb.
  apply den_Seq_inv in H5 as (m6 & m7 & -> & H6 & H7).
  apply den_quote in H6 as (q2 & Hq2 & ->). apply den_Chr_inv in H7 as ->.
  by exists a, b, q1, body, q2.
Qed.

Lemma contains_true sub : forall s,
  contains sub s = true -> exists a b, s = a ++ sub ++ b.
Proof.
  induction s as [|c s IH]; cbn [contains]; intros H.
  - rewrite orb_false_r in H. unfold Str.hasPrefix in H.
    exists "", "". destruct sub; [done | discriminate].
  - apply orb_true_iff in H as [H|H].
    + exists "", (Str.drop (String.length sub) (String c s)).
      unfold Str.hasPrefix in H. by rewrite prefix_drop.
    + apply IH in H as (a & b & ->). by exists (String c a), b.
Qed.

Lemma contains_inside sub a m b :
  contains sub (a ++ m ++ b) = false -> contains sub m = false.
Proof.
  intros H. destruct (contains sub m) eqn:E; [|done].
  apply contains_true in E as (x & y & ->).
  assert (a ++ (x ++ sub ++ y) ++ b = (a ++ x) ++ sub ++ (y ++ b)) as Hr by (by str_normal).
  by rewrite Hr, contains_app in H.
Qed.

Lemma replace1_absent old new : forall s,
  contains old s = false -> Str.replace1 s old new = s.
Proof.
  induction s as [|c s IH]; cbn [contains]; intros [H1 H2]%orb_false_iff.
  - cbn [Str.replace1]. by rewrite H1.
  - cbn [Str.replace1]. by rewrite H1, IH.
Qed.

(** Every dynamic import the pass works on is the text [import(], a
    quote, bytes of one line, a quote and a closing parenthesis, and lies
    in the text of the module.  When none of them mentions [.svelte] (in
    particular when the text does not), the pass leaves the text as it
    is. *)
Theorem dynamic_imports_without_svelte_unchanged (contentBytes : string) :
  (forall m, m ∈ FindAll reDynamicImport contentBytes ->
     exists a b q1 body q2,
       contentBytes = a ++ m ++ b
       /\ m = "import(" ++ String q1 (body ++ String q2 ")")
       /\ Str.is_quote q1 = true /\ Str.is_quote q2 = true
       /\ every not_newline body = true)
  /\ (Forall (fun m => contains ".svelte" m = false) (FindAll reDynamicImport contentBytes) ->
      fixDynamicImports contentBytes = contentBytes)
  /\ (contains ".svelte" contentBytes = false ->
      fixDynamicImports contentBytes = contentBytes).
Proof.
  split; [apply dynamic_import_parts|].
  assert (H : Forall (fun m => contains ".svelte" m = false)
                     (FindAll reDynamicImport contentBytes) ->
              fixDynamicImports contentBytes = contentBytes).
  { intros Hall. apply fixDynamicImports_unchanged.
    eapply Forall_impl; [exact Hall|]. intros m Hm. by apply replace1_absent. }
  split; [exact H|].
  intros Hno. apply H. apply Forall_forall. intros m Hm.
  apply FindAll_sound in Hm as (a & b & Hc & _). rewrite Hc in Hno.
  by apply contains_inside in Hno.
Qed.

Lemma dynamic_imports_without_svelte_unchanged_witness :
  fixDynamicImports "const a = import('./a.js');" = "const a = import('./a.js');".
Proof.
  apply (dynamic_imports_without_svelte_unchanged "const a = import('./a.js');").
  vm_compute. reflexivity.
Defined.

(** ** The path of a mirrored file, relative to the entry module *)

Section relative_paths.
Import Str Path FS.

Lemma norm_names p r es names :
  p <> "" -> norm p = (r, es) -> Forall proper names -> names <> [] ->
  norm (p ++ String slash (join "/" names)) = (r, (es ++ names)%list).
Proof.
  intros Hp Hn Hall Hne. unfold norm in *. rewrite isRooted_app by done.
  injection Hn as Hr Hes. rewrite Hr. f_equal.
  rewrite split_app_slash, split_join; [|done|].
  2:{ eapply Forall_impl; [exact Hall|]. by intros ? (_ & _ & _ & ?). }
  rewrite fold_left_app, fold_proper by done.
  rewrite Hr in Hes. by rewrite rev_app_distr, rev_involutive, Hes.
Qed.

Lemma norm_trailing_slash p : p <> "" -> norm (p ++ "/") = norm p.
Proof.
  intros Hp. unfold norm. rewrite isRooted_app by done. f_equal.
  change (p ++ "/") with (p ++ String slash "").
  rewrite split_app_slash, fold_left_app. done.
Qed.

Lemma dirPart_no_slash x : has_slash x = false -> dirPart x = "".
Proof.
  induction x as [|c x IH]; [done|]. rewrite has_slash_cons.
  intros [Hc Hx]%orb_false_iff. cbn [dirPart]. by rewrite IH, Hc.
Qed.

Lemma dirPart_app_slash a x :
  has_slash x = false -> dirPart (a ++ String slash x) = a ++ "/".
Proof.
  intros Hx. induction a as [|c a IH].
  - change ("" ++ String slash x) with (String slash x). cbn [dirPart].
    by rewrite dirPart_no_slash.
  - change (String c a ++ String slash x) with (String c (a ++ String slash x)).
    cbn [dirPart]. rewrite IH. by destruct a.
Qed.

Lemma dropCommon_app common b0 bs t0 ts :
  b0 <> t0 ->
  dropCommon (common ++ b0 :: bs) (common ++ t0 :: ts) = (b0 :: bs, t0 :: ts).
Proof.
  intros Hne. induction common as [|c common IH]; cbn [dropCommon app].
  - by rewrite bool_decide_eq_false_2.
  - by rewrite bool_decide_eq_true_2.
Qed.

Lemma normal_head_nonempty r e es : normal r (e :: es) -> e <> "".
Proof.
  intros (dots & names & Heq & Hd & Hn & _).
  destruct dots as [|d dots]; cbn in Heq.
  - subst names. inversion Hn as [|? ? Hp _]; subst. by destruct Hp.
  - injection Heq as -> _. inversion Hd; subst. done.
Qed.

Lemma join_nonempty e es : e <> "" -> join "/" (e :: es) <> "".
Proof.
  intros He. destruct es as [|y es]; [done|]. rewrite join_cons. by destruct e.
Qed.

Lemma isRooted_render r l : normal r l -> l <> [] -> isRooted (render (r, l)) = r.
Proof.
  intros Hn Hl. rewrite render_nonempty by done. destruct r; [done|].
  destruct l as [|e es]; [done|]. by apply normal_head_not_rooted.
Qed.

Lemma relElems_render r l : normal r l -> l <> [] -> relElems (render (r, l)) = l.
Proof.
  intros Hn Hl. unfold relElems. rewrite isRooted_render by done.
  rewrite render_nonempty by done.
  assert (Hj : join "/" l <> "").
  { destruct l as [|e es]; [done|]. apply join_nonempty.
    by apply (normal_head_nonempty r e es). }
  assert (Hs : split slash (join "/" l) = l).
  { apply split_join; [done|]. by apply (normal_no_slash r). }
  destruct r.
  - change (drop 1 ("/" ++ join "/" l)) with (join "/" l).
    destruct (join "/" l); [done|]. exact Hs.
  - change ("" ++ join "/" l) with (join "/" l).
    destruct (join "/" l); [done|]. exact Hs.
Qed.

(** [filepath.Rel] on two paths that part ways after some common
    elements: one [..] for every element left of the base, then the
    elements left of the target. *)
Lemma Rel_parting base targ r common b0 bs t0 ts :
  norm base = (r, (common ++ b0 :: bs)%list) ->
  norm targ = (r, (common ++ t0 :: ts)%list) ->
  b0 <> t0 -> b0 <> ".." ->
  Rel base targ
  = Some (join "/" (replicate (S (List.length bs)) "..") ++ "/" ++ join "/" (t0 :: ts)).
Proof.
  intros Hb Ht Hne Hdd.
  pose proof (norm_normal base) as Nb. rewrite Hb in Nb. cbn [fst snd] in Nb.
  pose proof (norm_normal targ) as Nt. rewrite Ht in Nt. cbn [fst snd] in Nt.
  unfold Rel, Clean. rewrite Hb, Ht.
  rewrite bool_decide_eq_false_2.
  2:{ intros E. apply (f_equal norm) in E. rewrite !norm_render in E by done.
      injection E as E. apply app_inv_head in E. congruence. }
  rewrite bool_decide_eq_false_2.
  2:{ intros E. apply (f_equal norm) in E. rewrite norm_render in E by done.
      vm_compute in E. injection E as _ E. by destruct common. }
  rewrite !isRooted_render by (done || by destruct common).
  assert (Bool.eqb r r = true) as -> by (by destruct r). cbn [negb].
  rewrite !relElems_render by (done || by destruct common).
  rewrite dropCommon_app by done.
  by rewrite bool_decide_eq_false_2.
Qed.

Lemma proper_literals :
  proper "spa" /\ proper "ejected" /\ proper "web_modules".
Proof. repeat split; done. Qed.

(** The directory of the entry module and a path below the mirror. *)
Lemma norm_entry_dir buildPath r es :
  buildPath <> "" -> norm buildPath = (r, es) ->
  norm (Path.Dir (buildPath ++ "/spa/ejected/main.js")) = (r, (es ++ ["spa"; "ejected"])%list).
Proof.
  intros Hp Hn. destruct proper_literals as (Hspa & Hej & _).
  unfold Path.Dir. rewrite norm_Clean.
  assert (buildPath ++ "/spa/ejected/main.js"
          = (buildPath ++ String slash (join "/" ["spa"; "ejected"])) ++ String slash "main.js")
    as -> by (by rewrite str_app_assoc).
  rewrite dirPart_app_slash by done.
  rewrite norm_trailing_slash by (by destruct buildPath).
  apply norm_names; [done | done | by repeat constructor | done].
Qed.

Lemma norm_mirrored buildPath r es names :
  buildPath <> "" -> norm buildPath = (r, es) -> Forall proper names -> names <> [] ->
  norm (buildPath ++ "/spa/web_modules/" ++ join "/" names)
  = (r, (es ++ "spa" :: "web_modules" :: names)%list).
Proof.
  intros Hp Hn Hall Hne. destruct proper_literals as (Hspa & _ & Hweb).
  assert (buildPath ++ "/spa/web_modules/" ++ join "/" names
          = buildPath ++ String slash (join "/" ("spa" :: "web_modules" :: names))) as ->.
  { destruct names as [|x names]; [done|]. by rewrite !join_cons. }
  apply norm_names; [done | done | by repeat constructor | done].
Qed.

Lemma Rel_entry_mirrored buildPath names :
  buildPath <> "" -> Forall proper names -> names <> [] ->
  Rel (Path.Dir (buildPath ++ "/spa/ejected/main.js"))
      (buildPath ++ "/spa/web_modules/" ++ join "/" names)
  = Some ("../web_modules/" ++ join "/" names).
Proof.
  intros Hp Hall Hne. destruct (norm buildPath) as [r es] eqn:Hn.
  rewrite (Rel_parting _ _ r (es ++ ["spa"]) "ejected" [] "web_modules" names).
  - destruct names as [|x names]; [done|]. by rewrite join_cons.
  - rewrite <- app_assoc. by apply norm_entry_dir.
  - rewrite <- app_assoc. by apply norm_mirrored.
  - done.
  - done.
Qed.

End relative_paths.

(** The entry module imports a package, and the lookup in the mirror
    returns a file below the mirror root of the build directory.  Then the
    path the statement is rewritten with is that file's path below
    [../web_modules], whatever the build directory is called and wherever
    it lies. *)
Theorem package_path_relative_to_entry (w : world) (buildPath pathStr : string)
    (names : list string) :
  let main := buildPath ++ "/spa/ejected/main.js" in
  let w1 := copyNpmModule w pathStr (buildPath ++ "/spa/web_modules") in
  buildPath <> "" ->
  Forall proper names -> names <> [] ->
  (checkNpmPath w1 buildPath pathStr).2
  = inr (buildPath ++ "/spa/web_modules/" ++ Str.join "/" names) ->
  resolveBare buildPath main w pathStr
  = ((checkNpmPath w1 buildPath pathStr).1, inr ("../web_modules/" ++ Str.join "/" names)).
Proof.
  intros main w1 Hp Hall Hne Hfound. unfold resolveBare. fold w1.
  destruct (checkNpmPath w1 buildPath pathStr) as [w2 res]. cbn [fst snd] in *.
  subst res. unfold main. by rewrite Rel_entry_mirrored.
Qed.

Lemma package_path_relative_to_entry_witness :
  (resolveBare "public" "public/spa/ejected/main.js" world_left_pad "left-pad").2
  = inr "../web_modules/left-pad/index.mjs".
Proof.
  pose proof (package_path_relative_to_entry world_left_pad "public" "left-pad"
                ["left-pad"; "index.mjs"]) as H.
  cbv zeta in H.
  change ("public" ++ "/spa/ejected/main.js") with "public/spa/ejected/main.js" in H.
  rewrite H.
  - reflexivity.
  - done.
  - repeat constructor; done.
  - done.
  - vm_compute. reflexivity.
Defined.

(** ** A project without module files *)

(** On a file system that holds no entry with the extension [.mjs],
    [Gopack] creates no file and no directory: once the recursion bound
    covers the regular files, the run comes back and the file system holds
    the same paths with the same kinds as before; only the bytes of
    regular files may have changed. *)
Theorem run_without_mjs_creates_nothing (n : nat) (w : world) (buildPath : string) :
  no_mjs (fs w) ->
  size (file_keys (fs w)) + 2 <= n ->
  (Gopack n w buildPath).2 <> OutOfFuel
  /\ same_shape (fs w) (fs (Gopack n w buildPath).1).
Proof.
  intros Hno Hn. unfold Gopack.
  destruct (runPack_good_any (fs w) Hno n
              (say w (MLog "Running gopack to build esm support for npm dependencies"))
              buildPath (buildPath ++ "/spa/ejected/main.js") []) as [Ho Hs].
  - done.
  - pose proof (pending_le (fs w) []). lia.
  - destruct (runPack _ _ _ _ _) as [w' o]. cbn [fst snd] in *.
    split; [|done]. by destruct o.
Qed.

Lemma run_without_mjs_creates_nothing_witness :
  (Gopack 4 world_absent_package "public").2 <> OutOfFuel
  /\ same_shape (fs world_absent_package) (fs (Gopack 4 world_absent_package "public").1).
Proof.
  apply (run_without_mjs_creates_nothing 4 world_absent_package "public").
  - apply (bool_decide_unpack _). vm_compute. exact I.
  - vm_compute. lia.
Defined.

(** ** The lookup after the copy *)

Section copy_then_lookup.
Import Str Path FS.

Lemma descend_snoc_inv f r e nd' : forall es pre nd0,
  descend f r pre nd0 (es ++ [e]) = Found nd' ->
  descend f r pre nd0 es = Found (Dir true)
  /\ f !! (r, (pre ++ es ++ [e])%list) = Some nd'.
Proof.
  induction es as [|x es IH]; intros pre nd0 H; cbn [app descend] in *.
  - destruct nd0 as [|[]]; try discriminate.
    destruct (f !! (r, (pre ++ [e])%list)) as [y|] eqn:Hy; [|discriminate].
    injection H as ->. by split.
  - destruct nd0 as [|[]]; try discriminate.
    destruct (f !! (r, (pre ++ [x])%list)) as [y|] eqn:Hy.
    + apply IH in H as [H1 H2]. split; [done|]. by rewrite <- app_assoc in H2.
    + destruct (es ++ [e])%list eqn:E; [by destruct es | discriminate].
Qed.

Lemma pickJS_finds path files f :
  f ∈ files -> loadable (d_name f) = true -> pickJS path files <> "".
Proof.
  intros Hin Hf.
  destruct (pickJS_cases path files) as [[_ Hall] | (b & g & a & _ & _ & _ & ->)].
  - rewrite Forall_forall in Hall. apply Hall in Hin. congruence.
  - by destruct path.
Qed.

(** A regular file with a loadable name directly in a directory is found
    by [findJSFile]. *)
Lemma jsIn_finds f dir name d :
  dir <> "" -> proper name -> loadable name = true ->
  ReadFile f (dir ++ String slash name) = inr d ->
  jsIn f dir <> "".
Proof.
  intros Hdir Hname Hload Hread.
  destruct (norm dir) as [r es] eqn:Hn.
  assert (Hk : norm (dir ++ String slash name) = (r, (es ++ [name])%list)).
  { apply (norm_names dir r es [name]); [done | done | by constructor | done]. }
  unfold ReadFile in Hread.
  destruct (stat f (dir ++ String slash name)) as [|[d'|]] eqn:Hs; try discriminate.
  apply stat_inr in Hs as [_ Hres]. rewrite Hk in Hres.
  unfold resolve in Hres. cbn [fst snd] in Hres.
  apply descend_snoc_inv in Hres as [Hdirres Hl].
  unfold jsIn, ReadDir.
  rewrite (stat_resolve f dir (Dir true)) by (done || by rewrite Hn).
  rewrite Hn. apply (pickJS_finds _ _ (Dirent name (node_isDir (File d')))); [|done].
  by apply entries_elem.
Qed.

Lemma norm_cache_root ps :
  Forall proper ps -> ps <> [] ->
  norm ("node_modules/" ++ join "/" ps) = (false, "node_modules" :: ps).
Proof.
  intros Hall Hne.
  change ("node_modules/" ++ join "/" ps) with ("node_modules" ++ String slash (join "/" ps)).
  by apply (norm_names "node_modules" false ["node_modules"] ps).
Qed.

Lemma render_cache_file ps name :
  ps <> [] ->
  render (false, ("node_modules" :: ps ++ [name])%list)
  = "node_modules" ++ "/" ++ join "/" ps ++ "/" ++ name.
Proof.
  intros Hne. rewrite render_nonempty by done.
  change ("" ++ join "/" ("node_modules" :: ps ++ [name]))
    with (join "/" ("node_modules" :: ps ++ [name])).
  destruct (ps ++ [name])%list as [|y l] eqn:E; [by destruct ps|].
  rewrite join_cons, <- E, join_snoc by done. by str_normal.
Qed.

End copy_then_lookup.

(** A package has a module file directly in its directory in the cache,
    and the copy to the mirror runs through with its copies kept apart.
    Then the lookup that follows does not panic: the file has its copy in
    the mirrored directory of the package, and [checkNpmPath] returns a
    path with a loadable extension directly in that directory.  The
    package name may have several elements, as a scoped package has. *)
Theorem mirrored_package_is_found (w : world) (buildPath : string)
    (ps : list string) (name d : string) :
  let pkg := Str.join "/" ps in
  let gopackDir := buildPath ++ "/spa/web_modules" in
  let namedPath := buildPath ++ "/spa/web_modules/" ++ pkg in
  let w1 := copyNpmModule w pkg gopackDir in
  Forall proper ps -> ps <> [] ->
  proper name -> Path.Ext name = ".mjs" ->
  ReadFile (fs w) ("node_modules/" ++ pkg ++ "/" ++ name) = inr d ->
  (run (copyEntry gopackDir) w (WalkDir (fs w) ("node_modules/" ++ pkg))).2 = Next ->
  separate gopackDir (WalkDir (fs w) ("node_modules/" ++ pkg)) ->
  ReadFile (fs w1) (namedPath ++ "/" ++ name) = inr d
  /\ exists foundPath,
       (checkNpmPath w1 buildPath pkg).2 = inr foundPath
       /\ foundPath = jsIn (fs w1) namedPath
       /\ foundPath <> "" /\ loadable foundPath = true.
Proof.
  intros pkg gopackDir namedPath w1 Hps Hne Hname Hext Hread Hnext Hsep.
  pose proof (norm_cache_root ps Hps Hne) as Hroot. fold pkg in Hroot.
  (* the file is reached from the root of the walk *)
  assert (Hk : Path.norm ("node_modules/" ++ pkg ++ "/" ++ name)
               = (false, ("node_modules" :: ps ++ [name])%list)).
  { change ("node_modules/" ++ pkg ++ "/" ++ name)
      with ("node_modules" ++ String Str.slash (pkg ++ String Str.slash name)).
    unfold pkg. rewrite <- join_snoc by done.
    apply (norm_names "node_modules" false ["node_modules"] (ps ++ [name]));
      [done | done | | by destruct ps].
    apply Forall_app. split; [done | by constructor]. }
  assert (Hfile : resolve (fs w) (false, ("node_modules" :: ps ++ [name])%list)
                  = Found (File d)).
  { unfold ReadFile in Hread.
    destruct (stat (fs w) _) as [|[d'|]] eqn:Hs; try discriminate.
    injection Hread as ->. apply stat_inr in Hs as [_ Hres]. by rewrite Hk in Hres. }
  pose proof Hfile as Hdesc. unfold resolve in Hdesc. cbn [fst snd] in Hdesc.
  change ("node_modules" :: ps ++ [name])%list
    with (("node_modules" :: ps) ++ [name])%list in Hdesc.
  destruct (descend_snoc_inv _ _ _ _ _ _ _ Hdesc) as [Hdir _].
  assert (Hstat : stat (fs w) ("node_modules/" ++ pkg) = inr (Dir true)).
  { apply stat_resolve; [done|]. by rewrite Hroot. }
  rewrite (descend_app _ _ _ [name] _ _ _ Hdir) in Hdesc.
  destruct (every_reachable_mjs_is_mirrored w pkg gopackDir (Dir true) [] name d)
    as [_ Hcopy]; try done.
  { by rewrite Hroot. }
  { by constructor. }
  fold w1 in Hcopy. rewrite Hroot in Hcopy. cbn [fst snd app] in Hcopy.
  rewrite render_cache_file in Hcopy by done.
  change ("node_modules" ++ "/" ++ Str.join "/" ps ++ "/" ++ name)
    with ("node_modules" ++ ("/" ++ pkg ++ "/" ++ name)) in Hcopy.
  rewrite destOf_cache in Hcopy.
  assert (Hdest : gopackDir ++ "/" ++ pkg ++ "/" ++ name = namedPath ++ "/" ++ name).
  { unfold gopackDir, namedPath. by str_normal. }
  rewrite Hdest in Hcopy. split; [exact Hcopy|].
  assert (Hjs : jsIn (fs w1) namedPath <> "").
  { apply (jsIn_finds _ _ name d); [by destruct buildPath | done | | exact Hcopy].
    unfold loadable. rewrite Hext. done. }
  exists (jsIn (fs w1) namedPath).
  rewrite (checkNpmPath_direct w1 buildPath pkg) by exact Hjs.
  split; [done|]. split; [done|]. split; [done|]. by apply jsIn_loadable.
Qed.

Lemma mirrored_package_is_found_witness :
  (checkNpmPath (copyNpmModule world_left_pad "left-pad" "public/spa/web_modules")
                "public" "left-pad").2
  = inr "public/spa/web_modules/left-pad/index.mjs".
Proof.
  destruct (mirrored_package_is_found world_left_pad "public" ["left-pad"] "index.mjs"
              "export default 2;") as (_ & p & Hp & -> & _).
  - repeat constructor; done.
  - done.
  - done.
  - reflexivity.
  - vm_compute. reflexivity.
  - vm_compute. reflexivity.
  - split; apply (bool_decide_unpack _); vm_compute; exact I.
  - cbv zeta in Hp. etrans; [exact Hp|]. vm_compute. reflexivity.
Defined.

(** ** A module above the working directory *)

Section relative_errors.
Import Str Path FS.

Lemma dropCommon_same common b t :
  dropCommon (common ++ b) (common ++ t) = dropCommon b t.
Proof.
  induction common as [|c common IH]; [done|]. cbn [dropCommon app].
  by rewrite bool_decide_eq_true_2.
Qed.

(** [filepath.Rel] fails when the base leaves the common part with [..]
    and the target does not. *)
Lemma Rel_above base targ r common bs t0 ts :
  norm base = (r, (common ++ ".." :: bs)%list) ->
  norm targ = (r, (common ++ t0 :: ts)%list) ->
  t0 <> ".." ->
  Rel base targ = None.
Proof.
  intros Hb Ht Hne.
  pose proof (norm_normal base) as Nb. rewrite Hb in Nb. cbn [fst snd] in Nb.
  pose proof (norm_normal targ) as Nt. rewrite Ht in Nt. cbn [fst snd] in Nt.
  unfold Rel, Clean. rewrite Hb, Ht.
  rewrite bool_decide_eq_false_2.
  2:{ intros E. apply (f_equal norm) in E. rewrite !norm_render in E by done.
      injection E as E. apply app_inv_head in E. congruence. }
  rewrite bool_decide_eq_false_2.
  2:{ intros E. apply (f_equal norm) in E. rewrite norm_render in E by done.
      vm_compute in E. injection E as _ E. by destruct common. }
  rewrite !isRooted_render by (done || by destruct common).
  assert (Bool.eqb r r = true) as -> by (by destruct r). cbn [negb].
  rewrite !relElems_render by (done || by destruct common).
  rewrite dropCommon_same. cbn [dropCommon].
  rewrite bool_decide_eq_false_2 by congruence.
  by rewrite bool_decide_eq_true_2.
Qed.

End relative_errors.

(** The module that is being converted lies above the directory its
    path is relative to (its directory begins with [..] where the mirrored
    file's path does not).  Then the path of the mirrored file cannot be
    made relative: the error is printed and the found path is empty, so
    that the statement is left as it is. *)
Theorem package_path_not_relative (w : world) (buildPath convertPath pathStr foundPath : string)
    (r : bool) (common bs ts : list string) (t0 : string) :
  let w1 := copyNpmModule w pathStr (buildPath ++ "/spa/web_modules") in
  (checkNpmPath w1 buildPath pathStr).2 = inr foundPath ->
  Path.norm (Path.Dir convertPath) = (r, (common ++ ".." :: bs)%list) ->
  Path.norm foundPath = (r, (common ++ t0 :: ts)%list) ->
  t0 <> ".." ->
  resolveBare buildPath convertPath w pathStr
  = (say (checkNpmPath w1 buildPath pathStr).1 MRelErr, inr "").
Proof.
  intros w1 Hfound Hb Ht Hne. unfold resolveBare. fold w1.
  destruct (checkNpmPath w1 buildPath pathStr) as [w2 res]. cbn [fst snd] in *.
  subst res. by rewrite (Rel_above _ _ r common bs t0 ts).
Qed.

Lemma package_path_not_relative_witness :
  (resolveBare "public" "../y.js" world_left_pad "left-pad").2 = inr ""
  /\ out (resolveBare "public" "../y.js" world_left_pad "left-pad").1 = [MRelErr].
Proof.
  rewrite (package_path_not_relative world_left_pad "public" "../y.js" "left-pad"
             "public/spa/web_modules/left-pad/index.mjs" false [] []
             ["spa"; "web_modules"; "left-pad"; "index.mjs"] "public").
  - vm_compute. split; reflexivity.
  - vm_compute. reflexivity.
  - vm_compute. reflexivity.
  - vm_compute. reflexivity.
  - done.
Defined.

(** ** A statement that has been rewritten before *)

Lemma drop_empty k : Str.drop k "" = "".
Proof. by destruct k. Qed.

Lemma replaceAll_go_same old : old <> "" -> forall s k,
  Str.replaceAll_go old old k s = Str.drop k s.
Proof.
  intros Hold. induction s as [|c s IH]; intros k.
  - by rewrite drop_empty.
  - cbn [Str.replaceAll_go]. destruct k as [|k]; [|by rewrite IH].
    destruct (Str.hasPrefix (String c s) old) eqn:Hp.
    + rewrite IH. unfold Str.hasPrefix in Hp.
      destruct old as [|c' o]; [done|]. cbn [String.length Nat.pred].
      apply prefix_drop in Hp. exact Hp.
    + by rewrite IH.
Qed.

Lemma replaceAll_same s old : Str.replaceAll s old old = s.
Proof.
  unfold Str.replaceAll. destruct old as [|c o].
  - induction s as [|d s IH]; [done|]. cbn [Str.intersperse_all].
    change ("" ++ String d (Str.intersperse_all "" s)) with (String d (Str.intersperse_all "" s)).
    by rewrite IH.
  - by rewrite replaceAll_go_same.
Qed.

(** The rewriting is idempotent on local references.  A statement whose
    path stands in single quotes, has another extension than [.svelte],
    holds no dollar sign and does not mention the build directory is
    replaced by itself: when its location exists, the module there is
    processed and the text of the current module stays as it is. *)
Theorem rewritten_local_reference_is_stable
    (rec : rec_call) (buildPath convertPath before body after : string) (st : loop) :
  let s := before ++ String Str.squote (body ++ String Str.squote after) in
  let callee := rec (say (say (l_world st) (MFullpath (fullPathOf convertPath body)))
                         (MConvertpath convertPath))
                    buildPath (fullPathOf convertPath body)
                    (l_converted st ++ [convertPath])%list in
  every not_quote before = true ->
  every not_newline body = true ->
  every not_quote body = true ->
  every not_quote after = true ->
  Path.Ext body <> ".svelte" ->
  isBare body = Some false ->
  contains buildPath body = false ->
  every not_dollar body = true ->
  fileExists (fs (l_world st)) (fullPathOf convertPath body) = true ->
  aborts callee.2 = false ->
  resolveStatement rec buildPath convertPath st s
  = inl (Loop callee.1 (l_content st) (l_converted st ++ [convertPath])%list).
Proof.
  intros s callee Hb Hn Hq Ha Hext Hbare Hbp Hd Hex Hab.
  unfold resolveStatement, resolveLocal.
  assert (Hp : pathOf s = body).
  { unfold s. rewrite pathOf_quoted by done. by rewrite bool_decide_eq_false_2. }
  rewrite Hp, Hex. fold callee. destruct callee as [w2 o]. cbn [fst snd] in *.
  rewrite Hab, Hbare. unfold applyFound. cbn [l_world l_content l_converted].
  assert (body <> "") by (intros E; by rewrite E in Hbare).
  rewrite bool_decide_eq_true_2 by done.
  unfold s. rewrite rewriteStatement_quoted by (done || by rewrite replace1_absent).
  rewrite replace1_absent by done.
  change (before ++ "'" ++ body ++ "'" ++ after)
    with (before ++ String Str.squote (body ++ String Str.squote after)).
  by rewrite replaceAll_same.
Qed.

Lemma rewritten_local_reference_is_stable_witness :
  resolveStatement rec_nop "public" "a/index.js"
                   (Loop world_local "import B from './b.js';" [])
                   "import B from './b.js';"
  = inl (Loop (say (say world_local (MFullpath "a/b.js")) (MConvertpath "a/index.js"))
              "import B from './b.js';" ["a/index.js"]).
Proof.
  pose proof (rewritten_local_reference_is_stable rec_nop "public" "a/index.js"
                "import B from " "./b.js" ";"
                (Loop world_local "import B from './b.js';" [])) as H.
  cbv zeta in H. etrans; [apply H|].
  - reflexivity.
  - reflexivity.
  - reflexivity.
  - reflexivity.
  - vm_compute. discriminate.
  - vm_compute. reflexivity.
  - vm_compute. reflexivity.
  - vm_compute. reflexivity.
  - vm_compute. reflexivity.
  - vm_compute. reflexivity.
  - vm_compute. reflexivity.
Defined.

(** ** A package import of the entry module, from statement to text *)

Lemma resolveBare_entry_mirrored w buildPath pathStr names :
  let main := buildPath ++ "/spa/ejected/main.js" in
  let w1 := copyNpmModule w pathStr (buildPath ++ "/spa/web_modules") in
  buildPath <> "" ->
  Forall proper names -> names <> [] ->
  (checkNpmPath w1 buildPath pathStr).2
  = inr (buildPath ++ "/spa/web_modules/" ++ Str.join "/" names) ->
  resolveBare buildPath main w pathStr
  = ((checkNpmPath w1 buildPath pathStr).1, inr ("../web_modules/" ++ Str.join "/" names)).
Proof.
  intros main w1 Hp Hall Hne Hfound. unfold resolveBare. fold w1.
  destruct (checkNpmPath w1 buildPath pathStr) as [w2 res]. cbn [fst snd] in *.
  subst res. unfold main. by rewrite Rel_entry_mirrored.
Qed.

(** The entry module has a statement with one quoted path that counts
    as a package name and names nothing next to the module, and the
    lookup after the copy returns a file below the mirror root.  When the
    path of that file below [../web_modules] neither contains the build
    directory (its first occurrence would be removed) nor a dollar sign
    (it would be read as a replacement template), no other module is
    read, and the statement is replaced, wherever it occurs in the text,
    by itself with that path in single quotes. *)
Theorem entry_package_import_rewritten
    (rec : rec_call) (buildPath before body after : string) (q1 q2 : ascii)
    (names : list string) (st : loop) :
  let main := buildPath ++ "/spa/ejected/main.js" in
  let s := before ++ String q1 (body ++ String q2 after) in
  let w1 := copyNpmModule (l_world st) body (buildPath ++ "/spa/web_modules") in
  let rel := "../web_modules/" ++ Str.join "/" names in
  every not_quote before = true ->
  Str.is_quote q1 = true ->
  every not_newline body = true ->
  every not_quote body = true ->
  Str.is_quote q2 = true ->
  every not_quote after = true ->
  isBare body = Some true ->
  fileExists (fs (l_world st)) (fullPathOf main body) = false ->
  buildPath <> "" -> Forall proper names -> names <> [] ->
  (checkNpmPath w1 buildPath body).2
  = inr (buildPath ++ "/spa/web_modules/" ++ Str.join "/" names) ->
  contains buildPath rel = false ->
  every not_dollar rel = true ->
  resolveStatement rec buildPath main st s
  = inl (Loop (checkNpmPath w1 buildPath body).1
              (Str.replaceAll (l_content st) s (before ++ "'" ++ rel ++ "'" ++ after))
              (l_converted st)).
Proof.
  intros main s w1 rel Hb H1 Hn Hq H2 Ha Hbare Hex Hbp Hall Hne Hfound Hc Hd.
  unfold resolveStatement, resolveLocal.
  assert (Hext : Path.Ext body <> ".svelte").
  { apply isBare_true_iff in Hbare as (c & t & _ & _ & ->). discriminate. }
  assert (Hp : pathOf s = body).
  { unfold s. rewrite pathOf_quoted by done. by rewrite bool_decide_eq_false_2. }
  rewrite Hp, Hex. cbn [aborts]. rewrite Hbare. unfold main.
  rewrite (resolveBare_entry_mirrored (l_world st) buildPath body names) by done.
  fold w1 rel. unfold applyFound. cbn [l_world l_content l_converted].
  rewrite bool_decide_eq_true_2 by done.
  unfold s. rewrite rewriteStatement_quoted by (done || by rewrite replace1_absent).
  by rewrite replace1_absent.
Qed.

Lemma entry_package_import_rewritten_witness :
  match resolveStatement rec_nop "public" "public/spa/ejected/main.js"
          (Loop world_left_pad "import pad from 'left-pad';" [])
          "import pad from 'left-pad';" with
  | inl st => l_content st = "import pad from '../web_modules/left-pad/index.mjs';"
  | inr _ => False
  end.
Proof.
  pose proof (entry_package_import_rewritten rec_nop "public" "import pad from " "left-pad"
                ";" Str.squote Str.squote ["left-pad"; "index.mjs"]
                (Loop world_left_pad "import pad from 'left-pad';" [])) as H.
  cbv zeta in H.
  change ("public" ++ "/spa/ejected/main.js") with "public/spa/ejected/main.js" in H.
  change ("import pad from " ++ String Str.squote ("left-pad" ++ String Str.squote ";"))
    with "import pad from 'left-pad';" in H.
  rewrite H.
  - vm_compute. reflexivity.
  - reflexivity.
  - reflexivity.
  - reflexivity.
  - reflexivity.
  - reflexivity.
  - reflexivity.
  - vm_compute. reflexivity.
  - vm_compute. reflexivity.
  - done.
  - repeat constructor; done.
  - done.
  - vm_compute. reflexivity.
  - vm_compute. reflexivity.
  - vm_compute. reflexivity.
Defined.

(** ** What the rewriting does to a dollar sign and to the build path

    The found path is the replacement template of [rePath.ReplaceAll], in
    which a dollar sign starts the name of a group, and the first
    occurrence of the build path is taken out of it wherever it stands. *)

Lemma dollar_in_path_is_expanded :
  rewriteStatement "public" "import B from './a$b.js';" "./a$b.js"
  = "import B from './a.js';".
Proof. vm_compute. reflexivity. Qed.

Lemma build_path_taken_out_of_package_name :
  Str.replace1 "../web_modules/public-ip/index.mjs" "public" ""
  = "../web_modules/-ip/index.mjs"
  /\ rewriteStatement "public" "import ip from 'public-ip';"
       "../web_modules/public-ip/index.mjs"
     = "import ip from '../web_modules/-ip/index.mjs';".
Proof. vm_compute. split; reflexivity. Qed.

(** * Runs as a whole *)

(** ** The file system only grows *)

Global Instance grows_preorder : PreOrder grows.
Proof.
  split.
  - intros f k. destruct (f !! k) as [nd|] eqn:E; [by exists nd | done].
  - intros f g h H1 H2 k. specialize (H1 k).
    destruct (f !! k) as [nd|].
    + destruct H1 as (nd1 & Hg & S1). specialize (H2 k). rewrite Hg in H2.
      destruct H2 as (nd2 & Hh & S2). exists nd2. split; [done | congruence].
    + intros Hk. specialize (H1 Hk). specialize (H2 k). rewrite H1 in H2. by apply H2.
Qed.

Lemma extends_grows f f' : extends f f' -> grows f f'.
Proof.
  intros He k. destruct (He k) as [E|[Hn Hk]].
  - rewrite E. destruct (f !! k) as [nd|]; [by exists nd | done].
  - by rewrite Hn.
Qed.

Lemma WriteFile_grows f p d f' : WriteFile f p d = inr f' -> grows f f'.
Proof.
  intros Hw. apply WriteFile_inr in Hw as (-> & Hres & _).
  intros k. destruct (decide (k = Path.norm p)) as [->|Hne].
  - rewrite lookup_insert_eq. destruct Hres as [Hnl | [d0 Hf]].
    + pose proof (resolve_NoLeaf_nonempty _ _ Hnl) as Hk.
      apply resolve_NoLeaf in Hnl. by rewrite Hnl.
    + apply resolve_File_lookup in Hf. rewrite Hf. by exists (File d).
  - rewrite lookup_insert_ne by done.
    destruct (f !! k) as [nd|]; [by exists nd | done].
Qed.

Lemma copyEntry_grows gopackDir w c : grows (fs w) (fs (copyEntry gopackDir w c).1).
Proof.
  unfold copyEntry. destruct (c_err c); [done|].
  destruct (negb _ && bool_decide _); [|done].
  destruct (stat (fs w) (c_path c)) as [e|from]; [done|].
  destruct (MkdirAll _ _) as [e|f1] eqn:Hm; [done|].
  assert (H1 : grows (fs w) f1).
  { apply extends_grows, adds_dirs_extends. by apply MkdirAll_adds_dirs in Hm. }
  destruct from as [data|o].
  - destruct (WriteFile f1 _ data) as [e|f2] eqn:Hw; [done|].
    cbn. etrans; [exact H1|]. by apply WriteFile_grows in Hw.
  - destruct (WriteFile f1 _ "") as [e|f2] eqn:Hw; [done|].
    cbn. etrans; [exact H1|]. by apply WriteFile_grows in Hw.
Qed.

Lemma run_copy_grows gopackDir cs : forall w,
  grows (fs w) (fs (run (copyEntry gopackDir) w cs).1).
Proof.
  induction cs as [|c cs IH]; intros w; [done|]. cbn [run].
  pose proof (copyEntry_grows gopackDir w c) as Hc.
  destruct (copyEntry gopackDir w c) as [w1 [|e]]; [|done].
  etrans; [exact Hc | apply IH].
Qed.

Lemma copyNpmModule_grows w module gopackDir :
  grows (fs w) (fs (copyNpmModule w module gopackDir)).
Proof. rewrite copyNpmModule_fs. apply run_copy_grows. Qed.

Lemma resolveBare_grows buildPath convertPath w pathStr :
  grows (fs w) (fs (resolveBare buildPath convertPath w pathStr).1).
Proof.
  unfold resolveBare.
  pose proof (copyNpmModule_grows w pathStr (buildPath ++ "/spa/web_modules")) as Hc.
  pose proof (checkNpmPath_fs (copyNpmModule w pathStr (buildPath ++ "/spa/web_modules"))
                buildPath pathStr) as Hfs.
  destruct (checkNpmPath _ _ _) as [w2 [pk|fp]]; cbn [fst] in *.
  - by rewrite Hfs.
  - destruct (Path.Rel _ _); cbn; by rewrite Hfs.
Qed.

Section only_grows.
Variable rec : rec_call.
Hypothesis Hrec : grows_rec rec.
Variables buildPath convertPath : string.

Lemma resolveLocal_grows st pathStr :
  grows (fs (l_world st))
        (fs (l_world (resolveLocal rec buildPath convertPath st pathStr).1.1)).
Proof.
  unfold resolveLocal. destruct (fileExists _ _); [|done].
  pose proof (Hrec (say (say (l_world st) (MFullpath (fullPathOf convertPath pathStr)))
                        (MConvertpath convertPath))
                buildPath (fullPathOf convertPath pathStr)
                (l_converted st ++ [convertPath])%list) as H.
  by destruct (rec _ _ _ _).
Qed.

Lemma resolveStatement_grows st s :
  grows_step (fs (l_world st)) (resolveStatement rec buildPath convertPath st s).
Proof.
  unfold resolveStatement.
  pose proof (resolveLocal_grows st (pathOf s)) as Hl.
  destruct (resolveLocal rec buildPath convertPath st (pathOf s)) as [[st1 found] o].
  cbn [fst] in Hl.
  destruct (aborts o); [done|].
  destruct (isBare (pathOf s)) as [[]|]; [| |done].
  - pose proof (resolveBare_grows buildPath convertPath (l_world st1) (pathOf s)) as Hb.
    destruct (resolveBare _ _ _ _) as [w2 [pk|fp]]; cbn [fst] in Hb.
    + cbn. by etrans.
    + unfold grows_step. rewrite (proj1 (applyFound_fs _ _ _ _ _ _)). cbn. by etrans.
  - unfold grows_step. by rewrite (proj1 (applyFound_fs _ _ _ _ _ _)).
Qed.

Lemma resolveAll_grows ss : forall st,
  grows_step (fs (l_world st)) (resolveAll rec buildPath convertPath st ss).
Proof.
  induction ss as [|s ss IH]; intros st; [cbn; reflexivity|]. cbn [resolveAll].
  pose proof (resolveStatement_grows st s) as Hs.
  destruct (resolveStatement rec buildPath convertPath st s) as [st'|wo]; [|done].
  cbn in Hs. specialize (IH st').
  destruct (resolveAll rec buildPath convertPath st' ss); cbn in *; by etrans.
Qed.

Lemma runPackF_grows w converted :
  grows (fs w) (fs (runPackF rec w buildPath convertPath converted).1).
Proof.
  unfold runPackF. destruct (bool_decide _); [done|].
  destruct (ReadFile (fs w) convertPath) as [e|c]; [done|].
  pose proof (resolveAll_grows (allStaticStatements (fixDynamicImports c))
                (Loop (visit w convertPath) (fixDynamicImports c) converted)) as Ha.
  destruct (resolveAll _ _ _ _ _) as [st|wo]; [|done].
  cbn in Ha.
  destruct (WriteFile _ _ _) as [e|f] eqn:Hw; [done|].
  cbn. etrans; [exact Ha|]. by apply WriteFile_grows in Hw.
Qed.

End only_grows.

Lemma runPack_grows n : grows_rec (runPack n).
Proof.
  induction n as [|n IH]; intros w buildPath convertPath converted; [done|].
  cbn [runPack]. by apply runPackF_grows.
Qed.

Lemma descend_grows f f' r : grows f f' -> forall es pre nd nd1 ndp,
  shape ndp = shape nd ->
  descend f r pre nd es = Found nd1 ->
  exists nd1', descend f' r pre ndp es = Found nd1' /\ shape nd1' = shape nd1.
Proof.
  intros Hg. induction es as [|e es IH]; intros pre nd nd1 ndp Hs H; cbn [descend] in *.
  - injection H as <-. by exists ndp.
  - destruct nd as [|[]]; try discriminate.
    destruct ndp as [|[]]; try discriminate.
    specialize (Hg (r, (pre ++ [e])%list)).
    destruct (f !! (r, (pre ++ [e])%list)) as [y|]; [|destruct es; discriminate].
    destruct Hg as (y' & -> & Hy). by apply (IH _ y).
Qed.

Lemma resolve_grows f f' k nd :
  grows f f' -> resolve f k = Found nd ->
  exists nd', resolve f' k = Found nd' /\ shape nd' = shape nd.
Proof.
  intros Hg H. unfold resolve in *.
  apply (descend_grows f f' k.1 Hg k.2 [] (top f k.1)); [|done].
  unfold top. specialize (Hg (k.1, [])).
  destruct (f !! (k.1, [])) as [y|].
  - by destruct Hg as (y' & -> & Hy).
  - by rewrite Hg.
Qed.

(** A regular file stays a regular file. *)
Lemma stat_grows_File f f' p d :
  grows f f' -> stat f p = inr (File d) -> exists d', stat f' p = inr (File d').
Proof.
  intros Hg Hs. apply stat_inr in Hs as [Hp Hr].
  apply (resolve_grows _ _ _ _ Hg) in Hr as (nd' & Hr' & Hsh).
  destruct nd' as [d'|o]; [|discriminate].
  exists d'. by apply stat_resolve.
Qed.

(** ** C8: a local component import, in general *)


Lemma svelte_path_facts :
  every not_newline "./b.svelte" = true
  /\ every not_quote "./b.svelte" = true
  /\ (if bool_decide (Path.Ext "./b.svelte" = ".svelte")
      then Str.replace1 "./b.svelte" ".svelte" ".js" else "./b.svelte") = "./b.js"
  /\ isBare "./b.js" = Some false
  /\ every not_dollar "./b.js" = true.
Proof. vm_compute. repeat split; reflexivity. Qed.

(** The statement in the loop, whatever the state of the loop: the
    sibling is processed, and unless that ends the run the statement is
    replaced in the text by itself with [./b.js] in single quotes. *)
Lemma svelte_statement_step
    (rec : rec_call) (buildPath convertPath before after : string) (q1 q2 : ascii)
    (st : loop) :
  let s := before ++ String q1 ("./b.svelte" ++ String q2 after) in
  let sibling := fullPathOf convertPath "./b.js" in
  let r := rec (say (say (l_world st) (MFullpath sibling)) (MConvertpath convertPath))
               buildPath sibling (l_converted st ++ [convertPath])%list in
  every not_quote before = true ->
  Str.is_quote q1 = true ->
  Str.is_quote q2 = true ->
  every not_quote after = true ->
  contains buildPath "./b.js" = false ->
  fileExists (fs (l_world st)) sibling = true ->
  resolveStatement rec buildPath convertPath st s
  = if aborts r.2 then inr r
    else inl (Loop r.1 (Str.replaceAll (l_content st) s (before ++ "'./b.js'" ++ after))
                   (l_converted st ++ [convertPath])%list).
Proof.
  intros s sibling r Hb H1 H2 Ha Hbp Hex.
  destruct svelte_path_facts as (Hnl & Hnq & Hpath & Hbare & Hdollar).
  assert (Hp : pathOf s = "./b.js").
  { unfold s. rewrite pathOf_quoted by done. exact Hpath. }
  unfold resolveStatement, resolveLocal.
  rewrite Hp. fold sibling. rewrite Hex. fold r. destruct r as [w2 o]. cbn [fst snd].
  destruct (aborts o); [done|]. rewrite Hbare.
  unfold applyFound. cbn [l_world l_content l_converted].
  rewrite bool_decide_eq_true_2 by done.
  unfold s. rewrite rewriteStatement_quoted by (done || by rewrite replace1_absent).
  by rewrite replace1_absent.
Qed.



(** ** How deep the recursion can go *)

Lemma keeps_file_keys f f' k : keeps f f' -> k ∈ file_keys f -> k ∈ file_keys f'.
Proof.
  intros Hk [d Hd]%elem_of_file_keys. apply elem_of_file_keys.
  destruct (Hk k (File d) Hd) as ([d'|o] & Hl & Hs); [by exists d' | discriminate].
Qed.

Section deep_runs.
Context (m : nat) (rec : rec_call) (buildPath convertPath : string) (base : list string).
Context (Hrec : deep_rec m rec base).

Lemma resolveStatement_deep st s :
  (forall x, x ∈ base -> x ∈ (l_converted st ++ [convertPath])%list) ->
  match resolveStatement rec buildPath convertPath st s with
  | inl st' => forall x, x ∈ base -> x ∈ (l_converted st' ++ [convertPath])%list
  | inr wo => wo.2 = OutOfFuel -> m <= pending (fs wo.1) base
  end.
Proof.
  intros Hbase. unfold resolveStatement, resolveLocal.
  destruct (fileExists _ _).
  - set (w1 := say (say _ _) _).
    pose proof (Hrec w1 buildPath (fullPathOf convertPath (pathOf s))
                  (l_converted st ++ [convertPath])%list
                  (canonical_fullPathOf _ _) Hbase) as Hd.
    destruct (rec w1 _ _ _) as [w2 o]. cbn [fst snd l_world l_converted] in *.
    destruct (aborts o) eqn:Hab; cbn [fst snd l_world l_converted].
    + intros Ho. etrans; [by apply Hd|]. by apply pending_mono.
    + assert (Hbase' : forall x, x ∈ base ->
                x ∈ ((l_converted st ++ [convertPath]) ++ [convertPath])%list).
      { intros x Hx. apply elem_of_app. left. by apply Hbase. }
      destruct (isBare (pathOf s)) as [[]|]; [| |done].
      * destruct (resolveBare _ _ _ _) as [w3 [pk|fp]]; [done|].
        by rewrite (proj2 (applyFound_fs _ _ _ _ _ _)).
      * by rewrite (proj2 (applyFound_fs _ _ _ _ _ _)).
  - cbn [aborts].
    destruct (isBare (pathOf s)) as [[]|]; [| |done].
    + destruct (resolveBare _ _ _ _) as [w3 [pk|fp]]; [done|].
      by rewrite (proj2 (applyFound_fs _ _ _ _ _ _)).
    + by rewrite (proj2 (applyFound_fs _ _ _ _ _ _)).
Qed.

Lemma resolveAll_deep ss : forall st,
  (forall x, x ∈ base -> x ∈ (l_converted st ++ [convertPath])%list) ->
  match resolveAll rec buildPath convertPath st ss with
  | inl st' => True
  | inr wo => wo.2 = OutOfFuel -> m <= pending (fs wo.1) base
  end.
Proof.
  induction ss as [|s ss IH]; intros st Hst; [done|]. cbn [resolveAll].
  pose proof (resolveStatement_deep st s Hst) as H.
  destruct (resolveStatement _ _ _ _ _) as [st'|wo]; [by apply IH | done].
Qed.

(** One activation uses up the bound only through a callee. *)
Lemma runPackF_deep w converted :
  (forall x, x ∈ base -> x ∈ (converted ++ [convertPath])%list) ->
  (runPackF rec w buildPath convertPath converted).2 = OutOfFuel ->
  (convertPath ∉ converted)
  /\ (exists c, ReadFile (fs w) convertPath = inr c)
  /\ m <= pending (fs (runPackF rec w buildPath convertPath converted).1) base.
Proof.
  intros Hbase. unfold runPackF.
  destruct (bool_decide (convertPath ∈ converted)) eqn:Hg; [done|].
  apply bool_decide_eq_false in Hg.
  destruct (ReadFile (fs w) convertPath) as [e|c]; [done|].
  pose proof (resolveAll_deep (allStaticStatements (fixDynamicImports c))
                (Loop (visit w convertPath) (fixDynamicImports c) converted) Hbase) as H.
  destruct (resolveAll _ _ _ _ _) as [st|wo].
  - destruct (WriteFile _ _ _); done.
  - intros Ho. split; [done|]. split; [by exists c | by apply H].
Qed.

End deep_runs.

(** A run on a cleaned path that uses up the bound [n] leaves at least
    [n] regular files that are not among its converted files. *)
Lemma runPack_deep n : forall base, deep_rec n (runPack n) base.
Proof.
  induction n as [|n IH]; intros base w buildPath p converted Hcan _ Ho; [lia|].
  cbn [runPack] in *.
  destruct (runPackF_deep n (runPack n) buildPath p (converted ++ [p])%list
              (IH _) w converted) as (Hnin & [c Hc] & Hd); [done | done |].
  set (w' := (runPackF (runPack n) w buildPath p converted).1) in *.
  assert (Hk : Path.norm p ∈ file_keys (fs w')).
  { apply (keeps_file_keys (fs w)); [|by apply readable_file_key in Hc].
    apply (runPackF_keeps (runPack n) (runPack_keeps n)). }
  assert (pending (fs w') (converted ++ [p]) < pending (fs w') converted); [|lia].
  apply (pending_decrease _ _ _ (Path.norm p)); [done| | |].
  - fold (Path.Clean p). by rewrite Hcan.
  - fold (Path.Clean p). rewrite Hcan. apply elem_of_app. right.
    by apply list_elem_of_singleton.
  - intros x Hx. apply elem_of_app. by left.
Qed.

(** Whatever the path, a run that uses up the bound [n] leaves at least
    [n - 1] regular files. *)
Lemma runPack_depth_bound n w buildPath convertPath converted :
  (runPack n w buildPath convertPath converted).2 = OutOfFuel ->
  n <= size (file_keys (fs (runPack n w buildPath convertPath converted).1)) + 1.
Proof.
  destruct n as [|n]; [lia|]. cbn [runPack]. intros Ho.
  destruct (runPackF_deep n (runPack n) buildPath convertPath
              (converted ++ [convertPath])%list (runPack_deep n _) w converted)
    as (_ & _ & Hd); [done | done |].
  pose proof (pending_le (fs (runPackF (runPack n) w buildPath convertPath converted).1)
                (converted ++ [convertPath])). lia.
Qed.

(** ** Cleaned paths of the modules read *)

Section canon_runs.
Context (rec : rec_call) (Hrec : canon_rec rec).
Context (buildPath convertPath : string).

Lemma resolveStatement_canon w0 st s :
  world_canon w0 (l_world st) ->
  match resolveStatement rec buildPath convertPath st s with
  | inl st' => world_canon w0 (l_world st')
  | inr wo => world_canon w0 wo.1
  end.
Proof.
  intros (vs & Hvs & Hall). unfold resolveStatement.
  assert (Hloc : world_canon w0
                   (l_world (resolveLocal rec buildPath convertPath st (pathOf s)).1.1)).
  { unfold resolveLocal. destruct (fileExists _ _); [|by exists vs].
    set (w1 := say (say _ _) _).
    destruct (Hrec w1 buildPath (fullPathOf convertPath (pathOf s))
                (l_converted st ++ [convertPath])%list (canonical_fullPathOf _ _))
      as (vs' & Hvs' & Hall').
    change (visits w1) with (visits (l_world st)) in Hvs'.
    destruct (rec w1 _ _ _) as [w2 o]. cbn [fst snd l_world] in *.
    exists (vs ++ vs')%list. split; [by rewrite Hvs', Hvs, app_assoc|].
    by apply Forall_app. }
  destruct (resolveLocal _ _ _ _ _) as [[st1 found] o]. cbn [fst snd] in Hloc.
  destruct (aborts o); [exact Hloc|].
  destruct (isBare (pathOf s)) as [[]|]; [| |exact Hloc].
  - pose proof (resolveBare_visits buildPath convertPath (l_world st1) (pathOf s)) as Hb.
    destruct (resolveBare _ _ _ _) as [w2 [pk|fp]]; cbn [fst] in Hb.
    + unfold world_canon. cbn [fst]. by rewrite Hb.
    + unfold world_canon. rewrite applyFound_visits. cbn [l_world]. by rewrite Hb.
  - unfold world_canon. by rewrite applyFound_visits.
Qed.

Lemma resolveAll_canon w0 ss : forall st,
  world_canon w0 (l_world st) ->
  match resolveAll rec buildPath convertPath st ss with
  | inl st' => world_canon w0 (l_world st')
  | inr wo => world_canon w0 wo.1
  end.
Proof.
  induction ss as [|s ss IH]; intros st Hst; [done|]. cbn [resolveAll].
  pose proof (resolveStatement_canon w0 st s Hst) as H.
  destruct (resolveStatement _ _ _ _ _) as [st'|wo]; [by apply IH | done].
Qed.

Lemma runPackF_canon w converted :
  visits (runPackF rec w buildPath convertPath converted).1 = visits w
  \/ exists vs,
       visits (runPackF rec w buildPath convertPath converted).1
       = (visits w ++ convertPath :: vs)%list
       /\ Forall canonical vs.
Proof.
  unfold runPackF. destruct (bool_decide _); [by left|].
  destruct (ReadFile (fs w) convertPath) as [e|content]; [by left|].
  right.
  pose proof (resolveAll_canon (visit w convertPath)
                (allStaticStatements (fixDynamicImports content))
                (Loop (visit w convertPath) (fixDynamicImports content) converted)) as H.
  assert (Hend : forall w', world_canon (visit w convertPath) w' ->
             exists vs, visits w' = (visits w ++ convertPath :: vs)%list
                        /\ Forall canonical vs).
  { intros w' (vs & Hvs & Hall). exists vs. split; [|done].
    rewrite Hvs. cbn [visit visits]. by rewrite <- app_assoc. }
  assert (H0 : world_canon (visit w convertPath) (visit w convertPath)).
  { exists []. split; [by rewrite app_nil_r | constructor]. }
  specialize (H H0).
  destruct (resolveAll _ _ _ _ _) as [st|wo]; [|by apply Hend].
  destruct (WriteFile _ _ _); apply Hend; done.
Qed.

End canon_runs.

Lemma runPack_canon n : canon_rec (runPack n).
Proof.
  induction n as [|n IH]; intros w buildPath p converted Hcan.
  - exists []. split; [by rewrite app_nil_r | constructor].
  - cbn [runPack].
    destruct (runPackF_canon (runPack n) IH buildPath p w converted)
      as [H | (vs & H & Hall)].
    + exists []. split; [by rewrite app_nil_r | constructor].
    + exists (p :: vs). split; [done | by constructor].
Qed.

(** Inside the activation of a module, only modules with cleaned paths
    other than its own are read; when its own path is cleaned, none of
    them is the same file. *)
Lemma runPack_visits_inside n w buildPath convertPath converted :
  visits (runPack n w buildPath convertPath converted).1 = visits w
  \/ exists vs,
       visits (runPack n w buildPath convertPath converted).1
       = (visits w ++ convertPath :: vs)%list
       /\ (convertPath ∉ vs)
       /\ Forall canonical vs
       /\ (canonical convertPath ->
           Forall (fun v => Path.norm v <> Path.norm convertPath) vs).
Proof.
  destruct (runPack_visits_own n w buildPath convertPath converted)
    as [H | (vs & H & Hn)]; [by left|].
  right. exists vs. split; [done|]. split; [done|].
  assert (Hall : Forall canonical vs).
  { destruct n as [|n]; cbn [runPack] in H.
    - apply (f_equal List.length) in H. rewrite length_app in H. cbn in H. lia.
    - destruct (runPackF_canon (runPack n) (runPack_canon n) buildPath convertPath
                  w converted) as [H' | (vs' & H' & Hall')].
      + rewrite H' in H. apply (f_equal List.length) in H.
        rewrite length_app in H. cbn in H. lia.
      + rewrite H' in H. apply app_inv_head in H. by injection H as ->. }
  split; [done|]. intros Hcan.
  apply Forall_forall. intros v Hv Heq.
  rewrite Forall_forall in Hall. pose proof (Hall v Hv) as Hvc.
  apply Hn. unfold canonical, Path.Clean in *.
  rewrite Heq in Hvc. rewrite Hcan in Hvc. by subst v.
Qed.

(** The guard compares paths as they are written.  The entry module of
    the build path [./public] imports itself: its own path begins with
    [./], the path of the import is cleaned, and so the module is read a
    second time inside its own activation. *)
Lemma uncleaned_entry_read_again :
  let r := Gopack 4 world_self_import "./public" in
  r.2 = Ok
  /\ visits r.1 = ["./public/spa/ejected/main.js"; "public/spa/ejected/main.js"]
  /\ Path.norm "./public/spa/ejected/main.js" = Path.norm "public/spa/ejected/main.js".
Proof. vm_compute. repeat split; reflexivity. Qed.

(** ** A run that does not end *)

Section tower_facts.
Import Str Path FS.

Lemma proper_normal es : Forall proper es -> normal false es.
Proof. intros H. exists [], es. split; [done|]. split; [constructor|]. by split. Qed.

Lemma tower_top f : tower f -> top f false = Dir true.
Proof.
  intros Hf. unfold top. destruct (f !! (false, [])) as [nd|] eqn:E; [|done].
  by destruct (Hf _ _ E) as (_ & Hne & _).
Qed.

Lemma tower_insert f k nd :
  tower f -> resolve f k = NoLeaf -> k.1 = false -> Forall proper k.2 ->
  tower_node k nd -> tower (<[k := nd]> f).
Proof.
  intros Hf Hres Hr Hall Hnd k' nd' Hk'.
  pose proof (resolve_NoLeaf_nonempty _ _ Hres) as Hne.
  pose proof (resolve_NoLeaf _ _ Hres) as Hnone.
  destruct (decide (k = k')) as [<-|Hd].
  - rewrite lookup_insert_eq in Hk'. injection Hk' as <-.
    repeat split; try done. apply resolve_insert. by left.
  - rewrite lookup_insert_ne in Hk' by done.
    destruct (Hf _ _ Hk') as (H1 & H2 & H3 & H4 & H5).
    repeat split; try done.
    by apply (resolve_extends f _ _ _ (extends_insert f k nd Hnone Hne)).
Qed.

(** The directory of a node is an open directory. *)
Lemma tower_parent f es e nd :
  tower f -> f !! (false, (es ++ [e])%list) = Some nd ->
  resolve f (false, es) = Found (Dir true).
Proof.
  intros Hf Hk. destruct (Hf _ _ Hk) as (_ & _ & _ & Hres & _).
  unfold resolve in *. cbn [fst snd] in *.
  by apply descend_snoc_inv in Hres as [Hres _].
Qed.

Lemma tower_ancestor f a : forall b nd,
  tower f -> f !! (false, (a ++ b)%list) = Some nd -> a <> [] -> b <> [] ->
  f !! (false, a) = Some (Dir true).
Proof.
  intros b. induction b as [|e b IH] using rev_ind; intros nd Hf Hk Ha Hb; [done|].
  rewrite app_assoc in Hk. pose proof (tower_parent _ _ _ _ Hf Hk) as Hp.
  apply resolve_Found_cases in Hp as [Hp|Hp].
  - destruct b as [|x b]; [by rewrite app_nil_r in Hp|].
    by apply (IH (Dir true)).
  - cbn in Hp. by destruct a.
Qed.

(** No directory on the way to a node is named [m.mjs]. *)
Lemma tower_inner_names f es e nd :
  tower f -> f !! (false, (es ++ [e])%list) = Some nd -> "m.mjs" ∉ es.
Proof.
  intros Hf Hk Hin. apply list_elem_of_split in Hin as (a & b & ->).
  assert (Hanc : f !! (false, (a ++ ["m.mjs"])%list) = Some (Dir true)).
  { apply (tower_ancestor f _ (b ++ [e])%list nd); [done| |by destruct a|by destruct b].
    by rewrite <- !app_assoc in *. }
  destruct (Hf _ _ Hanc) as (_ & _ & _ & _ & _ & Hl).
  cbn in Hl. by rewrite last_snoc in Hl.
Qed.

Lemma resolve_child f r es e :
  resolve f (r, es) = Found (Dir true) ->
  resolve f (r, (es ++ [e])%list)
  = match f !! (r, (es ++ [e])%list) with
    | Some nd => Found nd
    | None => NoLeaf
    end.
Proof.
  unfold resolve. cbn [fst snd]. intros H.
  rewrite (descend_app _ _ _ [e] _ _ _ H). cbn.
  by destruct (f !! (r, (es ++ [e])%list)).
Qed.

Lemma tower_stat f es nd :
  tower f -> f !! (false, es) = Some nd -> stat f (render (false, es)) = inr nd.
Proof.
  intros Hf Hk. destruct (Hf _ _ Hk) as (_ & Hne & Hall & Hres & _).
  cbn [fst snd] in *. apply stat_resolve.
  - destruct es as [|e es] using rev_ind; [done|]. apply render_snoc_ne.
    apply Forall_app in Hall as [_ He]. inversion He as [|? ? (? & _)]. done.
  - by rewrite norm_render by (by apply proper_normal).
Qed.

Lemma tower_stat_None f es :
  tower f -> es <> [] -> Forall proper es -> f !! (false, es) = None ->
  exists e, stat f (render (false, es)) = inl e.
Proof.
  intros Hf Hne Hall Hk. destruct (stat f _) as [e|nd] eqn:Hs; [by exists e|].
  apply stat_inr in Hs as [_ Hres].
  rewrite norm_render in Hres by (by apply proper_normal).
  apply resolve_Found_cases in Hres as [Hres|Hres]; [congruence | done].
Qed.

(** *** The walk *)

Lemma entries_sound f r es d :
  d ∈ entries f (r, es) ->
  exists nd, f !! (r, (es ++ [d_name d])%list) = Some nd /\ d_isDir d = node_isDir nd.
Proof.
  unfold entries. rewrite merge_sort_Permutation.
  intros ([k nd] & Hin & Hd)%list_elem_of_omap.
  apply elem_of_map_to_list in Hin. cbn [fst snd] in Hd.
  unfold child_name in Hd. cbn [fst snd] in Hd.
  destruct (bool_decide (k.1 = r)) eqn:Hr; [|done].
  apply bool_decide_eq_true in Hr.
  destruct (reverse k.2) as [|name pre] eqn:Hrev; [done|].
  destruct (bool_decide (reverse pre = es)) eqn:Hes; [|done].
  apply bool_decide_eq_true in Hes. cbn in Hd. injection Hd as <-. cbn [d_name d_isDir].
  exists nd. split; [|done].
  assert (k = (r, (es ++ [name])%list)) as <-; [|done].
  destruct k as [r' es']. cbn [fst snd] in *. subst r'. f_equal.
  rewrite <- (reverse_involutive es'), Hrev, reverse_cons. by rewrite Hes.
Qed.

Lemma walkDir_tower f : tower f -> forall n below nd c,
  f !! (false, "node_modules" :: "p" :: below) = Some nd ->
  c ∈ walkDir n f (render (false, "node_modules" :: "p" :: below)) (node_isDir nd) ->
  tower_call f c.
Proof.
  intros Hf n. induction n as [|n IH]; intros below nd c Hk Hc.
  - cbn [walkDir] in Hc. apply elem_of_cons in Hc as [->|Hc].
    + split; [done|]. by exists below, nd.
    + destruct (node_isDir nd); by apply elem_of_nil in Hc.
  - cbn [walkDir] in Hc. apply elem_of_cons in Hc as [->|Hc].
    { split; [done|]. by exists below, nd. }
    destruct nd as [d|o]; cbn [node_isDir] in Hc; [by apply elem_of_nil in Hc|].
    destruct (Hf _ _ Hk) as (_ & _ & Hall & _ & [-> _]). cbn [fst snd] in Hall.
    unfold ReadDir in Hc. rewrite (tower_stat _ _ _ Hf Hk) in Hc.
    rewrite norm_render in Hc by (by apply proper_normal).
    apply list_elem_of_In, in_flat_map in Hc as (d & Hd & Hc).
    apply list_elem_of_In in Hd, Hc.
    apply entries_sound in Hd as (nd' & Hk' & Hdir).
    destruct (Hf _ _ Hk') as (_ & _ & Hall' & _). cbn [fst snd] in Hall'.
    assert (He : proper (d_name d)).
    { apply Forall_app in Hall' as [_ He]. by inversion He. }
    rewrite (render_Join _ _ false ("node_modules" :: "p" :: below)) in Hc; first last.
    { by apply norm_render, proper_normal. }
    { done. }
    { by rewrite render_nonempty. }
    rewrite Hdir in Hc.
    by apply (IH (below ++ [d_name d])%list nd' c).
Qed.

(** *** Making directories and writing a copy *)


Lemma Dir_render_snoc es e :
  Forall proper (es ++ [e]) -> Path.Dir (render (false, (es ++ [e])%list)) = render (false, es).
Proof.
  intros Hall. apply Forall_app in Hall as [Hes He].
  inversion He as [|? ? (He1 & _ & _ & Hs) _]; subst.
  unfold Path.Dir. destruct es as [|x es].
  - change (render (false, ([] ++ [e])%list)) with e. by rewrite dirPart_no_slash.
  - rewrite render_nonempty by done.
    change ("" ++ join "/" ((x :: es) ++ [e])) with (join "/" ((x :: es) ++ [e])).
    rewrite join_snoc by done. rewrite dirPart_app_slash by done.
    unfold Clean. rewrite norm_trailing_slash.
    + change (join "/" (x :: es)) with (render (false, x :: es)).
      by rewrite norm_render by (by apply proper_normal).
    + inversion Hes as [|? ? (Hx & _) _]; subst. by apply join_nonempty.
Qed.

Lemma length_render es :
  Forall proper es -> List.length es <= String.length (render (false, es)).
Proof.
  induction es as [|x es IH]; [cbn; lia|]. intros Hall.
  inversion Hall as [|? ? (Hx & _) Hes]; subst.
  assert (1 <= String.length x) by (destruct x; [done | cbn; lia]).
  destruct es as [|y es]; [cbn [List.length]; change (render (false, [x])) with x; lia|].
  change (render (false, x :: y :: es)) with (join "/" (x :: y :: es)).
  rewrite join_cons, length_str_app.
  change (join "/" (y :: es)) with (render (false, y :: es)).
  specialize (IH Hes). cbn [List.length String.length] in *. lia.
Qed.

Lemma create_NoLeaf f p nd busy :
  p <> "" -> resolve f (norm p) = NoLeaf -> create f p nd busy = inr (<[norm p := nd]> f).
Proof. intros Hp Hr. unfold create. destruct p; [done|]. by rewrite Hr. Qed.

Lemma render_proper_ne es : es <> [] -> Forall proper es -> render (false, es) <> "".
Proof.
  intros Hne Hall. destruct es as [|e es] using rev_ind; [done|].
  apply render_snoc_ne. apply Forall_app in Hall as [_ He].
  by inversion He as [|? ? (? & _)].
Qed.

(** Making the directories down to a path that has no element [m.mjs]
    succeeds and adds open directories only. *)
Lemma MkdirAll_go_tower es : forall n f,
  tower f -> Forall proper es -> "m.mjs" ∉ es -> List.length es <= S n ->
  exists f',
    MkdirAll_go n f (render (false, es)) = inr f'
    /\ tower f' /\ f ⊆ f'
    /\ resolve f' (false, es) = Found (Dir true)
    /\ (forall k, is_Some (f' !! k) ->
          is_Some (f !! k) \/ exists pre, k = (false, pre) /\ pre `prefix_of` es).
Proof.
  induction es as [|e es IH] using rev_ind; intros n f Hf Hall Hnin Hlen.
  { exists f. split.
    - assert (stat f (render (false, [])) = inr (Dir true)) as Hs.
      { change (stat f (render (false, []))) with (to_stat (resolve f (false, []))).
        unfold resolve. cbn. by rewrite tower_top. }
      destruct n; cbn [MkdirAll_go]; by rewrite Hs.
    - split; [done|]. split; [done|]. split; [|by left].
      unfold resolve. cbn. by rewrite tower_top. }
  assert (Hn : norm (render (false, (es ++ [e])%list)) = (false, (es ++ [e])%list)).
  { by apply norm_render, proper_normal. }
  assert (Hp : render (false, (es ++ [e])%list) <> "").
  { apply render_proper_ne; [by destruct es | done]. }
  destruct (f !! (false, (es ++ [e])%list)) as [nd|] eqn:Hk.
  { (* the directory is there *)
    destruct (Hf _ _ Hk) as (_ & _ & _ & Hres & Hnd).
    assert (nd = Dir true) as ->.
    { destruct nd as [d|o]; cbn in Hnd.
      - destruct Hnd as [_ Hl]. rewrite last_snoc in Hl. injection Hl as ->.
        destruct Hnin. apply elem_of_app. right. by apply list_elem_of_singleton.
      - by destruct Hnd as [-> _]. }
    exists f. split.
    - pose proof (tower_stat _ _ _ Hf Hk) as Hs.
      destruct n; cbn [MkdirAll_go]; by rewrite Hs.
    - split; [done|]. split; [done|]. split; [done | by left]. }
  destruct (tower_stat_None f (es ++ [e])%list Hf) as [err Hs];
    [by destruct es | done | done |].
  apply Forall_app in Hall as [Hes He].
  assert (Hnin' : "m.mjs" ∉ es).
  { intros Hin. apply Hnin. apply elem_of_app. by left. }
  (* the parent *)
  assert (Hpar : exists f1,
             (match n with
              | O => inr f
              | S n' => MkdirAll_go n' f (Path.Dir (render (false, (es ++ [e])%list)))
              end) = inr f1
             /\ tower f1 /\ f ⊆ f1
             /\ resolve f1 (false, es) = Found (Dir true)
             /\ (forall k, is_Some (f1 !! k) ->
                   is_Some (f !! k) \/ exists pre, k = (false, pre) /\ pre `prefix_of` es)).
  { destruct n as [|n'].
    - exists f. split; [done|]. split; [done|]. split; [done|]. split; [|by left].
      rewrite length_app in Hlen. cbn in Hlen.
      destruct es; [|cbn in Hlen; lia]. unfold resolve. cbn. by rewrite tower_top.
    - rewrite Dir_render_snoc by (apply Forall_app; by split).
      apply IH; try done. rewrite length_app in Hlen. cbn in Hlen. lia. }
  destruct Hpar as (f1 & Hrun & Hf1 & Hsub & Hres1 & Hnew).
  assert (Hk1 : f1 !! (false, (es ++ [e])%list) = None).
  { destruct (f1 !! (false, (es ++ [e])%list)) as [x|] eqn:E; [|done].
    destruct (Hnew (false, (es ++ [e])%list)) as [[y Hy] | (pre & Heq & Hpre)];
      [by eexists | congruence |].
    injection Heq as <-. apply prefix_length in Hpre.
    rewrite length_app in Hpre. cbn in Hpre. lia. }
  assert (Hleaf : resolve f1 (false, (es ++ [e])%list) = NoLeaf).
  { by rewrite (resolve_child _ _ _ _ Hres1), Hk1. }
  exists (<[(false, (es ++ [e])%list) := Dir true]> f1). split.
  { assert (Hm : Mkdir f1 (render (false, (es ++ [e])%list))
                 = inr (<[(false, (es ++ [e])%list) := Dir true]> f1)).
    { unfold Mkdir. rewrite create_NoLeaf; [by rewrite Hn | done | by rewrite Hn]. }
    destruct n as [|n']; cbn [MkdirAll_go]; rewrite Hs.
    - injection Hrun as <-. exact Hm.
    - rewrite Hrun. exact Hm. }
  split.
  { apply tower_insert; try done.
    - cbn. apply Forall_app. by split.
    - cbn. split; [done|]. rewrite last_snoc. intros [= ->].
      apply Hnin. apply elem_of_app. right. by apply list_elem_of_singleton. }
  split.
  { etrans; [exact Hsub|]. by apply insert_subseteq. }
  split.
  { apply resolve_insert. by left. }
  intros k [x Hx]. destruct (decide (k = (false, (es ++ [e])%list))) as [->|Hd].
  - right. by exists (es ++ [e])%list.
  - rewrite lookup_insert_ne in Hx by done.
    destruct (Hnew k) as [H|(pre & -> & Hpre)]; [by eexists | by left |].
    right. exists pre. split; [done|]. by apply prefix_app_r.
Qed.

Lemma MkdirAll_tower f es :
  tower f -> Forall proper es -> "m.mjs" ∉ es ->
  exists f',
    MkdirAll f (render (false, es)) = inr f'
    /\ tower f' /\ f ⊆ f'
    /\ resolve f' (false, es) = Found (Dir true).
Proof.
  intros Hf Hall Hnin.
  destruct (MkdirAll_go_tower es (String.length (render (false, es))) f Hf Hall Hnin)
    as (f' & H1 & H2 & H3 & H4 & _).
  - pose proof (length_render es Hall). lia.
  - by exists f'.
Qed.

(** Writing the module text to [m.mjs] in an open directory succeeds. *)
Lemma WriteFile_tower f es :
  tower f -> Forall proper es -> resolve f (false, es) = Found (Dir true) ->
  exists f',
    WriteFile f (render (false, (es ++ ["m.mjs"])%list)) tower_text = inr f'
    /\ tower f' /\ f ⊆ f'
    /\ f' !! (false, (es ++ ["m.mjs"])%list) = Some (File tower_text).
Proof.
  intros Hf Hall Hres.
  assert (Hall' : Forall proper (es ++ ["m.mjs"])).
  { apply Forall_app. split; [done|]. constructor; [|constructor].
    repeat split; done. }
  assert (Hn : norm (render (false, (es ++ ["m.mjs"])%list)) = (false, (es ++ ["m.mjs"])%list)).
  { by apply norm_render, proper_normal. }
  assert (Hp : render (false, (es ++ ["m.mjs"])%list) <> "").
  { apply render_proper_ne; [by destruct es | done]. }
  pose proof (resolve_child _ _ _ "m.mjs" Hres) as Hc.
  destruct (f !! (false, (es ++ ["m.mjs"])%list)) as [nd|] eqn:Hk.
  - destruct (Hf _ _ Hk) as (_ & _ & _ & _ & Hnd).
    destruct nd as [d|o]; cbn in Hnd.
    + destruct Hnd as [-> _]. exists f. split; [|by split].
      destruct (WriteFile_existing f _ tower_text tower_text (tower_stat _ _ _ Hf Hk))
        as [Hw _].
      rewrite Hw, Hn. f_equal. by apply insert_id.
    + destruct Hnd as [_ Hl]. by rewrite last_snoc in Hl.
  - exists (<[(false, (es ++ ["m.mjs"])%list) := File tower_text]> f). split.
    { unfold WriteFile. rewrite create_NoLeaf; [by rewrite Hn | done | by rewrite Hn]. }
    split.
    { apply tower_insert; try done. cbn. split; [done|]. by rewrite last_snoc. }
    split; [by apply insert_subseteq|]. by rewrite lookup_insert_eq.
Qed.

(** *** The mirror builder on a tower *)

Lemma tower_dest below :
  destOf "node_modules/p/spa/web_modules" (render (false, "node_modules" :: "p" :: below))
  = render (false, "node_modules" :: "p" :: "spa" :: "web_modules" :: "p" :: below).
Proof.
  change (render (false, "node_modules" :: "p" :: below))
    with ("node_modules" ++ String slash (join "/" ("p" :: below))).
  rewrite destOf_cache. by destruct below.
Qed.

(** One call of the walk function: nothing fails, and a module is
    copied one mirror deeper. *)
Lemma copyEntry_tower f0 w c :
  tower (fs w) -> f0 ⊆ fs w -> tower_call f0 c ->
  exists w',
    copyEntry "node_modules/p/spa/web_modules" w c = (w', Next)
    /\ tower (fs w') /\ fs w ⊆ fs w' /\ visits w' = visits w
    /\ forall below d,
         c_path c = render (false, "node_modules" :: "p" :: below) ->
         f0 !! (false, "node_modules" :: "p" :: below) = Some (File d) ->
         fs w' !! (false, "node_modules" :: "p" :: "spa" :: "web_modules" :: "p" :: below)
         = Some (File tower_text).
Proof.
  intros Hf Hsub (Herr & below & nd & Hpath & Hk0 & Hentry).
  pose proof (lookup_weaken _ _ _ _ Hk0 Hsub) as Hk.
  destruct (Hf _ _ Hk) as (_ & _ & Hall & _ & Hnd). cbn [fst snd] in Hall.
  assert (Hinj : forall below' d,
            c_path c = render (false, "node_modules" :: "p" :: below') ->
            f0 !! (false, "node_modules" :: "p" :: below') = Some (File d) ->
            below' = below /\ nd = File d).
  { intros below' d Hp' Hk'.
    pose proof (lookup_weaken _ _ _ _ Hk' Hsub) as Hk''.
    destruct (Hf _ _ Hk'') as (_ & _ & Hall' & _). cbn [fst snd] in Hall'.
    assert (E : (false, "node_modules" :: "p" :: below')
                = (false, "node_modules" :: "p" :: below)).
    { rewrite <- (norm_render false ("node_modules" :: "p" :: below'))
        by (by apply proper_normal).
      rewrite <- Hp', Hpath. by apply norm_render, proper_normal. }
    injection E as ->. split; [done | congruence]. }
  destruct nd as [d|o].
  - (* a module *)
    destruct Hnd as [-> Hlast]. cbn [fst snd] in Hlast.
    destruct below as [|e below _] using rev_ind; [done|].
    change ("node_modules" :: "p" :: below ++ [e])%list
      with (["node_modules"; "p"] ++ below ++ [e])%list in Hlast.
    rewrite app_assoc, last_snoc in Hlast. injection Hlast as ->.
    pose proof (tower_inner_names (fs w) ("node_modules" :: "p" :: below) "m.mjs" _ Hf Hk)
      as Hinner.
    set (dir := ("node_modules" :: "p" :: "spa" :: "web_modules" :: "p" :: below)%list).
    assert (Hdir : Forall proper dir).
    { change ("node_modules" :: "p" :: below ++ ["m.mjs"])%list
        with (["node_modules"; "p"] ++ below ++ ["m.mjs"])%list in Hall.
      apply Forall_app in Hall as [_ [Hb _]%Forall_app].
      repeat (constructor; [by repeat split|]). exact Hb. }
    destruct (MkdirAll_tower (fs w) dir Hf Hdir) as (f1 & Hmk & Hf1 & Hsub1 & Hres1).
    { unfold dir. intros Hin.
      repeat (apply elem_of_cons in Hin as [Hin|Hin]; [done|]).
      apply Hinner. by do 2 apply list_elem_of_further. }
    destruct (WriteFile_tower f1 dir Hf1 Hdir Hres1) as (f2 & Hwr & Hf2 & Hsub2 & Hk2).
    exists (set_fs w f2). split.
    { unfold copyEntry. rewrite Herr, Hentry, Hpath. cbn [node_isDir default negb andb].
      rewrite bool_decide_eq_true_2; first last.
      { change ("node_modules" :: "p" :: below ++ ["m.mjs"])%list
          with (("node_modules" :: "p" :: below) ++ ["m.mjs"])%list.
        by rewrite Ext_render_snoc. }
      rewrite (tower_stat _ _ _ Hf Hk).
      fold (destOf "node_modules/p/spa/web_modules"
              (render (false, "node_modules" :: "p" :: below ++ ["m.mjs"]))).
      rewrite tower_dest.
      change ("node_modules" :: "p" :: "spa" :: "web_modules" :: "p" :: below ++ ["m.mjs"])%list
        with (dir ++ ["m.mjs"])%list.
      rewrite Dir_render_snoc; first last.
      { apply Forall_app. split; [done|]. constructor; [by repeat split | constructor]. }
      by rewrite Hmk, Hwr. }
    split; [done|]. split; [by etrans|]. split; [done|].
    intros below' d Hp' Hk'. destruct (Hinj _ _ Hp' Hk') as [-> _]. exact Hk2.
  - (* a directory *)
    exists w. split.
    { unfold copyEntry. by rewrite Herr, Hentry. }
    split; [done|]. split; [done|]. split; [done|].
    intros below' d Hp' Hk'. by destruct (Hinj _ _ Hp' Hk') as [_ ?].
Qed.

Lemma tower_File f k d nd :
  tower f -> f !! k = Some nd -> nd = File d -> nd = File tower_text.
Proof.
  intros Hf Hk ->. destruct (Hf _ _ Hk) as (_ & _ & _ & _ & Hnd).
  by destruct Hnd as [-> _].
Qed.

(** The whole walk. *)
Lemma run_copy_tower f0 cs : forall w,
  tower (fs w) -> f0 ⊆ fs w -> Forall (tower_call f0) cs ->
  exists w',
    run (copyEntry "node_modules/p/spa/web_modules") w cs = (w', Next)
    /\ tower (fs w') /\ fs w ⊆ fs w' /\ visits w' = visits w
    /\ forall c below d,
         c ∈ cs ->
         c_path c = render (false, "node_modules" :: "p" :: below) ->
         f0 !! (false, "node_modules" :: "p" :: below) = Some (File d) ->
         fs w' !! (false, "node_modules" :: "p" :: "spa" :: "web_modules" :: "p" :: below)
         = Some (File tower_text).
Proof.
  induction cs as [|c cs IH]; intros w Hf Hsub Hall.
  { exists w. split; [done|]. split; [done|]. split; [done|]. split; [done|].
    intros c below d Hc. by apply elem_of_nil in Hc. }
  inversion Hall as [|? ? Hc Hcs]; subst.
  destruct (copyEntry_tower f0 w c Hf Hsub Hc) as (w1 & Hstep & Hf1 & Hsub1 & Hv1 & Hcopy).
  destruct (IH w1 Hf1 (transitivity Hsub Hsub1) Hcs)
    as (w' & Hrun & Hf' & Hsub' & Hv' & Hcopies).
  exists w'. split; [cbn [run]; by rewrite Hstep|].
  split; [done|]. split; [by etrans|]. split; [congruence|].
  intros c' below d [->|Hin]%elem_of_cons Hp Hk.
  - by apply (lookup_weaken _ _ _ _ (Hcopy below d Hp Hk)).
  - by apply (Hcopies c' below d).
Qed.

Lemma tower_levels_snoc k :
  (tower_levels k ++ ["spa"; "web_modules"; "p"])%list = tower_levels (S k).
Proof. induction k as [|k IH]; [done|]. cbn [tower_levels app] in *. by rewrite IH. Qed.

(** Copying the package [p] when its [k]-th copy is there: the copy one
    mirror deeper is there afterwards. *)
Lemma copyNpmModule_tower w k :
  tower (fs w) -> fs w !! tower_key k = Some (File tower_text) ->
  let w' := copyNpmModule w "p" "node_modules/p/spa/web_modules" in
  tower (fs w') /\ fs w ⊆ fs w' /\ visits w' = visits w
  /\ fs w' !! tower_key (S k) = Some (File tower_text).
Proof.
  intros Hf Hk.
  assert (Hroot : fs w !! (false, ["node_modules"; "p"]) = Some (Dir true)).
  { apply (tower_ancestor (fs w) ["node_modules"; "p"] (tower_levels k ++ ["m.mjs"])%list
             (File tower_text) Hf Hk); [done|]. by destruct (tower_levels k). }
  pose proof (tower_stat _ _ _ Hf Hroot) as Hstat.
  change (render (false, ["node_modules"; "p"])) with "node_modules/p" in Hstat.
  assert (Hcalls : Forall (tower_call (fs w)) (WalkDir (fs w) "node_modules/p")).
  { apply Forall_forall. intros c Hc. unfold WalkDir in Hc. rewrite Hstat in Hc.
    by apply (walkDir_tower (fs w) Hf (S (size (fs w))) [] (Dir true) c Hroot). }
  destruct (run_copy_tower (fs w) _ w Hf (reflexivity _) Hcalls)
    as (w1 & Hrun & Hf1 & Hsub1 & Hv1 & Hcopies).
  assert (Heq : copyNpmModule w "p" "node_modules/p/spa/web_modules" = w1).
  { unfold copyNpmModule.
    change ("node_modules/" ++ "p") with "node_modules/p". by rewrite Hrun. }
  cbv zeta. rewrite Heq. split; [done|]. split; [done|]. split; [done|].
  destruct (WalkDir_covers (fs w) "node_modules/p" (Dir true)
              (tower_levels k ++ ["m.mjs"]) (File tower_text) Hstat)
    as (c & Hin & Hpath & _).
  { destruct (Hf _ _ Hk) as (_ & _ & _ & Hres & _).
    unfold resolve, tower_key in Hres. cbn [fst snd] in Hres.
    change ("node_modules" :: "p" :: tower_levels k ++ ["m.mjs"])%list
      with (["node_modules"; "p"] ++ (tower_levels k ++ ["m.mjs"]))%list in Hres.
    rewrite (descend_app _ _ ["node_modules"; "p"] _ [] _ (Dir true)) in Hres; [done|].
    destruct (Hf _ _ Hroot) as (_ & _ & _ & Hres' & _). exact Hres'. }
  { destruct (Hf _ _ Hk) as (_ & _ & Hall & _). cbn [fst snd tower_key] in Hall.
    by inversion Hall as [|? ? _ Hall']; inversion Hall'. }
  assert (Hpath' : c_path c
                   = render (false, "node_modules" :: "p" :: tower_levels k ++ ["m.mjs"])).
  { rewrite Hpath. by destruct (tower_levels k). }
  pose proof (Hcopies c _ _ Hin Hpath' Hk) as Hres.
  unfold tower_key. cbn [tower_levels app]. exact Hres.
Qed.

(** *** The paths of the copies *)

Lemma tower_key_proper k : Forall proper (tower_key k).2.
Proof.
  unfold tower_key. cbn [snd]. do 2 (constructor; [by repeat split|]).
  apply Forall_app. split; [|constructor; [by repeat split | constructor]].
  induction k as [|k IH]; [constructor|]. cbn [tower_levels].
  by do 3 (constructor; [by repeat split|]).
Qed.

Lemma tower_levels_length k : List.length (tower_levels k) = 3 * k.
Proof. induction k as [|k IH]; [done|]. cbn [tower_levels List.length]. lia. Qed.

Lemma norm_tower_path k : norm (tower_path k) = tower_key k.
Proof. apply norm_render, proper_normal, tower_key_proper. Qed.

Lemma tower_path_inj j k : tower_path j = tower_path k -> j = k.
Proof.
  intros H. apply (f_equal norm) in H. rewrite !norm_tower_path in H.
  unfold tower_key in H. injection H as H. apply app_inj_tail in H as [H _].
  apply (f_equal List.length) in H. rewrite !tower_levels_length in H. lia.
Qed.

Lemma tower_path_dir k (names : list string) :
  Forall proper names -> names <> [] ->
  fullPathOf (tower_path k) (join "/" names)
  = render (false, "node_modules" :: "p" :: (tower_levels k ++ names)%list).
Proof.
  intros Hall Hne. unfold fullPathOf, tower_path, tower_key.
  change ("node_modules" :: "p" :: tower_levels k ++ ["m.mjs"])%list
    with (("node_modules" :: "p" :: tower_levels k) ++ ["m.mjs"])%list.
  rewrite Dir_render_snoc by apply (tower_key_proper k).
  assert (Hdir : Forall proper ("node_modules" :: "p" :: tower_levels k)).
  { pose proof (tower_key_proper k) as H. unfold tower_key in H. cbn [snd] in H.
    change ("node_modules" :: "p" :: tower_levels k ++ ["m.mjs"])%list
      with (("node_modules" :: "p" :: tower_levels k) ++ ["m.mjs"])%list in H.
    by apply Forall_app in H as [H _]. }
  unfold Clean. f_equal.
  change (render (false, "node_modules" :: "p" :: tower_levels k) ++ "/" ++ join "/" names)
    with (render (false, "node_modules" :: "p" :: tower_levels k)
          ++ String slash (join "/" names)).
  rewrite (norm_names _ false ("node_modules" :: "p" :: tower_levels k) names);
    [done | by apply render_proper_ne | by apply norm_render, proper_normal | done | done].
Qed.

Lemma tower_path_next k :
  fullPathOf (tower_path k) "spa/web_modules/p/m.mjs" = tower_path (S k).
Proof.
  change "spa/web_modules/p/m.mjs" with (join "/" ["spa"; "web_modules"; "p"; "m.mjs"]).
  rewrite tower_path_dir; [|by repeat (constructor; [by repeat split|])|done].
  unfold tower_path, tower_key. do 4 f_equal.
  change ["spa"; "web_modules"; "p"; "m.mjs"]
    with (["spa"; "web_modules"; "p"] ++ ["m.mjs"])%list.
  by rewrite app_assoc, tower_levels_snoc.
Qed.

(** The package name [p], taken as a relative location, never names a
    regular file. *)
Lemma tower_local_package f k d :
  tower f -> ReadFile f (fullPathOf (tower_path k) "p") <> inr d.
Proof.
  intros Hf Hr.
  change "p" with (join "/" ["p"]) in Hr.
  rewrite tower_path_dir in Hr; [|by repeat (constructor; [by repeat split|])|done].
  unfold ReadFile in Hr.
  destruct (stat f _) as [e|[d'|o]] eqn:Hs; try discriminate.
  apply stat_File_lookup in Hs. rewrite norm_render in Hs.
  - destruct (Hf _ _ Hs) as (_ & _ & _ & _ & _ & Hl). cbn [snd] in Hl.
    change ("node_modules" :: "p" :: tower_levels k ++ ["p"])%list
      with (("node_modules" :: "p" :: tower_levels k) ++ ["p"])%list in Hl.
    by rewrite last_snoc in Hl.
  - apply proper_normal.
    do 2 (constructor; [by repeat split|]). apply Forall_app. split.
    + pose proof (tower_key_proper k) as H. unfold tower_key in H. cbn [snd] in H.
      inversion H as [|? ? _ H1]; subst. inversion H1 as [|? ? _ H2]; subst.
      by apply Forall_app in H2 as [H2 _].
    + constructor; [by repeat split | constructor].
Qed.

Lemma tower_stat_path f k nd :
  tower f -> f !! tower_key k = Some nd -> stat f (tower_path k) = inr nd.
Proof. intros Hf Hk. exact (tower_stat f _ nd Hf Hk). Qed.

(** *** The statements of the module *)

Lemma tower_statements :
  fixDynamicImports tower_text = tower_text
  /\ allStaticStatements tower_text
     = ["import a from 'p';"; "import b from 'spa/web_modules/p/m.mjs';"]
  /\ pathOf "import a from 'p';" = "p"
  /\ pathOf "import b from 'spa/web_modules/p/m.mjs';" = "spa/web_modules/p/m.mjs".
Proof. vm_compute. repeat split; reflexivity. Qed.

(** A run on a path that is no regular file changes nothing and ends the
    caller only when the bound is used up. *)
Lemma runPack_unreadable n w buildPath convertPath converted :
  (forall d, ReadFile (fs w) convertPath <> inr d) ->
  (runPack n w buildPath convertPath converted).1 = w
  /\ ((n = 0 /\ (runPack n w buildPath convertPath converted).2 = OutOfFuel)
      \/ aborts (runPack n w buildPath convertPath converted).2 = false).
Proof.
  intros Hr. destruct n as [|n]; [by split; [|left]|].
  cbn [runPack]. unfold runPackF. destruct (bool_decide _); [by split; [|right]|].
  destruct (ReadFile (fs w) convertPath) as [e|d] eqn:E; [by split; [|right]|].
  by destruct (Hr d).
Qed.

(** The package is resolved: its copies are mirrored one level deeper,
    and the lookup in the mirror finds a file. *)
Lemma tower_package st k :
  tower (fs (l_world st)) -> fs (l_world st) !! tower_key k = Some (File tower_text) ->
  exists st',
    match resolveBare "node_modules/p" (tower_path k) (l_world st) "p" with
    | (w2, inl pk) => inr (w2, Panic pk)
    | (w2, inr foundPath') =>
        inl (applyFound "node_modules/p" (tower_path k)
               (Loop w2 (l_content st) (l_converted st))
               "import a from 'p';" "p" foundPath')
    end = inl st'
    /\ tower (fs (l_world st'))
    /\ fs (l_world st') !! tower_key (S k) = Some (File tower_text)
    /\ visits (l_world st') = visits (l_world st)
    /\ l_converted st' = l_converted st.
Proof.
  intros Hf Hk. unfold resolveBare.
  change ("node_modules/p" ++ "/spa/web_modules") with "node_modules/p/spa/web_modules".
  destruct (copyNpmModule_tower (l_world st) k Hf Hk) as (Hf1 & Hsub1 & Hv1 & Hk1).
  set (w1 := copyNpmModule (l_world st) "p" "node_modules/p/spa/web_modules") in *.
  assert (Hdir : fs w1 !! (false, ["node_modules"; "p"; "spa"; "web_modules"; "p"])
                 = Some (Dir true)).
  { apply (tower_ancestor (fs w1) ["node_modules"; "p"; "spa"; "web_modules"; "p"]
             (tower_levels k ++ ["m.mjs"])%list (File tower_text) Hf1 Hk1); [done|].
    by destruct (tower_levels k). }
  pose proof (checkNpmPath_existing w1 "node_modules/p" "p" (Dir true)
                (tower_stat _ _ _ Hf1 Hdir)) as Hfound.
  pose proof (checkNpmPath_fs w1 "node_modules/p" "p") as Hfs.
  pose proof (checkNpmPath_visits w1 "node_modules/p" "p") as Hvs.
  destruct (checkNpmPath w1 "node_modules/p" "p") as [w2 [pk|fp]]; [done|].
  cbn [fst snd] in *.
  destruct (Rel _ _) as [rel|]; eexists; (split; [reflexivity|]);
    rewrite (proj1 (applyFound_fs _ _ _ _ _ _)), (proj2 (applyFound_fs _ _ _ _ _ _)),
      applyFound_visits; cbn [l_world l_converted say fs visits];
    rewrite Hfs, Hvs; done.
Qed.

(** The first statement: unless the bound is used up at once, the loop
    goes on with the next copy in place. *)
Lemma tower_first_statement n k w content converted :
  tower (fs w) -> fs w !! tower_key k = Some (File tower_text) ->
  let r := resolveStatement (runPack n) "node_modules/p" (tower_path k)
             (Loop w content converted) "import a from 'p';" in
  (n = 0 /\ exists w', r = inr (w', OutOfFuel) /\ visits w' = visits w)
  \/ (exists st',
        r = inl st'
        /\ tower (fs (l_world st'))
        /\ fs (l_world st') !! tower_key (S k) = Some (File tower_text)
        /\ visits (l_world st') = visits w
        /\ forall x, x ∈ l_converted st' -> x ∈ converted \/ x = tower_path k).
Proof.
  intros Hf Hk. cbv zeta. unfold resolveStatement.
  rewrite (proj1 (proj2 (proj2 tower_statements))).
  unfold resolveLocal. cbn [l_world l_content l_converted].
  destruct (fileExists (fs w) _).
  - set (w1 := say (say w _) _).
    destruct (runPack_unreadable n w1 "node_modules/p" (fullPathOf (tower_path k) "p")
                (converted ++ [tower_path k])%list) as [Hw Ho].
    { intros d. by apply tower_local_package. }
    destruct (runPack n w1 _ _ _) as [w2 o]. cbn [fst snd] in *. subst w2.
    destruct Ho as [[-> ->] | Ho].
    + left. split; [done|]. by exists w1.
    + right. rewrite Ho.
      change (isBare "p") with (Some true).
      destruct (tower_package (Loop w1 content (converted ++ [tower_path k])%list) k Hf Hk)
        as (st' & -> & H1 & H2 & H3 & H4).
      exists st'. split; [done|]. split; [done|]. split; [done|]. split; [done|].
      intros x. rewrite H4. cbn [l_converted].
      intros [Hx | ->%list_elem_of_singleton]%elem_of_app; [by left | by right].
  - right. cbn [aborts]. change (isBare "p") with (Some true).
    destruct (tower_package (Loop w content converted) k Hf Hk)
      as (st' & -> & H1 & H2 & H3 & H4).
    exists st'. split; [done|]. split; [done|]. split; [done|]. split; [done|].
    intros x. rewrite H4. by left.
Qed.

(** With every bound the run on the [k]-th copy uses the bound up,
    having read one copy after the other. *)
Lemma tower_run n : forall k w converted,
  tower (fs w) -> fs w !! tower_key k = Some (File tower_text) ->
  (forall j, k <= j -> tower_path j ∉ converted) ->
  (runPack n w "node_modules/p" (tower_path k) converted).2 = OutOfFuel
  /\ visits (runPack n w "node_modules/p" (tower_path k) converted).1
     = (visits w ++ map tower_path (seq k n))%list.
Proof.
  induction n as [|n IH]; intros k w converted Hf Hk Hconv.
  { cbn. by rewrite app_nil_r. }
  cbn [runPack]. unfold runPackF.
  rewrite bool_decide_eq_false_2 by (apply Hconv; lia).
  unfold ReadFile. rewrite (tower_stat_path _ _ _ Hf Hk).
  destruct tower_statements as (-> & -> & _ & Hp2).
  cbn [resolveAll].
  destruct (tower_first_statement n k (visit w (tower_path k)) tower_text converted Hf Hk)
    as [(-> & w' & -> & Hv) | (st' & -> & Hf' & Hk' & Hv & Hc)].
  { cbn [fst snd seq map]. by rewrite Hv. }
  unfold resolveStatement. rewrite Hp2. unfold resolveLocal.
  rewrite tower_path_next.
  assert (Hex : fileExists (fs (l_world st')) (tower_path (S k)) = true).
  { unfold fileExists. by rewrite (tower_stat_path _ _ _ Hf' Hk'). }
  rewrite Hex.
  set (w1 := say (say (l_world st') _) _).
  destruct (IH (S k) w1 (l_converted st' ++ [tower_path k])%list Hf' Hk') as [Ho Hvs].
  { intros j Hj [Hin | Hin%list_elem_of_singleton]%elem_of_app.
    - destruct (Hc _ Hin) as [Hin' | Heq].
      + apply (Hconv j); [lia | done].
      + apply tower_path_inj in Heq. lia.
    - apply tower_path_inj in Hin. lia. }
  destruct (runPack n w1 _ _ _) as [w2 o]. cbn [fst snd] in *. subst o.
  cbn [aborts fst snd l_world]. split; [done|].
  rewrite Hvs. change (visits w1) with (visits (l_world st')). rewrite Hv.
  cbn [visit visits seq map]. by rewrite <- app_assoc.
Qed.

Lemma proper_check e :
  bool_decide (e <> "") && bool_decide (e <> ".")
  && bool_decide (e <> "..") && negb (has_slash e) = true -> proper e.
Proof.
  intros [[[H1%bool_decide_eq_true H2%bool_decide_eq_true]%andb_true_iff
             H3%bool_decide_eq_true]%andb_true_iff H4%negb_true_iff]%andb_true_iff.
  by repeat split.
Qed.

Lemma world_tower_is_tower : tower (fs world_tower).
Proof.
  intros k nd Hk.
  apply elem_of_map_to_list in Hk.
  assert (Hall : Forall (fun kv : key * node =>
                   kv.1.1 = false /\ kv.1.2 <> [] /\ Forall proper kv.1.2
                   /\ resolve (fs world_tower) kv.1 = Found kv.2 /\ tower_node kv.1 kv.2)
                 (map_to_list (fs world_tower))).
  { assert (Hl : map_to_list (fs world_tower)
               = [((false, ["node_modules"; "p"; "m.mjs"]), File tower_text);
                  ((false, ["node_modules"]), FS.Dir true);
                  ((false, ["node_modules"; "p"]), FS.Dir true)]) by (vm_compute; reflexivity).
    rewrite Hl.
    repeat (constructor;
            [split; [done|]; split; [done|];
             split; [repeat (constructor; [apply proper_check; vm_compute; reflexivity|]);
                     constructor|];
             split; [vm_compute; reflexivity|]; split; [reflexivity|]; try done|]).
    constructor. }
  rewrite Forall_forall in Hall. exact (Hall _ Hk).
Qed.

(** The run on [world_tower] does not end: whatever the bound, it is
    used up, and the run has read that many different modules.  (The
    walk of the program lists a directory when it enters it.  In this run
    every directory holds, when the walk lists it, what it held when the
    walk began: the one new copy is made below the deepest directory
    after that directory has been listed, and the other copies are
    written over files that are there.  So the program walks the entries
    that [WalkDir] lists here.) *)
Lemma mirror_in_package_never_ends n :
  let r := runPack n world_tower "node_modules/p" "node_modules/p/m.mjs" [] in
  r.2 = OutOfFuel
  /\ visits r.1 = map tower_path (seq 0 n)
  /\ NoDup (visits r.1).
Proof.
  destruct (tower_run n 0 world_tower [] world_tower_is_tower) as [Ho Hv].
  { vm_compute. reflexivity. }
  { intros j _ H. by apply elem_of_nil in H. }
  change (tower_path 0) with "node_modules/p/m.mjs" in Ho, Hv.
  cbv zeta. rewrite Hv. split; [done|]. split; [done|].
  apply NoDup_fmap_2; [|apply NoDup_seq].
  intros i j. apply tower_path_inj.
Qed.

End tower_facts.

(** ** C1: the guard, and the end of a run *)


Lemma left_pad_run_bounded n :
  size (file_keys (fs (runPack n world_left_pad "public"
                         "public/spa/ejected/main.js" []).1)) <= 7.
Proof.
  destruct n as [|n]; [vm_compute; lia|].
  rewrite (runPack_more_fuel 1 (S n)); [vm_compute; lia | vm_compute; discriminate | lia].
Defined.

